(** * A crawl engine: URL normalisation, page classification and the crawl loop

    A shallow embedding of [src/scrapers/website_scraper.py] (class
    [WebsiteScraper]) and of the parts of Python's [urllib.parse] and [str]
    it calls.

    Conventions of the model.
    - A Python [str] is the [string] of the bytes of its UTF-8 encoding
      (a text without lone surrogates).  The ASCII characters are the bytes
      below 128; the delimiters of a URL, the slash, the percent sign and
      the reserved characters of a path key are among them, and no byte of
      another character is.
    - Python's Unicode tables are not part of the model.  [Str.lower] is
      [str.lower] on ASCII text; what [str.lower] makes of a text that is
      not ASCII is a parameter of the model ([unicode_lower]).
    - [unquote] reads the escaped bytes as UTF-8 and replaces every part it
      cannot decode by U+FFFD, as [bytes.decode('utf-8', 'replace')] does.
    - An exception that leaves a library function is [None]; an exception
      that leaves a method of the scraper is [Raise].
    - The HTTP transport, the HTML parser and the file system are the
      environment: one [answer] per page request says what they return.
    - [urlsplit] validates a bracketed or non-ASCII network location with
      [ipaddress] and [unicodedata]; that validation and [urljoin] are
      parameters of the model ([netloc_check], [urljoin]). *)

From Stdlib Require Import ZArith NArith Ascii String Bool List Lia.
From stdpp Require Import base option list gmap sets strings countable.

Local Open Scope bool_scope.
Set Warnings "-clear-no-such-hyp".

(** ** Python's [str] operations used by the scraper *)

Module Str.

(** [all(p(c) for c in s)] *)
Fixpoint all (p : ascii -> bool) (s : string) : bool :=
  match s with
  | EmptyString => true
  | String c r => p c && all p r
  end.

(** [c in s] for a single character [c] *)
Fixpoint has (c : ascii) (s : string) : bool :=
  match s with
  | EmptyString => false
  | String d r => Ascii.eqb d c || has c r
  end.

(** [s.lstrip(chars)], the characters given as a predicate *)
Fixpoint lstrip (p : ascii -> bool) (s : string) : string :=
  match s with
  | EmptyString => EmptyString
  | String c r => if p c then lstrip p r else s
  end.

(** [s.rstrip(chars)]: every trailing character in [chars] is removed *)
Fixpoint rstrip (p : ascii -> bool) (s : string) : string :=
  match s with
  | EmptyString => EmptyString
  | String c r =>
      match rstrip p r with
      | EmptyString => if p c then EmptyString else String c EmptyString
      | r' => String c r'
      end
  end.

(** [s.strip(chars)] *)
Definition strip (p : ascii -> bool) (s : string) : string :=
  rstrip p (lstrip p s).

(** [s.replace(c, "")] for every character [c] satisfying [p] *)
Fixpoint remove (p : ascii -> bool) (s : string) : string :=
  match s with
  | EmptyString => EmptyString
  | String c r => if p c then remove p r else String c (remove p r)
  end.

(** [s.split(c, 1)] when [c in s]: the text before and after the first [c] *)
Fixpoint partition (c : ascii) (s : string) : option (string * string) :=
  match s with
  | EmptyString => None
  | String d r =>
      if Ascii.eqb d c then Some (EmptyString, r)
      else match partition c r with
           | Some (a, b) => Some (String d a, b)
           | None => None
           end
  end.

(** The longest prefix whose characters satisfy [p], and the rest. *)
Fixpoint span (p : ascii -> bool) (s : string) : string * string :=
  match s with
  | EmptyString => (EmptyString, EmptyString)
  | String c r =>
      if p c then let '(a, b) := span p r in (String c a, b)
      else (EmptyString, s)
  end.

Fixpoint map (f : ascii -> ascii) (s : string) : string :=
  match s with
  | EmptyString => EmptyString
  | String c r => String (f c) (map f r)
  end.

Definition is_upper (c : ascii) : bool :=
  (65 <=? N_of_ascii c)%N && (N_of_ascii c <=? 90)%N.

Definition is_lower (c : ascii) : bool :=
  (97 <=? N_of_ascii c)%N && (N_of_ascii c <=? 122)%N.

Definition is_digit (c : ascii) : bool :=
  (48 <=? N_of_ascii c)%N && (N_of_ascii c <=? 57)%N.

(** [c.isascii() and c.isalpha()] *)
Definition is_alpha (c : ascii) : bool := is_upper c || is_lower c.

Definition lower_char (c : ascii) : ascii :=
  if is_upper c then ascii_of_N (N_of_ascii c + 32) else c.

(** [s.lower()] on ASCII text: the letters A to Z are changed, every other
    byte is left as it is. *)
Definition lower (s : string) : string := map lower_char s.

(** [s.startswith(p)] *)
Fixpoint startswith (p s : string) : bool :=
  match p, s with
  | EmptyString, _ => true
  | String a p', String b s' => Ascii.eqb a b && startswith p' s'
  | String _ _, EmptyString => false
  end.

(** [sub in s] *)
Fixpoint contains (sub s : string) : bool :=
  startswith sub s ||
  match s with
  | EmptyString => false
  | String _ r => contains sub r
  end.

(** [s.endswith(c)] for a single character *)
Fixpoint endswith (c : ascii) (s : string) : bool :=
  match s with
  | EmptyString => false
  | String d EmptyString => Ascii.eqb d c
  | String _ r => endswith c r
  end.

(** Truth value of a string: [bool(s)] *)
Definition nonempty (s : string) : bool :=
  match s with EmptyString => false | String _ _ => true end.

End Str.

(** ** [urllib.parse] (CPython 3.11) *)

Module urllib.

Definition uses_netloc : list string :=
  [""; "ftp"; "http"; "gopher"; "nntp"; "telnet"; "imap"; "wais"; "file";
   "mms"; "https"; "shttp"; "snews"; "prospero"; "rtsp"; "rtspu"; "rsync";
   "svn"; "svn+ssh"; "sftp"; "nfs"; "git"; "git+ssh"; "ws"; "wss"].

Definition uses_params : list string :=
  [""; "ftp"; "hdl"; "prospero"; "http"; "imap"; "https"; "shttp"; "rtsp";
   "rtspu"; "sip"; "sips"; "mms"; "sftp"; "tel"].

(** [x in l] for a list of strings *)
Definition mem (x : string) (l : list string) : bool :=
  existsb (String.eqb x) l.

(** [scheme_chars]: letters, digits and [+-.] *)
Definition scheme_char (c : ascii) : bool :=
  Str.is_alpha c || Str.is_digit c ||
  Ascii.eqb c "+"%char || Ascii.eqb c "-"%char || Ascii.eqb c "."%char.

(** [_WHATWG_C0_CONTROL_OR_SPACE]: the code points 0 to 32 *)
Definition C0_CONTROL_OR_SPACE (c : ascii) : bool := (N_of_ascii c <=? 32)%N.

(** [_UNSAFE_URL_BYTES_TO_REMOVE]: tab, carriage return, line feed *)
Definition UNSAFE_URL_BYTE (c : ascii) : bool :=
  Ascii.eqb c "009"%char || Ascii.eqb c "013"%char || Ascii.eqb c "010"%char.

(** The delimiters that end the network location: [/], [?] and [#]. *)
Definition netloc_delim (c : ascii) : bool :=
  Ascii.eqb c "/"%char || Ascii.eqb c "?"%char || Ascii.eqb c "#"%char.

Definition isascii (s : string) : bool :=
  Str.all (fun c => (N_of_ascii c <? 128)%N) s.

(** The scheme of [url], if it has one: the text before the first colon,
    when it is not empty, starts with a letter and holds scheme characters
    only.  Returns the lower-cased scheme and the text after the colon. *)
Definition split_scheme (url : string) : string * string :=
  match Str.partition ":"%char url with
  | Some (String c0 r0, rest) =>
      if Str.is_alpha c0 && Str.all scheme_char (String c0 r0)
      then (Str.lower (String c0 r0), rest)
      else (EmptyString, url)
  | _ => (EmptyString, url)
  end.

(** [_splitnetloc(url, 2)] *)
Definition _splitnetloc (url : string) : string * string :=
  match url with
  | String _ (String _ r) => Str.span (fun c => negb (netloc_delim c)) r
  | _ => (EmptyString, EmptyString)
  end.

(** [url.split(c, 1)] guarded by [c in url] *)
Definition cut (c : ascii) (url : string) : string * string :=
  match Str.partition c url with
  | Some (a, b) => (a, b)
  | None => (url, EmptyString)
  end.

(** The directory part of a path (up to and including its last slash) and
    its last segment. *)
Fixpoint last_segment (url : string) : string * string :=
  match url with
  | EmptyString => (EmptyString, EmptyString)
  | String c r =>
      match last_segment r with
      | (EmptyString, seg) =>
          if Ascii.eqb c "/"%char then (String c EmptyString, seg)
          else (EmptyString, String c seg)
      | (dir, seg) => (String c dir, seg)
      end
  end.

(** [_splitparams]: the parameters follow the first semicolon of the last
    path segment. *)
Definition _splitparams (url : string) : string * string :=
  let '(dir, seg) := last_segment url in
  match Str.partition ";"%char seg with
  | Some (p, q) => (dir +:+ p, q)
  | None => (url, EmptyString)
  end.

Record SplitResult := mkSplit {
  s_scheme : string; s_netloc : string; s_path : string;
  s_query : string; s_fragment : string }.

Record ParseResult := mkParse {
  scheme : string; netloc : string; path : string;
  params : string; query : string; fragment : string }.

(** [urlunsplit] *)
Definition urlunsplit (r : SplitResult) : string :=
  let url := s_path r in
  let url :=
    if Str.nonempty (s_netloc r) ||
       (Str.nonempty (s_scheme r) && mem (s_scheme r) uses_netloc &&
        negb (Str.startswith "//" url))
    then
      let url :=
        if Str.nonempty url && negb (Str.startswith "/" url)
        then "/" +:+ url else url in
      "//" +:+ s_netloc r +:+ url
    else url in
  let url :=
    if Str.nonempty (s_scheme r) then s_scheme r +:+ ":" +:+ url else url in
  let url :=
    if Str.nonempty (s_query r) then url +:+ "?" +:+ s_query r else url in
  if Str.nonempty (s_fragment r) then url +:+ "#" +:+ s_fragment r else url.

(** [urlunparse] *)
Definition urlunparse (r : ParseResult) : string :=
  let url :=
    if Str.nonempty (params r) then path r +:+ ";" +:+ params r else path r in
  urlunsplit (mkSplit (scheme r) (netloc r) url (query r) (fragment r)).

(** [ParseResult.geturl()] *)
Definition geturl (r : ParseResult) : string := urlunparse r.

(** [r._replace(query=q, fragment=f)] *)
Definition _replace (r : ParseResult) (q f : string) : ParseResult :=
  mkParse (scheme r) (netloc r) (path r) (params r) q f.

Section Parse.

(** The library's validation of a network location that has both brackets
    ([_check_bracketed_netloc]) or a non-ASCII character ([_checknetloc]):
    [false] when it raises [ValueError]. *)
Variable netloc_check : string -> bool.

(** The three checks of [urlsplit] on the network location. *)
Definition netloc_valid (netloc : string) : bool :=
  let lb := Str.has "["%char netloc in
  let rb := Str.has "]"%char netloc in
  negb ((lb && negb rb) || (rb && negb lb)) &&
  (if lb && rb then netloc_check netloc else true) &&
  (if negb (Str.nonempty netloc) || isascii netloc then true
   else netloc_check netloc).

(** [urlsplit(url)]; [None] when it raises [ValueError]. *)
Definition urlsplit (url : string) : option SplitResult :=
  let url := Str.lstrip C0_CONTROL_OR_SPACE url in
  let url := Str.remove UNSAFE_URL_BYTE url in
  let '(scheme, url) := split_scheme url in
  let '(netloc, url) :=
    if Str.startswith "//" url then _splitnetloc url else (EmptyString, url) in
  if netloc_valid netloc then
    let '(url, fragment) := cut "#"%char url in
    let '(url, query) := cut "?"%char url in
    Some (mkSplit scheme netloc url query fragment)
  else None.

(** [urlparse(url)]; [None] when it raises [ValueError]. *)
Definition urlparse (url : string) : option ParseResult :=
  match urlsplit url with
  | Some (mkSplit scheme netloc url query fragment) =>
      let '(url, params) :=
        if mem scheme uses_params && Str.has ";"%char url
        then _splitparams url else (url, EmptyString) in
      Some (mkParse scheme netloc url params query fragment)
  | None => None
  end.

End Parse.

End urllib.

(** ** The environment: parsed documents and the answers to a page request *)

(** An element of a parsed document, as [BeautifulSoup] exposes it. *)
Record Tag := mkTag {
  tag_name : string;                    (* tag.name *)
  tag_class : list string;              (* values of the class attribute *)
  tag_attrs : list (string * string);   (* the other attributes *)
  tag_text : string                     (* tag.get_text(strip=True) *)
}.

(** A parsed document: [soup.title.string] and the elements in document
    order. *)
Record BeautifulSoup := mkSoup {
  soup_title : option string;
  soup_tags : list Tag
}.

(** [tag.get(key)] *)
Fixpoint get (key : string) (l : list (string * string)) : option string :=
  match l with
  | [] => None
  | (k, v) :: r => if String.eqb k key then Some v else get key r
  end.

Definition has_class (cls : string) (t : Tag) : bool :=
  existsb (String.eqb cls) (tag_class t).

(** Truth value of [soup.find(tag, class_=cls)] *)
Definition find (soup : BeautifulSoup) (tag cls : string) : bool :=
  existsb (fun t => String.eqb (tag_name t) tag && has_class cls t) (soup_tags soup).

(** [soup.find_all(tag)] *)
Definition find_all (soup : BeautifulSoup) (tag : string) : list Tag :=
  filter (fun t => String.eqb (tag_name t) tag = true) (soup_tags soup).

(** What the environment does during one call of [scrape_page]. *)
Record answer := mkAnswer {
  makedirs_ok : bool;   (* os.makedirs succeeds in create_page_directory *)
  response : option (Z * BeautifulSoup);
                        (* requests.get(url): status code and parsed body;
                           None when the request raises *)
  write_ok : bool       (* the text, image and JSON artefacts of the page
                           are written without an exception *)
}.

(** The web as the crawl sees it: the answer to the request of a URL.  A
    crawl requests a URL at most once (its normal form is then visited),
    so a function of the URL describes any run. *)
Definition world := string -> answer.

(** ** The scraper *)

Inductive result (A : Type) : Type :=
| Ok (a : A)
| Raise.
Arguments Ok {A} a.
Arguments Raise {A}.

Record LinkRecord := mkLink {
  l_url : string; l_text : string; l_title : string }.

Record PageRecord := mkPage {
  pd_url : string; pd_original_url : string; pd_path : string;
  pd_type : string; pd_title : option string; pd_links : list LinkRecord }.

Record HierarchyNode := mkNode {
  n_path : string; n_title : option string; n_type : string;
  children : list string }.

Record WebsiteScraper := mkScraper {
  base_url : string;
  visited_urls : gset string;
  page_hierarchy : gmap string HierarchyNode;
  product_pages : gset string;
  category_pages : gset string;
  content_pages : gset string }.

Definition slash (c : ascii) : bool := Ascii.eqb c "/"%char.

(** [WebsiteScraper.__init__] *)
Definition __init__ (base_url : string) : WebsiteScraper :=
  mkScraper (Str.rstrip slash base_url) ∅ ∅ ∅ ∅ ∅.

Definition set_visited (s : WebsiteScraper) (v : gset string) :=
  mkScraper (base_url s) v (page_hierarchy s) (product_pages s)
    (category_pages s) (content_pages s).

Definition set_hierarchy (s : WebsiteScraper) (h : gmap string HierarchyNode) :=
  mkScraper (base_url s) (visited_urls s) h (product_pages s)
    (category_pages s) (content_pages s).

(** Lines 298-303: the page joins the set of its type. *)
Definition add_to_page_set (s : WebsiteScraper) (page_type url : string) :=
  if String.eqb page_type "product" then
    mkScraper (base_url s) (visited_urls s) (page_hierarchy s)
      ({[url]} ∪ product_pages s) (category_pages s) (content_pages s)
  else if String.eqb page_type "category" then
    mkScraper (base_url s) (visited_urls s) (page_hierarchy s)
      (product_pages s) ({[url]} ∪ category_pages s) (content_pages s)
  else
    mkScraper (base_url s) (visited_urls s) (page_hierarchy s)
      (product_pages s) (category_pages s) ({[url]} ∪ content_pages s).

(** ** [urllib.parse.unquote] *)

Definition hex_value (c : ascii) : option N :=
  let n := N_of_ascii c in
  if Str.is_digit c then Some (n - 48)%N
  else if (65 <=? n)%N && (n <=? 70)%N then Some (n - 55)%N
  else if (97 <=? n)%N && (n <=? 102)%N then Some (n - 87)%N
  else None.

(** [unquote_to_bytes]: every percent sign followed by two hexadecimal
    digits becomes the byte they name; any other percent sign stays. *)
Fixpoint unquote_to_bytes (s : string) : string :=
  match s with
  | EmptyString => EmptyString
  | String c r =>
      if Ascii.eqb c "%"%char then
        match r with
        | String a (String b r') =>
            match hex_value a, hex_value b with
            | Some x, Some y =>
                String (ascii_of_N (16 * x + y)) (unquote_to_bytes r')
            | _, _ => String c (unquote_to_bytes r)
            end
        | _ => String c (unquote_to_bytes r)
        end
      else String c (unquote_to_bytes r)
  end.

Definition is_ascii (c : ascii) : bool := (N_of_ascii c <? 128)%N.

Definition between (lo hi : N) (c : ascii) : bool :=
  (lo <=? N_of_ascii c)%N && (N_of_ascii c <=? hi)%N.

(** U+FFFD, the replacement character, before [rest]. *)
Definition REPLACEMENT (rest : string) : string :=
  String (ascii_of_N 239) (String (ascii_of_N 191) (String (ascii_of_N 189) rest)).

(** The first byte of a character of more than one byte: how many bytes
    follow, and where the first of them has to lie (the later ones lie
    between 128 and 191). *)
Definition utf8_lead (c : ascii) : option (nat * (N * N)) :=
  if between 194 223 c then Some (1, (128, 191)%N)
  else if between 224 224 c then Some (2, (160, 191)%N)
  else if between 237 237 c then Some (2, (128, 159)%N)
  else if between 225 239 c then Some (2, (128, 191)%N)
  else if between 240 240 c then Some (3, (144, 191)%N)
  else if between 241 243 c then Some (3, (128, 191)%N)
  else if between 244 244 c then Some (3, (128, 143)%N)
  else None.

(** [bytes.decode('utf-8', 'replace')], the text it returns in UTF-8
    again: a well-formed character is kept, and a byte that starts none,
    or the start of a character that is cut short, becomes U+FFFD. *)
Fixpoint decode_replace (s : string) : string :=
  match s with
  | EmptyString => EmptyString
  | String c r =>
      if is_ascii c then String c (decode_replace r)
      else
        match utf8_lead c with
        | None => REPLACEMENT (decode_replace r)
        | Some (k, (lo, hi)) =>
            match r with
            | EmptyString => REPLACEMENT EmptyString
            | String c2 r2 =>
                if negb (between lo hi c2) then REPLACEMENT (decode_replace r)
                else
                  match k with
                  | 1 => String c (String c2 (decode_replace r2))
                  | _ =>
                      match r2 with
                      | EmptyString => REPLACEMENT EmptyString
                      | String c3 r3 =>
                          if negb (between 128 191 c3)
                          then REPLACEMENT (decode_replace r2)
                          else
                            match k with
                            | 2 =>
                                String c (String c2
                                  (String c3 (decode_replace r3)))
                            | _ =>
                                match r3 with
                                | EmptyString => REPLACEMENT EmptyString
                                | String c4 r4 =>
                                    if negb (between 128 191 c4)
                                    then REPLACEMENT (decode_replace r3)
                                    else
                                      String c (String c2 (String c3
                                        (String c4 (decode_replace r4))))
                                end
                            end
                      end
                  end
            end
        end
  end.

(** The loop of [unquote] over [_asciire.split(string)]: every run of
    ASCII characters goes through [unquote_to_bytes] and is decoded, and
    the characters between the runs are kept.  [run] is the run read so
    far. *)
Fixpoint unquote_runs (run s : string) : string :=
  match s with
  | EmptyString => decode_replace (unquote_to_bytes run)
  | String c r =>
      if is_ascii c then unquote_runs (run +:+ String c EmptyString) r
      else decode_replace (unquote_to_bytes run)
           +:+ String c (unquote_runs EmptyString r)
  end.

(** [unquote(string)] *)
Definition unquote (s : string) : string :=
  if Str.has "%"%char s then unquote_runs EmptyString s else s.

(** The character class of the regular expression in [get_page_path]:
    less-than, greater-than, colon, double quote, slash, backslash, bar,
    question mark, star. *)
Definition reserved : list ascii :=
  ["<"; ">"; ":"; "034"; "/"; "092"; "|"; "?"; "*"]%char.

Definition is_reserved (c : ascii) : bool := existsb (Ascii.eqb c) reserved.

(** [re.sub(class, '-', path)] *)
Definition re_sub (path : string) : string :=
  Str.map (fun c => if is_reserved c then "-"%char else c) path.

(** Python's Unicode tables: what [str.lower] returns for a text that is not
    ASCII, in UTF-8 as the text is. *)
Class Unicode := { unicode_lower : string -> string }.

Section Scraper.

Context {unicode : Unicode}.

Variable netloc_check : string -> bool.

(** [urljoin(base, href)]; [None] when it raises. *)
Variable urljoin : string -> string -> option string.

Abbreviation urlparse := (urllib.urlparse netloc_check).

(** [WebsiteScraper.clean_url] *)
Definition clean_url (url : string) : option string :=
  parsed ← urlparse url;
  let clean := urllib.geturl (urllib._replace parsed "" "") in
  Some (Str.rstrip slash clean).

(** [WebsiteScraper.is_valid_url] *)
Definition is_valid_url (self : WebsiteScraper) (url : string) : option bool :=
  if negb (Str.nonempty url) then Some false
  else
    base ← urlparse (base_url self);
    u ← urlparse url;
    Some (String.eqb (urllib.netloc base) (urllib.netloc u)).

(** [path.lower()] *)
Definition str_lower (path : string) : string :=
  if urllib.isascii path then Str.lower path else unicode_lower path.

(** [WebsiteScraper.get_page_type].  Only whether the lower-cased path
    contains one of three ASCII words is used: the letters of such a word
    in [path.lower()] stand where they, or their capitals, stand in the
    path, since no character that is not ASCII is lower-cased to one of
    them.  [Str.lower] gives the same answers as [str.lower] here. *)
Definition get_page_type (url : string) (soup : BeautifulSoup) : option string :=
  parsed ← urlparse url;
  let url_path := Str.lower (urllib.path parsed) in
  if Str.contains "product" url_path
     || find soup "div" "product"
     || find soup "div" "woocommerce-product-gallery"
  then Some "product"
  else if Str.contains "category" url_path
     || Str.contains "shop" url_path
     || find soup "ul" "products"
     || find soup "div" "woocommerce-products-header"
  then Some "category"
  else Some "content".

(** [WebsiteScraper.get_page_path] *)
Definition get_page_path (url : string) : option string :=
  parsed ← urlparse url;
  let path := Str.strip slash (urllib.path parsed) in
  if negb (Str.nonempty path) then Some "home"
  else Some (str_lower (re_sub (unquote path))).

(** [WebsiteScraper.create_page_directory]: the directory of the page
    below the output directory; [None] when [urlparse] or [os.makedirs]
    raises. *)
Definition create_page_directory (a : answer) (url : string) : option string :=
  page_path ← get_page_path url;
  if makedirs_ok a then Some page_path else None.

(** Lines 255-269: the links of a page.  [None] when [urljoin],
    [is_valid_url] or [clean_url] raises. *)
Fixpoint find_links (self : WebsiteScraper) (url : string) (anchors : list Tag)
  : option (list LinkRecord) :=
  match anchors with
  | [] => Some []
  | link :: rest =>
      match get "href" (tag_attrs link) with
      | Some href =>
          if Str.nonempty href then
            absolute_url ← urljoin url href;
            valid ← is_valid_url self absolute_url;
            if valid : bool then
              clean_link ← clean_url absolute_url;
              more ← find_links self url rest;
              Some (mkLink clean_link (tag_text link)
                      (default "" (get "title" (tag_attrs link))) :: more)
            else find_links self url rest
          else find_links self url rest
      | None => find_links self url rest
      end
  end.

(** Lines 221-287, the part of [scrape_page] inside [try] before the state
    is updated: the links and the record of the page.  [None] when the
    status is not 200 (line 225) or an exception is caught (line 307); both
    make [scrape_page] return [[], None]. *)
Definition fetch_page (self : WebsiteScraper) (a : answer) (url clean : string)
  : option (list string * PageRecord) :=
  '(status_code, soup) ← response a;
  if negb (status_code =? 200)%Z then None
  else
    page_type ← get_page_type clean soup;
    if negb (write_ok a) then None
    else
      link_data ← find_links self url (find_all soup "a");
      path ← get_page_path clean;
      Some (l_url <$> link_data,
            mkPage clean url path page_type (soup_title soup) link_data).

(** Lines 289-303: the page enters the hierarchy and the set of its type. *)
Definition register (self : WebsiteScraper) (page : PageRecord) : WebsiteScraper :=
  let node := mkNode (pd_path page) (pd_title page) (pd_type page) [] in
  add_to_page_set
    (set_hierarchy self (<[pd_url page := node]> (page_hierarchy self)))
    (pd_type page) (pd_url page).

(** [WebsiteScraper.scrape_page] *)
Definition scrape_page (a : answer) (url : string) (self : WebsiteScraper)
  : result (list string * option PageRecord) * WebsiteScraper :=
  match clean_url url with
  | None => (Raise, self)
  | Some clean =>
      if bool_decide (clean ∈ visited_urls self) then (Ok ([], None), self)
      else
        match is_valid_url self clean with
        | None => (Raise, self)
        | Some false => (Ok ([], None), self)
        | Some true =>
            let self := set_visited self ({[clean]} ∪ visited_urls self) in
            match create_page_directory a clean with
            | None => (Raise, self)
            | Some page_dir =>
                match fetch_page self a url clean with
                | None => (Ok ([], None), self)
                | Some (links, page_data) =>
                    (Ok (links, Some page_data), register self page_data)
                end
            end
        end
  end.

(** [WebsiteScraper.save_site_hierarchy]: the contents of
    [site_hierarchy.json] and of the three lists of [page_listings.json]. *)
Definition save_site_hierarchy (self : WebsiteScraper)
  : gmap string HierarchyNode * (list string * list string * list string) :=
  (page_hierarchy self,
   (elements (product_pages self), elements (category_pages self),
    elements (content_pages self))).

(** Lines 347-349: one link of the scraped page.  The target becomes a
    child of the current page when it is a key of the hierarchy. *)
Definition record_child (current_clean : string) (link : LinkRecord)
    (self : WebsiteScraper) : result unit * WebsiteScraper :=
  match clean_url (l_url link) with
  | None => (Raise, self)
  | Some link_clean =>
      if bool_decide (link_clean ∈ dom (page_hierarchy self)) then
        match page_hierarchy self !! current_clean with
        | None => (Raise, self)   (* KeyError *)
        | Some node =>
            let node := mkNode (n_path node) (n_title node) (n_type node)
                          (children node ++ [link_clean]) in
            (Ok tt, set_hierarchy self
                      (<[current_clean := node]> (page_hierarchy self)))
        end
      else (Ok tt, self)
  end.

(** Lines 346-349: the loop over the links of the scraped page. *)
Fixpoint record_children (current_clean : string) (links : list LinkRecord)
    (self : WebsiteScraper) : result unit * WebsiteScraper :=
  match links with
  | [] => (Ok tt, self)
  | link :: rest =>
      match record_child current_clean link self with
      | (Ok _, self) => record_children current_clean rest self
      | (Raise, self) => (Raise, self)
      end
  end.

(** Lines 352-354: the new links whose normal form is not visited join
    the tail of the frontier. *)
Fixpoint enqueue (self : WebsiteScraper) (new_links to_visit : list string)
  : option (list string) :=
  match new_links with
  | [] => Some to_visit
  | link :: rest =>
      c ← clean_url link;
      if bool_decide (c ∈ visited_urls self)
      then enqueue self rest to_visit
      else enqueue self rest (to_visit ++ [link])
  end.

(** The local state of [scrape_website]. *)
Record loop_state := mkLoop {
  to_visit : list string;
  pages_scraped : Z;
  self_ : WebsiteScraper }.

(** The test of the [while] loop, line 339. *)
Definition loop_test (max_pages : option Z) (ls : loop_state) : bool :=
  match to_visit ls with [] => false | _ :: _ => true end &&
  match max_pages with
  | None => true
  | Some m => (pages_scraped ls <? m)%Z
  end.

(** Lines 341-356: the body of the loop after [current_url] has been taken
    from the frontier. *)
Definition loop_body (w : world) (current_url : string) (ls : loop_state)
  : result unit * loop_state :=
  match scrape_page (w current_url) current_url (self_ ls) with
  | (Raise, self) => (Raise, mkLoop (to_visit ls) (pages_scraped ls) self)
  | (Ok (new_links, page_data), self) =>
      let '(r, self) :=
        match page_data with
        | Some page =>
            match clean_url current_url with
            | None => (Raise, self)
            | Some current_clean =>
                record_children current_clean (pd_links page) self
            end
        | None => (Ok tt, self)
        end in
      match r with
      | Raise => (Raise, mkLoop (to_visit ls) (pages_scraped ls) self)
      | Ok _ =>
          match enqueue self new_links (to_visit ls) with
          | None => (Raise, mkLoop (to_visit ls) (pages_scraped ls) self)
          | Some to_visit' =>
              (Ok tt, mkLoop to_visit' (pages_scraped ls + 1)%Z self)
          end
      end
  end.

(** How a run of the loop stands: out of fuel with the loop still running,
    left by its test, or left by an exception. *)
Inductive status := Running | Finished | Raised.

(** The [while] loop of [scrape_website], at most [fuel] iterations of it.
    Returns the state reached and the URLs taken from the frontier, in
    order. *)
Fixpoint crawl_loop (fuel : nat) (max_pages : option Z) (w : world)
    (ls : loop_state) : status * loop_state * list string :=
  if loop_test max_pages ls then
    match fuel, to_visit ls with
    | O, _ => (Running, ls, [])
    | S _, [] => (Finished, ls, [])
    | S fuel', current_url :: rest =>
        match loop_body w current_url
                (mkLoop rest (pages_scraped ls) (self_ ls)) with
        | (Ok _, ls') =>
            let '(st, ls'', trace) := crawl_loop fuel' max_pages w ls' in
            (st, ls'', current_url :: trace)
        | (Raise, ls') => (Raised, ls', [current_url])
        end
    end
  else (Finished, ls, []).

(** What a run of [scrape_website] leaves: how the loop stands, its
    state, the URLs taken from the frontier, and the files written after
    the loop (lines 362-363), which an exception or a loop still running
    does not reach. *)
Record crawl_result := mkResult {
  final_status : status;
  final_state : loop_state;
  dequeued : list string;
  saved : option (gmap string HierarchyNode
                  * (list string * list string * list string)) }.

(** [WebsiteScraper.scrape_website] *)
Definition scrape_website (fuel : nat) (max_pages : option Z) (w : world)
    (self : WebsiteScraper) : crawl_result :=
  let '(st, ls, trace) :=
    crawl_loop fuel max_pages w (mkLoop [base_url self] 0 self) in
  mkResult st ls trace
    match st with
    | Finished => Some (save_site_hierarchy (self_ ls))
    | _ => None
    end.

(** The request of the page fails: it raises, the status is not 200, an
    artefact cannot be written, or a link of the page makes [urljoin],
    [is_valid_url] or [clean_url] raise. *)
Definition page_fails (self : WebsiteScraper) (a : answer) (url : string) : Prop :=
  response a = None
  ∨ (∃ code soup, response a = Some (code, soup) ∧ code ≠ 200%Z)
  ∨ write_ok a = false
  ∨ (∃ code soup, response a = Some (code, soup) ∧
       find_links self url (find_all soup "a") = None).

(** The states of the scraper a crawl goes through: the initial one, and
    the ones after a call of [scrape_page] or after one link is recorded,
    whatever the environment answers. *)
Inductive reachable (base : string) : WebsiteScraper -> Prop :=
| reach_init : reachable base (__init__ base)
| reach_scrape s a url r s' :
    reachable base s -> scrape_page a url s = (r, s') -> reachable base s'
| reach_child s cur link r s' :
    reachable base s -> record_child cur link s = (r, s') -> reachable base s'.

(** The three ways a call of [scrape_page] ends. *)
Inductive scrape_outcome (a : answer) (url : string) (s : WebsiteScraper)
  : result (list string * option PageRecord) → WebsiteScraper → Prop :=
| outcome_same r : scrape_outcome a url s r s
| outcome_visited clean r :
    clean_url url = Some clean → clean ∉ visited_urls s →
    is_valid_url s clean = Some true →
    r = Raise ∨ r = Ok ([], None) →
    scrape_outcome a url s r (set_visited s ({[clean]} ∪ visited_urls s))
| outcome_scraped clean links page :
    clean_url url = Some clean → clean ∉ visited_urls s →
    pd_url page = clean →
    scrape_outcome a url s (Ok (links, Some page))
      (register (set_visited s ({[clean]} ∪ visited_urls s)) page).

End Scraper.

(** ** The specification's wording of the two URL functions *)

(** One trailing slash removed, if there is one. *)
Fixpoint strip_one_trailing_slash (s : string) : string :=
  match s with
  | EmptyString => EmptyString
  | String c EmptyString => if slash c then EmptyString else s
  | String c r => String c (strip_one_trailing_slash r)
  end.

(** [normalize] as the specification words it: parse, drop the query
    string and the fragment, strip one trailing slash. *)
Definition normalize_spec (netloc_check : string -> bool) (url : string)
  : option string :=
  parsed ← urllib.urlparse netloc_check url;
  Some (strip_one_trailing_slash
          (urllib.geturl (urllib._replace parsed "" ""))).

(** The same with every trailing slash stripped: one slash is stripped as
    often as the text is long. *)
Definition strip_trailing_slashes (s : string) : string :=
  Nat.iter (String.length s) strip_one_trailing_slash s.

(** The three steps of [toPathKey] as the specification words them, on
    ASCII text. *)

(** The place of [c] in [digits], counted from [n]. *)
Fixpoint place (c : ascii) (digits : string) (n : N) : option N :=
  match digits with
  | EmptyString => None
  | String d r => if Ascii.eqb c d then Some n else place c r (N.succ n)
  end.

(** The value of a hexadecimal digit, in either case. *)
Definition hex_digit (c : ascii) : option N :=
  match place c "0123456789abcdef" 0 with
  | Some n => Some n
  | None => place c "0123456789ABCDEF" 0
  end.

(** Percent-decoding: an escape, a percent sign and two hexadecimal digits,
    stands for the character with that code. *)
Fixpoint percent_decode (s : string) : string :=
  match s with
  | String "%" (String a (String b r) as r2) =>
      match hex_digit a, hex_digit b with
      | Some x, Some y => String (ascii_of_N (16 * x + y)) (percent_decode r)
      | _, _ => String "%" (percent_decode r2)
      end
  | String c r => String c (percent_decode r)
  | EmptyString => EmptyString
  end.





(** ** The specification's wording of the classifier *)

(** The path contains the word. *)
Definition path_contains (word path : string) : Prop :=
  ∃ a b, path = a +:+ word +:+ b.

(** The document holds an element [tag] of class [cls]. *)
Definition has_marker (soup : BeautifulSoup) (tag cls : string) : Prop :=
  ∃ t, t ∈ soup_tags soup ∧ tag_name t = tag ∧ cls ∈ tag_class t.

Definition product_indicator (path : string) (soup : BeautifulSoup) : Prop :=
  path_contains "product" path
  ∨ has_marker soup "div" "product"
  ∨ has_marker soup "div" "woocommerce-product-gallery".

Definition category_indicator (path : string) (soup : BeautifulSoup) : Prop :=
  path_contains "category" path
  ∨ path_contains "shop" path
  ∨ has_marker soup "ul" "products"
  ∨ has_marker soup "div" "woocommerce-products-header".


(** ** Predicates used in the proofs *)


Ltac ascii_cases c := destruct c as [[] [] [] [] [] [] [] []].

Definition safe (c : ascii) : bool := negb (urllib.UNSAFE_URL_BYTE c).
Definition nondelim (c : ascii) : bool := negb (urllib.netloc_delim c).

(** The head of a string fails [p], or the string is empty. *)
Definition stops (p : ascii → bool) (s : string) : Prop :=
  match s with EmptyString => True | String c _ => p c = false end.

(** A scheme as [urlsplit] returns it: empty, or lower-cased scheme
    characters after a letter. *)
Definition scheme_ok (scheme : string) : Prop :=
  match scheme with
  | EmptyString => True
  | String c _ =>
      Str.is_alpha c = true ∧ Str.all urllib.scheme_char scheme = true
      ∧ Str.lower scheme = scheme
  end.

(** A path that is empty or starts with a slash. *)
Definition rooted (path : string) : Prop :=
  match path with EmptyString => True | String c _ => c = "/"%char end.

(** A path as [urlsplit] returns it after a network location. *)
Definition path_ok (path : string) : Prop :=
  rooted path ∧ Str.all safe path = true
  ∧ Str.has "#"%char path = false ∧ Str.has "?"%char path = false.

(** The text in front of the network location. *)
Definition scheme_prefix (scheme : string) : string :=
  if Str.nonempty scheme then scheme +:+ ":" else "".

(** The path as [urlunparse] rebuilds it. *)
Definition joined_path (p : urllib.ParseResult) : string :=
  if Str.nonempty (urllib.params p)
  then urllib.path p +:+ ";" +:+ urllib.params p else urllib.path p.

(** The URL [urlunsplit] builds from a scheme, a network location and a
    path, without query and fragment. *)
Definition rebuilt (scheme netloc path : string) : string :=
  scheme_prefix scheme +:+ String "/"%char (String "/"%char (netloc +:+ path)).

(** ** A small web, for the examples *)

(** The hosts of the examples are plain ASCII names: the library's further
    validation does not apply to them. *)
Definition plain_netloc (_ : string) : bool := true.

(** The links of the examples are absolute. *)
Definition absolute_href (_ href : string) : option string := Some href.

(** The texts of the examples are ASCII: the Unicode tables are not
    consulted. *)
Definition ascii_text : Unicode := {| unicode_lower := Str.lower |}.

Section Small_web.

Local Existing Instance ascii_text.

Definition anchor (href : string) : Tag := mkTag "a" [] [("href", href)] "link".

Definition ex_home : BeautifulSoup :=
  mkSoup (Some "Home")
    [anchor "http://ex.com/shop/?page=1"; anchor "http://ex.com/product/1#top";
     anchor "http://other.org/x"; anchor "http://ex.com/about"].

Definition ex_shop : BeautifulSoup :=
  mkSoup (Some "Shop")
    [mkTag "ul" ["products"] [] ""; anchor "http://ex.com/";
     anchor "http://ex.com/product/1"].

Definition ex_item : BeautifulSoup :=
  mkSoup (Some "Item")
    [mkTag "div" ["woocommerce-product-gallery"] [] "";
     anchor "http://ex.com/shop"].

Definition ex_world : world := fun url =>
  if String.eqb url "http://ex.com" then mkAnswer true (Some (200%Z, ex_home)) true
  else if String.eqb url "http://ex.com/shop" then mkAnswer true (Some (200%Z, ex_shop)) true
  else if String.eqb url "http://ex.com/product/1" then mkAnswer true (Some (200%Z, ex_item)) true
  else if String.eqb url "http://ex.com/about" then mkAnswer true (Some (404%Z, mkSoup None [])) true
  else mkAnswer true None true.

Definition ex_crawl (fuel : nat) (max_pages : option Z) :=
  scrape_website plain_netloc absolute_href fuel max_pages ex_world
    (__init__ "http://ex.com/").

Definition ex_base : string := "http://ex.com/".

Definition ex_scrape (url : string) (s : WebsiteScraper) : WebsiteScraper :=
  (scrape_page plain_netloc absolute_href (ex_world url) url s).2.

(** The scraper after the home page, then after the shop page. *)
Definition ex_s1 : WebsiteScraper := ex_scrape "http://ex.com" (__init__ ex_base).
Definition ex_s2 : WebsiteScraper := ex_scrape "http://ex.com/shop" ex_s1.

(** The scraper at the end of the crawl of the small web. *)
Definition ex_final : WebsiteScraper :=
  self_ (final_state (ex_crawl 10 None)).

End Small_web.

(** ** Invariants of the crawl state *)

(** The three page sets partition the keys of the hierarchy. *)
Definition type_partition (s : WebsiteScraper) : Prop :=
  product_pages s ∪ category_pages s ∪ content_pages s = dom (page_hierarchy s)
  ∧ product_pages s ## category_pages s
  ∧ product_pages s ## content_pages s
  ∧ category_pages s ## content_pages s.

(** Every key of the hierarchy is visited. *)
Definition hierarchy_visited (s : WebsiteScraper) : Prop :=
  dom (page_hierarchy s) ⊆ visited_urls s.

(** Every recorded child is a key of the hierarchy. *)
Definition children_in (h : gmap string HierarchyNode) : Prop :=
  ∀ k node t, h !! k = Some node → t ∈ children node → t ∈ dom h.

Definition children_known (s : WebsiteScraper) : Prop :=
  children_in (page_hierarchy s).

Definition crawl_inv (s : WebsiteScraper) : Prop :=
  hierarchy_visited s ∧ type_partition s ∧ children_known s.

(** The bucket of [page_listings.json] a URL is listed in. *)
Definition buckets (out : list string * list string * list string)
    (url : string) : list string :=
  let '(products, categories, content) := out in
  (if bool_decide (url ∈ products) then ["products"] else []) ++
  (if bool_decide (url ∈ categories) then ["categories"] else []) ++
  (if bool_decide (url ∈ content) then ["content"] else []).

(** ** The command line, and notions for the properties of a whole crawl *)

(** [validate_url] of [example.py] *)
Definition validate_url (url : string) : bool :=
  Str.startswith "http://" url || Str.startswith "https://" url.

(** A node is kept as it was created, but for the children appended. *)
Definition node_grows (n n' : HierarchyNode) : Prop :=
  n_path n' = n_path n ∧ n_title n' = n_title n ∧ n_type n' = n_type n
  ∧ ∃ more, children n' = children n ++ more.

(** Nothing is taken back: the seed is fixed, the sets only grow, and
    every node stays, growing. *)
Definition scraper_grows (s s' : WebsiteScraper) : Prop :=
  base_url s' = base_url s
  ∧ visited_urls s ⊆ visited_urls s'
  ∧ product_pages s ⊆ product_pages s'
  ∧ category_pages s ⊆ category_pages s'
  ∧ content_pages s ⊆ content_pages s'
  ∧ ∀ k n, page_hierarchy s !! k = Some n →
           ∃ n', page_hierarchy s' !! k = Some n' ∧ node_grows n n'.

(** The set a page is listed in is the one its node's type names. *)
Definition listed_by_type (s : WebsiteScraper) : Prop :=
  ∀ k n, page_hierarchy s !! k = Some n →
    (n_type n = "product" ∧ k ∈ product_pages s)
    ∨ (n_type n = "category" ∧ k ∈ category_pages s)
    ∨ (n_type n = "content" ∧ k ∈ content_pages s).

(** A finite site: a list of URLs that holds every link of its pages. *)
Definition links_within (netloc_check : string -> bool)
    (urljoin : string -> string -> option string)
    (w : world) (self : WebsiteScraper) (site : list string) : Prop :=
  ∀ url code soup link_data,
    url ∈ site → response (w url) = Some (code, soup) →
    find_links netloc_check urljoin self url (find_all soup "a")
      = Some link_data →
    ∀ l, l ∈ link_data → l_url l ∈ site.

(** The number of anchors of the page at [url]. *)
Definition anchors_at (w : world) (url : string) : nat :=
  match response (w url) with
  | Some (_, soup) => length (find_all soup "a")
  | None => 0
  end.

(** The largest number of anchors of a page of the site. *)
Definition max_anchors (w : world) (site : list string) : nat :=
  foldr Nat.max 0 (anchors_at w <$> site).

(** The normal forms of the URLs of the site. *)
Definition normal_forms (netloc_check : string -> bool) (site : list string)
  : gset string :=
  list_to_set (omap (clean_url netloc_check) site).

(** The node of the page [c], when there is one, has no child but [c],
    and when there is none, [scrape_page] will not request [c]. *)
Definition seed_settled (netloc_check : string -> bool) (c : string)
    (s : WebsiteScraper) : Prop :=
  (∀ n t, page_hierarchy s !! c = Some n → t ∈ children n → t = c)
  ∧ (page_hierarchy s !! c = None →
     c ∈ visited_urls s ∨ is_valid_url netloc_check s c ≠ Some true).

(** What is left to do on a finite site: the length of the frontier, and
    for each normal form not visited yet one request and the links it may
    add. *)
Definition potential (netloc_check : string -> bool) (w : world)
    (site : list string) (ls : loop_state) : nat :=
  length (to_visit ls)
  + (max_anchors w site + 1)
    * size (normal_forms netloc_check site ∖ visited_urls (self_ ls)).

(** The small web with a home page that links to itself. *)
Definition ex_home_self : BeautifulSoup :=
  mkSoup (Some "Home") [anchor "http://ex.com/"; anchor "http://ex.com/shop"].

Definition ex_world_self : world := fun url =>
  if String.eqb url "http://ex.com"
  then mkAnswer true (Some (200%Z, ex_home_self)) true
  else ex_world url.

(** What scraping the home page of the small web returns. *)
Definition ex_home_links : list string :=
  ["http://ex.com/shop"; "http://ex.com/product/1"; "http://ex.com/about"].

Definition ex_home_record : PageRecord :=
  mkPage "http://ex.com" "http://ex.com" "home" "content" (Some "Home")
    ((λ u, mkLink u "link" "") <$> ex_home_links).


(** The pages of the small web. *)
Definition ex_site : list string :=
  ["http://ex.com"; "http://ex.com/shop"; "http://ex.com/product/1";
   "http://ex.com/about"].

(** * Properties *)

(** ** Facts about strings *)

Module StrFacts.

Lemma app_cons c (s t : string) : String c s +:+ t = String c (s +:+ t).
Proof. reflexivity. Qed.

Lemma app_nil_l (s : string) : "" +:+ s = s.
Proof. reflexivity. Qed.

Lemma app_nil_r (s : string) : s +:+ "" = s.
Proof. induction s as [|c s IH]; [done|]. by rewrite app_cons, IH. Qed.

Lemma app_assoc (a b c : string) : (a +:+ b) +:+ c = a +:+ b +:+ c.
Proof.
  induction a as [|x a IH]; [done|]. by rewrite !app_cons, IH.
Qed.

Lemma app_eq_nil (a b : string) : a +:+ b = "" → a = "" ∧ b = "".
Proof.
  destruct a; [rewrite app_nil_l; by intros ->|by rewrite app_cons].
Qed.

Lemma all_app p (a b : string) :
  Str.all p (a +:+ b) = Str.all p a && Str.all p b.
Proof.
  induction a as [|x a IH]; [done|].
  rewrite app_cons. simpl. by rewrite IH, andb_assoc.
Qed.

Lemma all_impl (p q : ascii → bool) s :
  (∀ c, p c = true → q c = true) → Str.all p s = true → Str.all q s = true.
Proof.
  intros Hpq. induction s as [|c s IH]; [done|]. simpl.
  intros [Hc Hs]%andb_true_iff. by rewrite (Hpq _ Hc), IH.
Qed.

Lemma has_app c (a b : string) :
  Str.has c (a +:+ b) = Str.has c a || Str.has c b.
Proof.
  induction a as [|x a IH]; [done|].
  rewrite app_cons. simpl. by rewrite IH, orb_assoc.
Qed.

(** [c not in s], as a fact about every character of [s]. *)
Lemma has_false_all c s :
  Str.has c s = false ↔ Str.all (fun d => negb (Ascii.eqb d c)) s = true.
Proof.
  induction s as [|d s IH]; [done|]. simpl.
  rewrite orb_false_iff, andb_true_iff, negb_true_iff. by rewrite IH.
Qed.

Lemma all_has p c s :
  Str.all p s = true → p c = false → Str.has c s = false.
Proof.
  intros Hs Hc. apply has_false_all. revert Hs. apply all_impl.
  intros d Hd. apply negb_true_iff, Ascii.eqb_neq. intros ->. congruence.
Qed.

Lemma partition_spec c s a b :
  Str.partition c s = Some (a, b) → s = a +:+ String c b ∧ Str.has c a = false.
Proof.
  revert a. induction s as [|d s IH]; intros a H; simpl in H; [done|].
  destruct (Ascii.eqb d c) eqn:E.
  - apply Ascii.eqb_eq in E. by simplify_eq.
  - destruct (Str.partition c s) as [[a' b']|]; [|done]. simplify_eq.
    destruct (IH a' eq_refl) as [-> Ha]. simpl. by rewrite E.
Qed.

Lemma partition_none c s : Str.partition c s = None ↔ Str.has c s = false.
Proof.
  induction s as [|d s IH]; [done|]. simpl.
  destruct (Ascii.eqb d c); simpl; [done|].
  destruct (Str.partition c s) as [[a b]|]; [|done].
  split; [done|]. intros H. by apply IH in H.
Qed.

Lemma partition_app c a b :
  Str.has c a = false → Str.partition c (a +:+ String c b) = Some (a, b).
Proof.
  induction a as [|d a IH]; intros H.
  - simpl. by rewrite Ascii.eqb_refl.
  - simpl in H. apply orb_false_iff in H as [Hd Ha].
    rewrite app_cons. simpl. by rewrite Hd, (IH Ha).
Qed.

Lemma cut_spec c s a b :
  urllib.cut c s = (a, b) →
  Str.has c a = false ∧ (s = a ∨ s = a +:+ String c b).
Proof.
  unfold urllib.cut. destruct (Str.partition c s) as [[a' b']|] eqn:E.
  - intros ?; simplify_eq. apply partition_spec in E as [-> H]. auto.
  - intros ?; simplify_eq. apply partition_none in E. auto.
Qed.

Lemma cut_absent c s : Str.has c s = false → urllib.cut c s = (s, "").
Proof. intros H. unfold urllib.cut. by apply partition_none in H as ->. Qed.

Lemma span_spec p s a b :
  Str.span p s = (a, b) → s = a +:+ b ∧ Str.all p a = true ∧ stops p b.
Proof.
  revert a. induction s as [|c s IH]; intros a H; simpl in H.
  - by simplify_eq.
  - destruct (p c) eqn:E.
    + destruct (Str.span p s) as [a' b']. simplify_eq.
      destruct (IH a' eq_refl) as (-> & Ha & Hb). simpl. by rewrite E, Ha.
    + simplify_eq. simpl. by rewrite E.
Qed.

Lemma span_app p a b :
  Str.all p a = true → stops p b → Str.span p (a +:+ b) = (a, b).
Proof.
  induction a as [|c a IH]; intros Ha Hb.
  - rewrite app_nil_l. destruct b as [|d b]; [done|]. simpl in *. by rewrite Hb.
  - simpl in Ha. apply andb_true_iff in Ha as [Hc Ha].
    rewrite app_cons. simpl. by rewrite Hc, (IH Ha Hb).
Qed.

Lemma lstrip_stops p s : stops p s → Str.lstrip p s = s.
Proof. destruct s; [done|]. simpl. by intros ->. Qed.

Lemma remove_none p s :
  Str.all (fun c => negb (p c)) s = true → Str.remove p s = s.
Proof.
  induction s as [|c s IH]; [done|]. simpl.
  intros [Hc Hs]%andb_true_iff. apply negb_true_iff in Hc. by rewrite Hc, IH.
Qed.

Lemma remove_all p s : Str.all (fun c => negb (p c)) (Str.remove p s) = true.
Proof.
  induction s as [|c s IH]; [done|]. simpl.
  destruct (p c) eqn:E; [done|]. simpl. by rewrite E.
Qed.

(** ** [rstrip] *)

Lemma rstrip_nil p s : Str.rstrip p s = "" ↔ Str.all p s = true.
Proof.
  induction s as [|c s IH]; [done|]. simpl.
  destruct (Str.rstrip p s) eqn:E.
  - destruct (p c); simpl; [by rewrite <- IH|done].
  - split; [done|]. intros [_ H]%andb_true_iff. by apply IH in H.
Qed.

Lemma rstrip_cons p c s :
  Str.rstrip p (String c s) =
  if Str.all p (String c s) then "" else String c (Str.rstrip p s).
Proof.
  simpl. destruct (Str.rstrip p s) eqn:E.
  - apply rstrip_nil in E. rewrite E, andb_true_r. by destruct (p c).
  - destruct (Str.all p s) eqn:Ha.
    + apply rstrip_nil in Ha. congruence.
    + by rewrite andb_false_r.
Qed.

(** What [rstrip] returns: the text without a tail of stripped
    characters, and ending in none. *)
Lemma rstrip_spec p s :
  ∃ t, s = Str.rstrip p s +:+ t ∧ Str.all p t = true.
Proof.
  induction s as [|c s (t & IH & Ht)].
  - by exists "".
  - rewrite rstrip_cons. destruct (Str.all p (String c s)) eqn:E.
    + by exists (String c s).
    + exists t. by rewrite app_cons, <- IH.
Qed.

Lemma rstrip_app p (a b : string) :
  Str.all p b = false → Str.rstrip p (a +:+ b) = a +:+ Str.rstrip p b.
Proof.
  intros Hb. induction a as [|c a IH]; [done|].
  rewrite !app_cons, rstrip_cons, IH. simpl.
  by rewrite all_app, Hb, andb_false_r, andb_false_r.
Qed.

Lemma rstrip_app_all p (a b : string) :
  Str.all p b = true → Str.rstrip p (a +:+ b) = Str.rstrip p a.
Proof.
  intros Hb. induction a as [|c a IH].
  - rewrite app_nil_l. by apply rstrip_nil.
  - rewrite app_cons, !rstrip_cons, IH. simpl.
    by rewrite all_app, Hb, andb_true_r.
Qed.

Lemma rstrip_idemp p s : Str.rstrip p (Str.rstrip p s) = Str.rstrip p s.
Proof.
  destruct (rstrip_spec p s) as (t & Hs & Ht).
  rewrite Hs at 2. by rewrite rstrip_app_all.
Qed.

Lemma endswith_app c (a : string) d :
  Str.endswith c (a +:+ String d "") = Ascii.eqb d c.
Proof.
  induction a as [|x a IH]; [done|]. rewrite app_cons. simpl.
  destruct (a +:+ String d "") eqn:E; [|done].
  by apply app_eq_nil in E as [_ ?].
Qed.

Lemma rstrip_endswith c s :
  Str.endswith c (Str.rstrip (fun d => Ascii.eqb d c) s) = false.
Proof.
  induction s as [|d s IH]; [done|]. rewrite rstrip_cons.
  destruct (Str.all _ (String d s)) eqn:E; [done|].
  simpl in *. destruct (Str.rstrip _ s) eqn:Er; [|done].
  apply rstrip_nil in Er. rewrite Er, andb_true_r in E. done.
Qed.

End StrFacts.

(** ** Facts about characters *)

Module CharFacts.

(** A scheme character is none of the characters the parser looks for. *)
Lemma scheme_char_plain c :
  urllib.scheme_char c = true →
  nondelim c = true ∧ safe c = true ∧ urllib.C0_CONTROL_OR_SPACE c = false
  ∧ Ascii.eqb c ":"%char = false ∧ slash c = false.
Proof.
  ascii_cases c; vm_compute; intros H; try discriminate H; repeat split.
Qed.

Lemma lower_char_idemp c : Str.lower_char (Str.lower_char c) = Str.lower_char c.
Proof. ascii_cases c; reflexivity. Qed.

Lemma lower_char_scheme c :
  urllib.scheme_char c = true → urllib.scheme_char (Str.lower_char c) = true.
Proof. ascii_cases c; vm_compute; intros H; try discriminate H; reflexivity. Qed.

Lemma lower_char_alpha c :
  Str.is_alpha c = true → Str.is_alpha (Str.lower_char c) = true.
Proof. ascii_cases c; vm_compute; intros H; try discriminate H; reflexivity. Qed.

Lemma alpha_scheme_char c : Str.is_alpha c = true → urllib.scheme_char c = true.
Proof. unfold urllib.scheme_char. by intros ->. Qed.


Lemma slash_nondelim c : nondelim c = true → slash c = false.
Proof. ascii_cases c; vm_compute; intros H; try discriminate H; reflexivity. Qed.

End CharFacts.

(** ** Facts about [urllib.parse] *)

Module UrlFacts.
Import StrFacts CharFacts.
Local Arguments Ascii.eqb : simpl never.

Lemma lower_idemp s : Str.lower (Str.lower s) = Str.lower s.
Proof.
  induction s as [|c s IH]; [done|].
  unfold Str.lower in *. simpl. by rewrite lower_char_idemp, IH.
Qed.

Lemma lower_scheme s :
  Str.all urllib.scheme_char s = true →
  Str.all urllib.scheme_char (Str.lower s) = true.
Proof.
  unfold Str.lower. induction s as [|c s IH]; [done|]. simpl.
  intros [Hc Hs]%andb_true_iff. by rewrite lower_char_scheme, IH.
Qed.

Lemma split_scheme_spec url scheme rest :
  urllib.split_scheme url = (scheme, rest) →
  scheme_ok scheme ∧ ∃ front, url = front +:+ rest.
Proof.
  unfold urllib.split_scheme.
  destruct (Str.partition ":"%char url) as [[[|c0 r0] rest']|] eqn:E;
    try (intros ?; simplify_eq; split; [done|by exists ""]).
  destruct (Str.is_alpha c0 && Str.all urllib.scheme_char (String c0 r0)) eqn:Hc;
    intros ?; simplify_eq; [|split; [done|by exists ""]].
  apply andb_true_iff in Hc as [Ha Hs]. split.
  - simpl. split; [by apply lower_char_alpha|]. split.
    + by apply (lower_scheme (String c0 r0)).
    + apply (lower_idemp (String c0 r0)).
  - apply partition_spec in E as [-> _].
    exists (String c0 r0 +:+ ":"). by rewrite app_assoc.
Qed.

Lemma split_scheme_rebuild scheme rest :
  scheme_ok scheme → scheme ≠ "" →
  urllib.split_scheme (scheme +:+ ":" +:+ rest) = (scheme, rest).
Proof.
  destruct scheme as [|c s]; [done|]. intros (Ha & Hs & Hl) _.
  unfold urllib.split_scheme.
  change (":" +:+ rest) with (String ":"%char rest).
  rewrite (partition_app ":"%char (String c s) rest).
  - by rewrite Ha, Hs, Hl.
  - eapply all_has; [exact Hs|].
    destruct (urllib.scheme_char ":"%char) eqn:E; [|done].
    by apply scheme_char_plain in E as (_ & _ & _ & E & _).
Qed.

Lemma split_scheme_slash rest :
  urllib.split_scheme (String "/"%char rest) = ("", String "/"%char rest).
Proof.
  unfold urllib.split_scheme.
  destruct (Str.partition _ _) as [[[|c0 r0] rest']|] eqn:E; try done.
  simpl in E. destruct (Str.partition _ rest) as [[a b]|]; by simplify_eq.
Qed.

Lemma splitparams_spec url p q :
  urllib._splitparams url = (p, q) →
  (p = url ∧ q = "") ∨ url = p +:+ String ";"%char q.
Proof.
  unfold urllib._splitparams.
  assert (Hseg : ∀ u dir seg, urllib.last_segment u = (dir, seg) → u = dir +:+ seg).
  { induction u as [|c u IH]; intros dir seg H; simpl in H; [by simplify_eq|].
    destruct (urllib.last_segment u) as [[|d dir'] seg'].
    - rewrite (IH _ _ eq_refl), app_nil_l.
      destruct (Ascii.eqb c "/"%char); by simplify_eq.
    - simplify_eq. by rewrite (IH _ _ eq_refl). }
  destruct (urllib.last_segment url) as [dir seg] eqn:E.
  apply Hseg in E as ->.
  destruct (Str.partition ";"%char seg) as [[a b]|] eqn:Ep;
    intros ?; simplify_eq; [|by left].
  right. apply partition_spec in Ep as [-> _]. by rewrite app_assoc.
Qed.

(** The path [urlunparse] rebuilds is the path [urlsplit] returned, up to
    a final semicolon that introduces no parameter. *)
Lemma urlparse_spec nc url p :
  urllib.urlparse nc url = Some p →
  ∃ r, urllib.urlsplit nc url = Some r
    ∧ urllib.scheme p = urllib.s_scheme r ∧ urllib.netloc p = urllib.s_netloc r
    ∧ urllib.query p = urllib.s_query r
    ∧ urllib.fragment p = urllib.s_fragment r
    ∧ (joined_path p = urllib.s_path r
       ∨ urllib.s_path r = joined_path p +:+ ";").
Proof.
  unfold urllib.urlparse.
  destruct (urllib.urlsplit nc url) as [[scheme netloc path query fragment]|];
    [|done].
  destruct (urllib.mem scheme urllib.uses_params && Str.has ";"%char path).
  - destruct (urllib._splitparams path) as [p' q'] eqn:E.
    intros ?; simplify_eq. eexists; repeat split; simpl.
    unfold joined_path. simpl.
    apply splitparams_spec in E as [[-> ->]| ->]; [by left|].
    destruct q'; simpl; [by right|by left].
  - intros ?; simplify_eq. eexists; repeat split; simpl. by left.
Qed.

Lemma rooted_rstrip path : rooted path → rooted (Str.rstrip slash path).
Proof.
  destruct path as [|c path]; [done|]. rewrite rstrip_cons.
  by destruct (Str.all slash (String c path)).
Qed.

Lemma path_ok_rstrip path : path_ok path → path_ok (Str.rstrip slash path).
Proof.
  intros (Hr & Hs & Hf & Hq).
  destruct (rstrip_spec slash path) as (t & Ht & _).
  split; [by apply rooted_rstrip|].
  revert Ht Hs Hf Hq. generalize (Str.rstrip slash path). intros r ->.
  rewrite all_app, !has_app.
  intros [Hs _]%andb_true_iff [Hf _]%orb_false_iff [Hq _]%orb_false_iff.
  done.
Qed.

Lemma urlunsplit_netloc scheme netloc path :
  netloc ≠ "" → rooted path →
  urllib.urlunsplit (urllib.mkSplit scheme netloc path "" "")
  = rebuilt scheme netloc path.
Proof.
  intros Hn Hr. unfold rebuilt, scheme_prefix.
  destruct netloc as [|n netloc]; [done|].
  destruct path as [|c path]; [|simpl in Hr; subst c];
    (destruct scheme as [|a scheme];
     [reflexivity|cbn [Str.nonempty]; rewrite app_assoc; reflexivity]).
Qed.

(** The components of a URL that has a network location. *)
Lemma urlsplit_netloc_spec nc url r :
  urllib.urlsplit nc url = Some r → urllib.s_netloc r ≠ "" →
  scheme_ok (urllib.s_scheme r)
  ∧ Str.all nondelim (urllib.s_netloc r) = true
  ∧ Str.all safe (urllib.s_netloc r) = true
  ∧ urllib.netloc_valid nc (urllib.s_netloc r) = true
  ∧ path_ok (urllib.s_path r).
Proof.
  unfold urllib.urlsplit.
  pose proof (remove_all urllib.UNSAFE_URL_BYTE
                (Str.lstrip urllib.C0_CONTROL_OR_SPACE url)) as Hsafe.
  revert Hsafe. generalize (Str.remove urllib.UNSAFE_URL_BYTE
                (Str.lstrip urllib.C0_CONTROL_OR_SPACE url)). intros url1 Hsafe.
  destruct (urllib.split_scheme url1) as [scheme url2] eqn:Es.
  apply split_scheme_spec in Es as [Hscheme [front ->]].
  rewrite all_app in Hsafe. apply andb_true_iff in Hsafe as [_ Hsafe].
  destruct (Str.startswith "//" url2) eqn:Est.
  2:{ destruct (urllib.netloc_valid nc ""); [|done].
      destruct (urllib.cut "#"%char url2) as [u4 f].
      destruct (urllib.cut "?"%char u4) as [u5 q].
      intros ?; simplify_eq. done. }
  destruct url2 as [|a [|b r2]];
    [done|simpl in Est; by rewrite andb_false_r in Est|].
  unfold urllib._splitnetloc.
  destruct (Str.span _ r2) as [netloc url3] eqn:Esp.
  apply span_spec in Esp as (-> & Hnd & Hstop).
  destruct (urllib.netloc_valid nc netloc) eqn:Hv; [|done].
  destruct (urllib.cut "#"%char url3) as [url4 fragment] eqn:Ef.
  destruct (urllib.cut "?"%char url4) as [path query] eqn:Eq.
  intros ? Hne; simplify_eq. simpl in *.
  apply andb_true_iff in Hsafe as [_ Hsafe].
  apply andb_true_iff in Hsafe as [_ Hsafe].
  rewrite all_app in Hsafe. apply andb_true_iff in Hsafe as [Hsn Hs3].
  apply cut_spec in Ef as [Hf Ef]. apply cut_spec in Eq as [Hq Eq].
  assert (∃ tail, url3 = path +:+ tail) as [tail ->].
  { destruct Ef as [->| ->], Eq as [->| ->]; rewrite ?app_assoc; eauto.
    exists "". by rewrite app_nil_r. }
  assert (Hfp : Str.has "#"%char path = false).
  { destruct Eq as [->| ->]; [done|].
    rewrite has_app in Hf. by apply orb_false_iff in Hf as [? _]. }
  rewrite all_app in Hs3. apply andb_true_iff in Hs3 as [Hsp _].
  repeat split; try done.
  destruct path as [|c path]; [done|]. simpl in *.
  apply orb_false_iff in Hfp as [Hc1 _]. apply orb_false_iff in Hq as [Hc2 _].
  unfold nondelim, urllib.netloc_delim in Hstop.
  rewrite Hc1, Hc2, !orb_false_r in Hstop.
  apply negb_false_iff in Hstop. by apply Ascii.eqb_eq.
Qed.

(** Parsing a rebuilt URL gives back the components it was built from. *)
Lemma urlsplit_rebuilt nc scheme netloc path :
  scheme_ok scheme → netloc ≠ "" →
  Str.all nondelim netloc = true → Str.all safe netloc = true →
  urllib.netloc_valid nc netloc = true → path_ok path →
  urllib.urlsplit nc (rebuilt scheme netloc path)
  = Some (urllib.mkSplit scheme netloc path "" "").
Proof.
  intros Hscheme Hne Hnd Hsn Hv (Hr & Hsp & Hf & Hq).
  assert (Hstop : stops nondelim path).
  { destruct path as [|c path]; [done|]. simpl in *. by subst c. }
  assert (Hsplit : urllib.split_scheme (rebuilt scheme netloc path)
                   = (scheme, String "/"%char (String "/"%char (netloc +:+ path)))).
  { unfold rebuilt, scheme_prefix. destruct scheme as [|c s].
    - apply split_scheme_slash.
    - simpl Str.nonempty. cbv iota. rewrite app_assoc.
      by apply split_scheme_rebuild. }
  assert (Hsafe : Str.all safe (rebuilt scheme netloc path) = true).
  { unfold rebuilt, scheme_prefix. rewrite all_app. simpl.
    rewrite all_app, Hsn, Hsp. simpl.
    destruct scheme as [|c s]; [done|]. simpl Str.nonempty. cbv iota.
    rewrite all_app. destruct Hscheme as (_ & Hs & _).
    rewrite (all_impl _ safe _ (fun c H => proj1 (proj2 (scheme_char_plain c H))) Hs).
    done. }
  assert (Hhead : stops urllib.C0_CONTROL_OR_SPACE (rebuilt scheme netloc path)).
  { unfold rebuilt, scheme_prefix. destruct scheme as [|c s]; [done|].
    simpl. destruct Hscheme as (Ha & _).
    apply alpha_scheme_char in Ha. by apply scheme_char_plain in Ha as (_&_&?&_). }
  unfold urllib.urlsplit.
  rewrite (lstrip_stops _ _ Hhead), (remove_none _ _ Hsafe), Hsplit.
  change (Str.startswith "//" (String "/"%char (String "/"%char (netloc +:+ path))))
    with true.
  cbv iota. unfold urllib._splitnetloc.
  change (fun c => negb (urllib.netloc_delim c)) with nondelim.
  rewrite (span_app _ _ _ Hnd Hstop), Hv.
  by rewrite (cut_absent _ _ Hf), (cut_absent _ _ Hq).
Qed.

(** [rstrip] keeps the network location of a rebuilt URL. *)
Lemma rstrip_rebuilt scheme netloc path :
  netloc ≠ "" → Str.all nondelim netloc = true →
  Str.rstrip slash (rebuilt scheme netloc path)
  = rebuilt scheme netloc (Str.rstrip slash path).
Proof.
  intros Hne Hnd. unfold rebuilt.
  assert (Hkeep : ∀ a b : string, a ≠ "" → Str.all nondelim a = true →
            Str.rstrip slash (a +:+ b) = a +:+ Str.rstrip slash b).
  { induction a as [|c a IH]; intros b Ha Hall; [done|].
    simpl in Hall. apply andb_true_iff in Hall as [Hc Hall].
    apply slash_nondelim in Hc.
    rewrite !app_cons, rstrip_cons. simpl. rewrite Hc. simpl.
    destruct a as [|d a]; [by rewrite !app_nil_l|].
    by rewrite IH. }
  assert (Hn : Str.all slash (netloc +:+ path) = false).
  { destruct netloc as [|c n]; [done|]. rewrite app_cons. simpl in *.
    apply andb_true_iff in Hnd as [Hc _]. apply slash_nondelim in Hc.
    by rewrite Hc. }
  assert (Hn2 : ∀ x, Str.all slash x = false →
            Str.all slash (String "/"%char x) = false).
  { intros x Hx. simpl. rewrite Hx. by rewrite ?andb_false_r. }
  rewrite rstrip_app by auto.
  rewrite rstrip_cons, Hn2 by auto. rewrite rstrip_cons, Hn2 by auto.
  by rewrite Hkeep.
Qed.

End UrlFacts.

(** ** URL normalisation *)

Section Normalisation.
Import StrFacts CharFacts UrlFacts.
Local Arguments Ascii.eqb : simpl never.

Variable netloc_check : string -> bool.

Abbreviation urlparse' := (urllib.urlparse netloc_check).
Abbreviation clean' := (clean_url netloc_check).

Lemma path_ok_front (a b : string) : path_ok (a +:+ b) → path_ok a.
Proof.
  intros (Hr & Hs & Hf & Hq).
  rewrite all_app in Hs. rewrite has_app in Hf, Hq.
  apply andb_true_iff in Hs as [Hs _].
  apply orb_false_iff in Hf as [Hf _]. apply orb_false_iff in Hq as [Hq _].
  repeat split; try done. by destruct a.
Qed.

Lemma geturl_netloc p :
  urllib.netloc p ≠ "" → rooted (joined_path p) →
  urllib.geturl (urllib._replace p "" "")
  = rebuilt (urllib.scheme p) (urllib.netloc p) (joined_path p).
Proof.
  intros Hn Hr. unfold urllib.geturl, urllib.urlunparse, urllib._replace.
  cbn [urllib.scheme urllib.netloc urllib.path urllib.params urllib.query
       urllib.fragment].
  by rewrite <- urlunsplit_netloc.
Qed.

Lemma urlparse_some url r :
  urllib.urlsplit netloc_check url = Some r → ∃ p, urlparse' url = Some p.
Proof.
  intros H. unfold urllib.urlparse. rewrite H. destruct r.
  destruct (_ && _); [destruct (urllib._splitparams _)|]; eauto.
Qed.

Lemma rebuilt_endswith scheme netloc path c :
  Str.endswith c (rebuilt scheme netloc (path +:+ String c "")) = true.
Proof.
  unfold rebuilt.
  change (String "/"%char (String "/"%char (netloc +:+ path +:+ String c "")))
    with ("//" +:+ netloc +:+ path +:+ String c "").
  rewrite <- !app_assoc. rewrite endswith_app. apply Ascii.eqb_refl.
Qed.

(** What [clean_url] returns for a URL with a network location. *)
Lemma clean_url_netloc url p :
  urlparse' url = Some p → urllib.netloc p ≠ "" →
  ∃ path, clean' url = Some (rebuilt (urllib.scheme p) (urllib.netloc p) path)
    ∧ rebuilt (urllib.scheme p) (urllib.netloc p) path
      = Str.rstrip slash (rebuilt (urllib.scheme p) (urllib.netloc p) path)
    ∧ urllib.urlsplit netloc_check
        (rebuilt (urllib.scheme p) (urllib.netloc p) path)
      = Some (urllib.mkSplit (urllib.scheme p) (urllib.netloc p) path "" "")
    ∧ path_ok path.
Proof.
  intros Hp Hn. unfold clean_url. rewrite Hp. simpl.
  apply urlparse_spec in Hp as (r & Hsplit & Hs & Hnl & _ & _ & Hj).
  rewrite Hnl in Hn.
  destruct (urlsplit_netloc_spec _ _ _ Hsplit Hn) as (Hso & Hnd & Hsn & Hv & Hpo).
  assert (Hjo : path_ok (joined_path p)).
  { destruct Hj as [->|Hj]; [done|]. rewrite Hj in Hpo.
    by apply path_ok_front in Hpo. }
  rewrite geturl_netloc; [|by rewrite Hnl|apply Hjo].
  rewrite Hs, Hnl. rewrite rstrip_rebuilt by done.
  exists (Str.rstrip slash (joined_path p)).
  split; [done|]. split.
  - rewrite rstrip_rebuilt by done. by rewrite rstrip_idemp.
  - split; [|by apply path_ok_rstrip].
    apply urlsplit_rebuilt; try done. by apply path_ok_rstrip.
Qed.

(** C3, amended. Normalisation is idempotent on the URLs a crawl meets:
    when the URL has a network location and its normal form does not end
    in a semicolon, normalising the normal form returns it unchanged. *)
Theorem clean_url_idempotent_with_netloc url parsed c :
  urllib.urlparse netloc_check url = Some parsed → urllib.netloc parsed ≠ "" →
  clean_url netloc_check url = Some c → Str.endswith ";"%char c = false →
  clean_url netloc_check c = Some c.
Proof.
  intros Hp Hn Hc Hsemi.
  destruct (clean_url_netloc _ _ Hp Hn) as (path & Hc' & Hfix & Hsplit & Hpo).
  rewrite Hc in Hc'. injection Hc' as ->.
  destruct (urlparse_some _ _ Hsplit) as [p2 Hp2].
  unfold clean_url. rewrite Hp2. simpl. f_equal.
  apply urlparse_spec in Hp2 as (r & Hsplit2 & Hs & Hnl & _ & _ & Hj).
  rewrite Hsplit in Hsplit2. injection Hsplit2 as <-. simpl in *.
  destruct Hj as [Hj|Hj].
  - rewrite geturl_netloc; [|by rewrite Hnl|rewrite Hj; apply Hpo].
    by rewrite Hs, Hnl, Hj, <- Hfix.
  - rewrite Hj in Hsemi. by rewrite rebuilt_endswith in Hsemi.
Qed.

(** ** The trailing slashes *)

Lemma strip_one_cons c d r :
  strip_one_trailing_slash (String c (String d r))
  = String c (strip_one_trailing_slash (String d r)).
Proof. reflexivity. Qed.

Lemma strip_one_slash x : strip_one_trailing_slash (x +:+ "/") = x.
Proof.
  induction x as [|c x IH]; [done|]. rewrite app_cons.
  destruct (x +:+ "/") eqn:E; [by apply app_eq_nil in E as [_ ?]|].
  by rewrite strip_one_cons, IH.
Qed.

Lemma endswith_split c s :
  Str.endswith c s = true → ∃ x, s = x +:+ String c "".
Proof.
  induction s as [|d s IH]; [done|]. simpl. destruct s as [|e s].
  - intros ->%Ascii.eqb_eq. by exists "".
  - intros H. destruct (IH H) as [x ->]. by exists (String d x).
Qed.

Lemma strip_one_keep s :
  Str.endswith "/"%char s = false → strip_one_trailing_slash s = s.
Proof.
  induction s as [|c s IH]; [done|]. simpl. destruct s as [|d s].
  - unfold slash. by intros ->.
  - intros H. by rewrite IH.
Qed.

Lemma rstrip_keep_all s :
  Str.endswith "/"%char s = false → Str.rstrip slash s = s.
Proof.
  induction s as [|c s IH]; [done|]. intros H. rewrite rstrip_cons.
  destruct s as [|d s].
  - simpl in *. unfold slash. by rewrite H.
  - specialize (IH H). rewrite IH.
    destruct (Str.all slash (String c (String d s))) eqn:E; [|done].
    simpl in E. apply andb_true_iff in E as [_ E].
    apply (rstrip_nil slash (String d s)) in E. congruence.
Qed.

Lemma iter_strip_fixed n s :
  Str.endswith "/"%char s = false → Nat.iter n strip_one_trailing_slash s = s.
Proof.
  intros H. induction n as [|n IH]; [done|]. simpl.
  by rewrite IH, strip_one_keep.
Qed.

Lemma app_length (a b : string) :
  String.length (a +:+ b) = (String.length a + String.length b)%nat.
Proof. induction a as [|c a IH]; [done|]. rewrite app_cons. simpl. by rewrite IH. Qed.

(** Stripping one slash as often as the text is long is [rstrip]. *)
Lemma iter_strip_rstrip n : ∀ s,
  (String.length s ≤ n)%nat →
  Nat.iter n strip_one_trailing_slash s = Str.rstrip slash s.
Proof.
  induction n as [|n IH]; intros s Hlen.
  - destruct s; [done|]. simpl in Hlen. lia.
  - destruct (Str.endswith "/"%char s) eqn:E.
    + apply endswith_split in E as [x ->].
      rewrite Nat.iter_succ_r, strip_one_slash.
      rewrite app_length in Hlen. simpl in Hlen.
      rewrite IH by lia. by rewrite rstrip_app_all.
    + by rewrite iter_strip_fixed, rstrip_keep_all.
Qed.

Lemma rstrip_strip_trailing s :
  Str.rstrip slash s = strip_trailing_slashes s.
Proof. unfold strip_trailing_slashes. by rewrite iter_strip_rstrip. Qed.

Lemma geturl_unsplit p :
  urllib.geturl (urllib._replace p "" "")
  = urllib.urlunsplit
      (urllib.mkSplit (urllib.scheme p) (urllib.netloc p) (joined_path p) "" "").
Proof. reflexivity. Qed.

(** Neither the scheme, nor the network location, nor the path of a
    parsed URL holds a question mark or a hash. *)
Lemma urlsplit_plain url r ch :
  ch = "?"%char ∨ ch = "#"%char →
  urllib.urlsplit netloc_check url = Some r →
  Str.has ch (urllib.s_scheme r) = false
  ∧ Str.has ch (urllib.s_netloc r) = false
  ∧ Str.has ch (urllib.s_path r) = false.
Proof.
  intros Hch. unfold urllib.urlsplit.
  generalize (Str.remove urllib.UNSAFE_URL_BYTE
                (Str.lstrip urllib.C0_CONTROL_OR_SPACE url)). intros url1.
  destruct (urllib.split_scheme url1) as [scheme url2] eqn:Es.
  apply split_scheme_spec in Es as [Hscheme _].
  assert (Hs : Str.has ch scheme = false).
  { destruct scheme as [|c s]; [done|]. destruct Hscheme as (_ & Hall & _).
    eapply all_has; [exact Hall|]. by destruct Hch as [-> | ->]. }
  assert (Hcut : ∀ u netloc, Str.has ch netloc = false →
    (if urllib.netloc_valid netloc_check netloc
     then let '(u4, fragment) := urllib.cut "#"%char u in
          let '(u5, query) := urllib.cut "?"%char u4 in
          Some (urllib.mkSplit scheme netloc u5 query fragment)
     else None) = Some r →
    Str.has ch (urllib.s_scheme r) = false
    ∧ Str.has ch (urllib.s_netloc r) = false
    ∧ Str.has ch (urllib.s_path r) = false).
  { intros u netloc Hn. destruct (urllib.netloc_valid _ _); [|done].
    destruct (urllib.cut "#"%char u) as [u4 f] eqn:Ef.
    destruct (urllib.cut "?"%char u4) as [u5 q] eqn:Eq.
    intros ?; simplify_eq. simpl. repeat split; try done.
    apply cut_spec in Ef as [Hf _]. apply cut_spec in Eq as [Hq Eq].
    destruct Hch as [-> | ->]; [done|].
    destruct Eq as [->| ->]; [done|].
    rewrite has_app in Hf. by apply orb_false_iff in Hf as [? _]. }
  destruct (Str.startswith "//" url2); [|by apply Hcut].
  unfold urllib._splitnetloc. destruct url2 as [|a [|b r2]]; try by apply Hcut.
  destruct (Str.span _ r2) as [netloc url3] eqn:Esp.
  apply span_spec in Esp as (_ & Hnd & _). apply Hcut.
  eapply all_has; [exact Hnd|]. by destruct Hch as [-> | ->].
Qed.

Lemma urlunsplit_plain scheme netloc path ch :
  ch = "?"%char ∨ ch = "#"%char →
  Str.has ch scheme = false → Str.has ch netloc = false →
  Str.has ch path = false →
  Str.has ch (urllib.urlunsplit (urllib.mkSplit scheme netloc path "" "")) = false.
Proof.
  intros Hch Hs Hn Hp. unfold urllib.urlunsplit.
  cbn [urllib.s_scheme urllib.s_netloc urllib.s_path urllib.s_query
       urllib.s_fragment Str.nonempty].
  assert (Hc : ∀ lit : string, Str.all (fun c => negb (urllib.scheme_char c)
                 && negb (Ascii.eqb c "?"%char) && negb (Ascii.eqb c "#"%char)) lit = true →
               Str.has ch lit = false).
  { intros lit Hl. apply has_false_all. revert Hl. apply all_impl.
    intros c Hcc. apply andb_true_iff in Hcc as [Hcc H2].
    apply andb_true_iff in Hcc as [_ H1]. by destruct Hch as [-> | ->]. }
  repeat match goal with
         | |- context [if ?b then _ else _] => destruct b
         end;
    rewrite ?has_app, ?Hs, ?Hn, ?Hp, ?(Hc "//"), ?(Hc "/"), ?(Hc ":"); done.
Qed.

(** C6, amended. Normalisation steps: [clean_url] returns the URL parsed
    and put together again without its query string and fragment, with
    every trailing slash stripped; the result ends in no slash and holds
    neither a question mark nor a hash. *)
Theorem clean_url_strips_every_trailing_slash url parsed :
  urllib.urlparse netloc_check url = Some parsed →
  ∃ c, clean_url netloc_check url = Some c
    ∧ c = strip_trailing_slashes (urllib.geturl (urllib._replace parsed "" ""))
    ∧ Str.endswith "/"%char c = false
    ∧ Str.has "?"%char c = false ∧ Str.has "#"%char c = false.
Proof.
  intros Hp. unfold clean_url. rewrite Hp. simpl. eexists. split; [done|].
  split; [apply rstrip_strip_trailing|]. split; [apply rstrip_endswith|].
  apply urlparse_spec in Hp as (r & Hsplit & Hs & Hn & _ & _ & Hj).
  assert (Hplain : ∀ ch, ch = "?"%char ∨ ch = "#"%char →
    Str.has ch (Str.rstrip slash (urllib.geturl (urllib._replace parsed "" "")))
    = false).
  { intros ch Hch.
    destruct (urlsplit_plain _ _ _ Hch Hsplit) as (H1 & H2 & H3).
    assert (H4 : Str.has ch (joined_path parsed) = false).
    { destruct Hj as [->|Hj]; [done|]. rewrite Hj, has_app in H3.
      by apply orb_false_iff in H3 as [? _]. }
    rewrite <- Hs in H1. rewrite <- Hn in H2.
    pose proof (urlunsplit_plain _ _ _ _ Hch H1 H2 H4) as H.
    rewrite <- geturl_unsplit in H.
    destruct (rstrip_spec slash (urllib.geturl (urllib._replace parsed "" "")))
      as (t & Ht & _).
    rewrite Ht, has_app in H. by apply orb_false_iff in H as [? _]. }
  split; apply Hplain; auto.
Qed.

(** Parsing a normal form gives back the scheme and the network location
    of the URL, and neither query nor fragment. *)
Lemma clean_url_reparse url p :
  urllib.urlparse netloc_check url = Some p → urllib.netloc p ≠ "" →
  ∃ c p', clean_url netloc_check url = Some c
    ∧ Str.nonempty c = true
    ∧ urllib.urlparse netloc_check c = Some p'
    ∧ urllib.scheme p' = urllib.scheme p
    ∧ urllib.netloc p' = urllib.netloc p
    ∧ urllib.query p' = "" ∧ urllib.fragment p' = "".
Proof.
  intros Hp Hn.
  destruct (clean_url_netloc _ _ Hp Hn)
    as (path & Hc & _ & Hsplit & _).
  destruct (urlparse_some _ _ Hsplit) as [p' Hp'].
  exists (rebuilt (urllib.scheme p) (urllib.netloc p) path), p'.
  split; [done|]. split.
  { unfold rebuilt, scheme_prefix. by destruct (urllib.scheme p). }
  split; [done|].
  apply urlparse_spec in Hp' as (r & Hr & H1 & H2 & H3 & H4 & _).
  rewrite Hsplit in Hr. injection Hr as <-. done.
Qed.

End Normalisation.

(** ** The path key and the classifier *)

Section Page_functions.
Import StrFacts CharFacts UrlFacts.
Local Arguments Ascii.eqb : simpl never.

Context {unicode : Unicode}.

Variable netloc_check : string -> bool.

Abbreviation get_page_path' := (get_page_path netloc_check).
Abbreviation get_page_type' := (get_page_type netloc_check).



(** *** Percent-decoding *)

























(** ** The classifier *)

Lemma startswith_spec p s :
  Str.startswith p s = true ↔ ∃ r, s = p +:+ r.
Proof.
  revert s. induction p as [|a p IH]; intros s.
  - split; [by exists s|done].
  - destruct s as [|b s]; simpl.
    + split; [done|]. intros [r Hr]. by rewrite app_cons in Hr.
    + rewrite andb_true_iff, Ascii.eqb_eq, IH. split.
      * intros [-> [r ->]]. by exists r.
      * intros [r Hr]. rewrite app_cons in Hr. simplify_eq. eauto.
Qed.

Lemma contains_spec sub s : Str.contains sub s = true ↔ path_contains sub s.
Proof.
  unfold path_contains. induction s as [|c s IH]; simpl.
  - rewrite orb_false_r, startswith_spec. split.
    + intros [r Hr]. exists "", r. by rewrite app_nil_l.
    + intros (a & b & H). symmetry in H. apply app_eq_nil in H as [-> H].
      apply app_eq_nil in H as [-> ->]. by exists "".
  - rewrite orb_true_iff, startswith_spec, IH. split.
    + intros [[r Hr]|(a & b & ->)].
      * exists "", r. by rewrite app_nil_l.
      * by exists (String c a), b.
    + intros (a & b & H). destruct a as [|d a].
      * left. exists b. by rewrite app_nil_l in H.
      * right. rewrite app_cons in H. simplify_eq. eauto.
Qed.

Lemma lower_app (a b : string) :
  Str.lower (a +:+ b) = Str.lower a +:+ Str.lower b.
Proof.
  unfold Str.lower. induction a as [|c a IH]; [done|].
  rewrite app_cons. simpl. by rewrite IH.
Qed.

(** A lower-case word of the path is still there in the lower-cased
    path. *)
Lemma contains_lower word path :
  Str.lower word = word → path_contains word path →
  Str.contains word (Str.lower path) = true.
Proof.
  intros Hw (a & b & ->). apply contains_spec.
  exists (Str.lower a), (Str.lower b). by rewrite !lower_app, Hw.
Qed.

Lemma find_spec soup tag cls : find soup tag cls = true ↔ has_marker soup tag cls.
Proof.
  unfold find, has_marker, has_class. rewrite existsb_exists. split.
  - intros (t & Hin & [Hn Hc]%andb_true_iff). exists t.
    rewrite list_elem_of_In. split; [done|].
    apply String.eqb_eq in Hn. split; [done|].
    apply existsb_exists in Hc as (c & Hc & ->%String.eqb_eq).
    by apply list_elem_of_In.
  - intros (t & Hin & <- & Hc). exists t.
    rewrite <- list_elem_of_In. split; [done|].
    rewrite String.eqb_refl. simpl. apply existsb_exists.
    exists cls. rewrite <- list_elem_of_In. by rewrite String.eqb_refl.
Qed.

Lemma product_test path soup :
  Str.contains "product" path || find soup "div" "product"
  || find soup "div" "woocommerce-product-gallery" = true
  ↔ product_indicator path soup.
Proof.
  unfold product_indicator.
  rewrite !orb_true_iff, contains_spec, !find_spec. tauto.
Qed.

Lemma category_test path soup :
  Str.contains "category" path || Str.contains "shop" path
  || find soup "ul" "products"
  || find soup "div" "woocommerce-products-header" = true
  ↔ category_indicator path soup.
Proof.
  unfold category_indicator.
  rewrite !orb_true_iff, !contains_spec, !find_spec. tauto.
Qed.

(** An indicator of the path as it is is one of the lower-cased path. *)
Lemma product_indicator_lower path soup :
  product_indicator path soup → product_indicator (Str.lower path) soup.
Proof.
  intros [H|H]; [left|by right].
  by apply contains_spec, (contains_lower "product").
Qed.

Lemma category_indicator_lower path soup :
  category_indicator path soup → category_indicator (Str.lower path) soup.
Proof.
  intros [H|[H|H]]; [left|right; left|by do 2 right].
  - by apply contains_spec, (contains_lower "category").
  - by apply contains_spec, (contains_lower "shop").
Qed.

(** C8, amended. Classification priority: [get_page_type] returns one of
    [product], [category] and [content], and searches the lower-cased
    path.  With the indicators read on the lower-cased path (it contains
    [product], or the document has a product marker; it contains [category]
    or [shop], or the document has a category marker), the page is a
    product exactly when a product indicator is present, a category exactly
    when a category indicator is present and no product indicator is, and
    content exactly when neither is.  An indicator of the path as it is
    written is one of the lower-cased path, so that a page with both a
    product indicator and a category indicator is a product. *)
Theorem classification_priority url soup parsed :
  urllib.urlparse netloc_check url = Some parsed →
  let path := urllib.path parsed in
  let product := product_indicator (Str.lower path) soup in
  let category := category_indicator (Str.lower path) soup in
  ∃ t, get_page_type netloc_check url soup = Some t
    ∧ (t = "product" ∨ t = "category" ∨ t = "content")
    ∧ (t = "product" ↔ product)
    ∧ (t = "category" ↔ ¬ product ∧ category)
    ∧ (t = "content" ↔ ¬ product ∧ ¬ category)
    ∧ (product_indicator path soup → product)
    ∧ (category_indicator path soup → category)
    ∧ (product_indicator path soup → category_indicator path soup →
       t = "product").
Proof.
  intros Hp path product category. subst product category.
  unfold get_page_type. rewrite Hp. simpl. fold path.
  pose proof (product_test (Str.lower path) soup) as HP.
  pose proof (category_test (Str.lower path) soup) as HC.
  pose proof (product_indicator_lower path soup) as HPl.
  pose proof (category_indicator_lower path soup) as HCl.
  destruct (Str.contains "product" (Str.lower path) || find soup "div" "product"
            || find soup "div" "woocommerce-product-gallery");
    [|destruct (Str.contains "category" (Str.lower path)
                || Str.contains "shop" (Str.lower path)
                || find soup "ul" "products"
                || find soup "div" "woocommerce-products-header")];
    eexists; (split; [done|]).
  - assert (Hyes : product_indicator (Str.lower path) soup) by by apply HP.
    intuition (auto; discriminate).
  - assert (Hno : ¬ product_indicator (Str.lower path) soup)
      by (intros H; by apply HP in H).
    assert (Hyes : category_indicator (Str.lower path) soup) by by apply HC.
    intuition (auto; discriminate).
  - assert (Hno : ¬ product_indicator (Str.lower path) soup)
      by (intros H; by apply HP in H).
    assert (Hno' : ¬ category_indicator (Str.lower path) soup)
      by (intros H; by apply HC in H).
    intuition (auto; discriminate).
Qed.

End Page_functions.

(** ** The crawl state *)

Section Crawl_state.

Context {unicode : Unicode}.

Variable netloc_check : string -> bool.
Variable urljoin : string -> string -> option string.

Abbreviation clean_url' := (clean_url netloc_check).
Abbreviation scrape_page' := (scrape_page netloc_check urljoin).
Abbreviation record_child' := (record_child netloc_check).
Abbreviation reachable' := (reachable netloc_check urljoin).

Lemma fetch_page_url s a url clean links page :
  fetch_page netloc_check urljoin s a url clean = Some (links, page) →
  pd_url page = clean ∧ links = l_url <$> pd_links page.
Proof.
  unfold fetch_page. intros H.
  destruct (response a) as [[code soup]|]; simpl in H; [|done].
  destruct (negb (code =? 200)%Z); [done|].
  destruct (get_page_type netloc_check clean soup); simpl in H; [|done].
  destruct (negb (write_ok a)); [done|].
  destruct (find_links _ _ _ _ _); simpl in H; [|done].
  destruct (get_page_path netloc_check clean); simpl in H; [|done].
  by simplify_eq.
Qed.

Lemma scrape_page_outcome a url s r s' :
  scrape_page' a url s = (r, s') → scrape_outcome netloc_check a url s r s'.
Proof.
  unfold scrape_page. intros H.
  destruct (clean_url' url) as [clean|] eqn:Hc; [|simplify_eq; constructor].
  case_bool_decide as Hv; [simplify_eq; constructor|].
  destruct (is_valid_url _ s clean) as [[]|] eqn:Hval;
    [|simplify_eq; constructor..].
  destruct (create_page_directory _ _ _).
  - destruct (fetch_page _ _ _ _ _ _) as [[links page]|] eqn:Hf; simplify_eq.
    + apply fetch_page_url in Hf as [Hu _].
      by apply outcome_scraped.
    + eapply outcome_visited; eauto.
  - simplify_eq. eapply outcome_visited; eauto.
Qed.

Lemma crawl_inv_init base : crawl_inv (__init__ base).
Proof.
  repeat split; simpl; try set_solver.
  intros k node t H. unfold __init__ in H. simpl in H. done.
Qed.

Lemma crawl_inv_visit s clean :
  crawl_inv s → crawl_inv (set_visited s ({[clean]} ∪ visited_urls s)).
Proof.
  intros (Hh & Hp & Hc). repeat split; try apply Hp; simpl.
  - unfold hierarchy_visited in *. simpl. set_solver.
  - exact Hc.
Qed.

Lemma children_in_insert_new (h : gmap string HierarchyNode) url p t ty :
  children_in h → children_in (<[url := mkNode p t ty []]> h).
Proof.
  intros Hc k node c Hk Hin. rewrite dom_insert_L.
  destruct (decide (url = k)) as [E|Hne].
  - subst k. rewrite lookup_insert_eq in Hk. simplify_eq. simpl in Hin.
    by apply elem_of_nil in Hin.
  - rewrite lookup_insert_ne in Hk by done.
    apply elem_of_union_r. by eapply Hc.
Qed.

Lemma children_in_append (h : gmap string HierarchyNode) cur node c :
  children_in h → h !! cur = Some node → c ∈ dom h →
  children_in (<[cur := mkNode (n_path node) (n_title node) (n_type node)
                          (children node ++ [c])]> h).
Proof.
  intros Hc Hcur Hdom k n' c' Hk Hin.
  assert (dom (<[cur := mkNode (n_path node) (n_title node) (n_type node)
                          (children node ++ [c])]> h) = dom h) as ->.
  { rewrite dom_insert_L. apply elem_of_dom_2 in Hcur. set_solver. }
  destruct (decide (cur = k)) as [E|Hne].
  - subst k. rewrite lookup_insert_eq in Hk. simplify_eq. simpl in Hin.
    apply elem_of_app in Hin as [Hin|Hin]; [by eapply Hc|].
    apply list_elem_of_singleton in Hin. by subst.
  - rewrite lookup_insert_ne in Hk by done. by eapply Hc.
Qed.

Lemma crawl_inv_register s page :
  crawl_inv s → pd_url page ∉ dom (page_hierarchy s) →
  pd_url page ∈ visited_urls s → crawl_inv (register s page).
Proof.
  intros (Hh & (Hu & H1 & H2 & H3) & Hc) Hfresh Hvis.
  unfold hierarchy_visited, children_known in *.
  unfold register, add_to_page_set.
  destruct (String.eqb (pd_type page) "product");
    [|destruct (String.eqb (pd_type page) "category")];
    (split; [|split; [|by apply children_in_insert_new]]);
    unfold hierarchy_visited, type_partition; simpl;
    rewrite dom_insert_L; set_solver.
Qed.

Lemma crawl_inv_scrape a url s r s' :
  crawl_inv s → scrape_page' a url s = (r, s') → crawl_inv s'.
Proof.
  intros Hinv H. apply scrape_page_outcome in H.
  destruct H as [|clean r _ Hv _ _|clean links page _ Hv Hu]; [done|..].
  - by apply crawl_inv_visit.
  - apply crawl_inv_register; [by apply crawl_inv_visit|..]; simpl.
    + rewrite Hu. destruct Hinv as (Hh & _). set_solver.
    + set_solver.
Qed.

Lemma crawl_inv_child cur link s r s' :
  crawl_inv s → record_child' cur link s = (r, s') → crawl_inv s'.
Proof.
  intros Hinv H. unfold record_child in H.
  destruct (clean_url' (l_url link)) as [t|]; [|by simplify_eq].
  case_bool_decide as Ht; [|by simplify_eq].
  destruct (page_hierarchy s !! cur) as [node|] eqn:Hcur; simplify_eq; [|done].
  destruct Hinv as (Hh & Hp & Hc).
  assert (Hdom : dom (<[cur:=mkNode (n_path node) (n_title node) (n_type node)
            (children node ++ [t])]> (page_hierarchy s)) = dom (page_hierarchy s)).
  { rewrite dom_insert_L. apply elem_of_dom_2 in Hcur. set_solver. }
  unfold crawl_inv, hierarchy_visited, type_partition, children_known. simpl.
  rewrite Hdom. repeat split; try apply Hp; [done|].
  by apply children_in_append.
Qed.

Lemma reachable_inv base s : reachable' base s → crawl_inv s.
Proof.
  induction 1 as [|s a url r s' _ IH H|s cur link r s' _ IH H].
  - apply crawl_inv_init.
  - by eapply crawl_inv_scrape.
  - by eapply crawl_inv_child.
Qed.

Lemma record_child_frame cur link s r s' :
  record_child' cur link s = (r, s') →
  visited_urls s' = visited_urls s ∧ base_url s' = base_url s
  ∧ product_pages s' = product_pages s ∧ category_pages s' = category_pages s
  ∧ content_pages s' = content_pages s.
Proof.
  unfold record_child. intros H.
  destruct (clean_url' (l_url link)); [|by simplify_eq].
  case_bool_decide; [|by simplify_eq].
  destruct (page_hierarchy s !! cur); by simplify_eq.
Qed.

Lemma record_children_reachable base cur links : ∀ s r s',
  reachable' base s → record_children netloc_check cur links s = (r, s') →
  reachable' base s'.
Proof.
  induction links as [|link rest IH]; intros s r s' Hs H; simpl in H.
  - by simplify_eq.
  - destruct (record_child' cur link s) as [[[]|] s1] eqn:H1.
    + eapply IH; [|exact H]. by eapply reach_child.
    + simplify_eq. by eapply reach_child.
Qed.

Lemma loop_body_reachable base w cur ls r ls' :
  reachable' base (self_ ls) →
  loop_body netloc_check urljoin w cur ls = (r, ls') →
  reachable' base (self_ ls').
Proof.
  intros Hs H. unfold loop_body in H.
  destruct (scrape_page' (w cur) cur (self_ ls)) as [[[links page]|] s1] eqn:H1.
  2:{ simplify_eq. by eapply reach_scrape. }
  assert (Hs1 : reachable' base s1) by by eapply reach_scrape.
  destruct page as [page|].
  - destruct (clean_url' cur) as [cc|].
    + destruct (record_children netloc_check cc (pd_links page) s1)
        as [r2 s2] eqn:H2.
      assert (reachable' base s2) by by eapply record_children_reachable.
      destruct r2; [destruct (enqueue _ _ _ _)|]; by simplify_eq.
    + by simplify_eq.
  - destruct (enqueue _ _ _ _); by simplify_eq.
Qed.

(** Every state of the loop of [scrape_website] is a reachable state. *)
Lemma crawl_loop_reachable base max_pages w fuel : ∀ ls st ls' trace,
  reachable' base (self_ ls) →
  crawl_loop netloc_check urljoin fuel max_pages w ls = (st, ls', trace) →
  reachable' base (self_ ls').
Proof.
  induction fuel as [|fuel IH]; intros ls st ls' trace Hs H; simpl in H.
  - destruct (loop_test max_pages ls); by simplify_eq.
  - destruct (loop_test max_pages ls); [|by simplify_eq].
    destruct (to_visit ls) as [|cur rest]; [by simplify_eq|].
    destruct (loop_body _ _ _ _ _) as [[[]|] ls1] eqn:Hb.
    + destruct (crawl_loop _ _ _ _ _ ls1) as [[st2 ls2] tr2] eqn:Hl.
      simplify_eq. eapply IH; [|exact Hl].
      eapply loop_body_reachable; [|exact Hb]. done.
    + simplify_eq. eapply loop_body_reachable; [|exact Hb]. done.
Qed.

Lemma scrape_website_reachable base fuel max_pages w :
  reachable' base
    (self_ (final_state
       (scrape_website netloc_check urljoin fuel max_pages w (__init__ base)))).
Proof.
  unfold scrape_website.
  destruct (crawl_loop _ _ _ _ _ _) as [[st ls] trace] eqn:H. simpl.
  eapply crawl_loop_reachable; [|exact H]. apply reach_init.
Qed.

(** The files a crawl writes are the ones of its final state. *)
Lemma scrape_website_saved fuel max_pages w self files :
  saved (scrape_website netloc_check urljoin fuel max_pages w self)
    = Some files →
  files = save_site_hierarchy
            (self_ (final_state
               (scrape_website netloc_check urljoin fuel max_pages w self))).
Proof.
  unfold scrape_website.
  destruct (crawl_loop _ _ _ _ _ _) as [[[] ls] trace]; simpl; congruence.
Qed.

Lemma buckets_of_partition s url :
  type_partition s → url ∈ dom (page_hierarchy s) →
  ∃ bucket, buckets (save_site_hierarchy s).2 url = [bucket].
Proof.
  intros (Hu & H1 & H2 & H3) Hin. rewrite <- Hu in Hin.
  unfold buckets, save_site_hierarchy. simpl.
  repeat case_bool_decide; simpl; eauto;
    repeat match goal with
           | H : _ ∈ elements _ |- _ => apply elem_of_elements in H
           | H : ¬ _ ∈ elements _ |- _ => rewrite elem_of_elements in H
           end; set_solver.
Qed.

(** C1. Type-set partition: in every state a crawl goes through, the
    union of [product_pages], [category_pages] and [content_pages] is the
    set of keys of [page_hierarchy], the three sets are pairwise disjoint,
    and every key of [site_hierarchy.json] is listed in exactly one bucket
    of [page_listings.json]. *)
Theorem type_sets_partition_hierarchy base s :
  reachable netloc_check urljoin base s →
  type_partition s ∧
  ∀ url, url ∈ dom (save_site_hierarchy s).1 →
         ∃ bucket, buckets (save_site_hierarchy s).2 url = [bucket].
Proof.
  intros Hr. apply reachable_inv in Hr as (_ & Hp & _).
  split; [exact Hp|]. intros url Hin. by apply buckets_of_partition.
Qed.

(** C9. In every state a crawl goes through, every key of
    [page_hierarchy] is a member of [visited_urls]. *)
Theorem hierarchy_keys_are_visited base s :
  reachable netloc_check urljoin base s → hierarchy_visited s.
Proof. intros Hr. by apply reachable_inv in Hr as (Hh & _). Qed.

(** C4. Hierarchy edge condition: when the loop processes a link of the
    scraped page in a state [s] of the crawl (lines 347-349), the visited
    set is left as it is, and every child recorded afterwards, the one this
    step may have appended included, is a member of the visited set of [s]:
    the target of an edge is visited before the edge is added. *)
Theorem edge_target_already_visited base s cur link r s' :
  reachable netloc_check urljoin base s → record_child netloc_check cur link s = (r, s') →
  visited_urls s' = visited_urls s ∧
  ∀ k node t, page_hierarchy s' !! k = Some node → t ∈ children node →
              t ∈ visited_urls s.
Proof.
  intros Hr H.
  assert (Hinv : crawl_inv s') by (eapply reachable_inv, reach_child; eauto).
  apply record_child_frame in H as (Hv & _). split; [done|].
  intros k node t Hk Ht. rewrite <- Hv.
  destruct Hinv as (Hh & _ & Hc). apply Hh. by eapply Hc.
Qed.

(** The edge a step appends, spelled out: its target is a key of the
    hierarchy, hence visited. *)
Lemma record_child_appends base s cur link s' :
  reachable' base s → record_child' cur link s = (Ok tt, s') →
  s' = s ∨
  ∃ node t, clean_url' (l_url link) = Some t ∧
    page_hierarchy s !! cur = Some node ∧ t ∈ visited_urls s ∧
    page_hierarchy s' !! cur =
      Some (mkNode (n_path node) (n_title node) (n_type node)
              (children node ++ [t])).
Proof.
  intros Hr H. unfold record_child in H.
  destruct (clean_url' (l_url link)) as [t|]; [|done].
  case_bool_decide as Ht; [|left; by simplify_eq].
  destruct (page_hierarchy s !! cur) as [node|] eqn:Hcur; [|done].
  right. exists node, t. simplify_eq. simpl.
  rewrite lookup_insert_eq. repeat split; try done.
  by apply (reachable_inv _ _ Hr).
Qed.

Lemma is_valid_url_true s url :
  is_valid_url netloc_check s url = Some true →
  ∃ u, urllib.urlparse netloc_check url = Some u.
Proof.
  unfold is_valid_url. destruct (negb (Str.nonempty url)); [done|].
  destruct (urllib.urlparse netloc_check (base_url s)); simpl; [|done].
  destruct (urllib.urlparse netloc_check url); simpl; [eauto|done].
Qed.

Lemma is_valid_url_other_domain s url b u :
  urllib.urlparse netloc_check (base_url s) = Some b →
  urllib.urlparse netloc_check url = Some u →
  urllib.netloc b ≠ urllib.netloc u →
  is_valid_url netloc_check s url = Some false.
Proof.
  intros Hb Hu Hne. unfold is_valid_url.
  destruct (negb (Str.nonempty url)); [done|].
  rewrite Hb, Hu. simpl. f_equal. by apply String.eqb_neq.
Qed.

Lemma fetch_page_fails s a url clean :
  page_fails netloc_check urljoin s a url →
  fetch_page netloc_check urljoin s a url clean = None.
Proof.
  unfold fetch_page.
  intros [H|[(code & soup & H & Hc)|[H|(code & soup & H & Hl)]]].
  - by rewrite H.
  - rewrite H. simpl. apply Z.eqb_neq in Hc. by rewrite Hc.
  - destruct (response a) as [[code soup]|]; simpl; [|done].
    destruct (negb (code =? 200)%Z); [done|].
    destruct (get_page_type _ _ _); simpl; [|done]. by rewrite H.
  - rewrite H. simpl. destruct (negb (code =? 200)%Z); [done|].
    destruct (get_page_type _ _ _); simpl; [|done].
    destruct (negb (write_ok a)); [done|]. by rewrite Hl.
Qed.

Lemma scrape_page_visited a url s clean :
  clean_url' url = Some clean → clean ∈ visited_urls s →
  scrape_page' a url s = (Ok ([], None), s).
Proof.
  intros Hc Hv. unfold scrape_page. rewrite Hc. by rewrite bool_decide_true.
Qed.

(** C10, amended. Frame property of a rejected call: when the normal
    form of the URL is already visited, or the network location of the
    normal form differs from the one of the seed, [scrape_page] returns
    [([], None)] and the scraper is left exactly as it was; such a URL
    never joins the visited set.  The test is made on the normal form: it
    rejects every URL whose own network location is not empty and differs
    from the one of the seed. *)
Theorem rejected_call_changes_nothing a url s clean :
  clean_url netloc_check url = Some clean →
  (clean ∈ visited_urls s
   ∨ (∃ b u, urllib.urlparse netloc_check (base_url s) = Some b ∧
             urllib.urlparse netloc_check clean = Some u ∧
             urllib.netloc b ≠ urllib.netloc u)
   ∨ (∃ b p, urllib.urlparse netloc_check (base_url s) = Some b ∧
             urllib.urlparse netloc_check url = Some p ∧
             urllib.netloc p ≠ "" ∧
             urllib.netloc b ≠ urllib.netloc p)) →
  scrape_page netloc_check urljoin a url s = (Ok ([], None), s).
Proof.
  assert (Hoff : ∀ c b u,
            clean_url netloc_check url = Some c →
            urllib.urlparse netloc_check (base_url s) = Some b →
            urllib.urlparse netloc_check c = Some u →
            urllib.netloc b ≠ urllib.netloc u →
            scrape_page netloc_check urljoin a url s = (Ok ([], None), s)).
  { intros c b u Hc Hb Hu Hne. unfold scrape_page. rewrite Hc.
    case_bool_decide; [done|].
    by rewrite (is_valid_url_other_domain _ _ _ _ Hb Hu Hne). }
  intros Hc [Hv|[(b & u & Hb & Hu & Hne)|(b & p & Hb & Hp & Hn & Hne)]].
  - by eapply scrape_page_visited.
  - by eapply Hoff.
  - destruct (clean_url_reparse netloc_check url p Hp Hn)
      as (c & p' & Hc' & _ & Hp' & _ & Hnet & _).
    eapply Hoff; [done..|]. by rewrite Hnet.
Qed.

(** C5. Page-scoped failure handling: when the request of a page that
    passes the guard of [scrape_page] fails (it raises, or answers with a
    status other than 200, or extraction raises), the call returns an empty
    link list and no record, the normal form of the URL is added to the
    visited set and nothing else changes, and every later call on this URL
    is rejected without any effect, whatever the environment answers. *)
Theorem failed_page_is_marked_visited a url s clean :
  clean_url netloc_check url = Some clean → clean ∉ visited_urls s →
  is_valid_url netloc_check s clean = Some true →
  makedirs_ok a = true →
  page_fails netloc_check urljoin
    (set_visited s ({[clean]} ∪ visited_urls s)) a url →
  let s' := set_visited s ({[clean]} ∪ visited_urls s) in
  scrape_page netloc_check urljoin a url s = (Ok ([], None), s')
  ∧ clean ∈ visited_urls s'
  ∧ ∀ a' s'', visited_urls s' ⊆ visited_urls s'' →
              scrape_page netloc_check urljoin a' url s'' = (Ok ([], None), s'').
Proof.
  intros Hc Hv Hval Hdir Hfail s'. split; [|split].
  - unfold scrape_page. rewrite Hc. rewrite bool_decide_false by done.
    rewrite Hval. unfold create_page_directory, get_page_path.
    destruct (is_valid_url_true _ _ Hval) as [u ->]. simpl.
    rewrite Hdir.
    destruct (negb (Str.nonempty (Str.strip slash (urllib.path u))));
      by rewrite (fetch_page_fails _ _ _ _ Hfail).
  - subst s'. simpl. set_solver.
  - intros a' s'' Hsub. eapply scrape_page_visited; [done|].
    apply Hsub. subst s'. simpl. set_solver.
Qed.

End Crawl_state.

(** ** The crawl loop *)

Section Crawl_loop.

Context {unicode : Unicode}.

Variable netloc_check : string -> bool.
Variable urljoin : string -> string -> option string.
Variable w : world.

Abbreviation crawl_loop' := (crawl_loop netloc_check urljoin).
Abbreviation loop_body' := (loop_body netloc_check urljoin).

Local Open Scope Z_scope.

(** An iteration that ends counts one page; one left by an exception
    leaves the counter as it is. *)
Lemma loop_body_counter cur ls r ls' :
  loop_body' w cur ls = (r, ls') →
  (r = Ok tt ∧ pages_scraped ls' = pages_scraped ls + 1)
  ∨ (r = Raise ∧ pages_scraped ls' = pages_scraped ls).
Proof.
  unfold loop_body. intros H.
  destruct (scrape_page _ _ _ _ _) as [[[links page]|] s1];
    [|right; by simplify_eq].
  destruct (match page with Some _ => _ | None => _ end) as [[[]|] s2].
  - destruct (enqueue _ _ _ _); simplify_eq; simpl; auto.
  - right. by simplify_eq.
Qed.

Lemma loop_test_budget N ls :
  loop_test (Some N) ls = true → pages_scraped ls < N.
Proof.
  unfold loop_test. intros [_ H]%andb_true_iff. by apply Z.ltb_lt.
Qed.

Lemma crawl_loop_budget N fuel : ∀ ls st ls' trace,
  crawl_loop' fuel (Some N) w ls = (st, ls', trace) →
  Z.of_nat (length trace) ≤ Z.max 0 (N - pages_scraped ls)
  ∧ pages_scraped ls ≤ pages_scraped ls'
  ∧ pages_scraped ls' ≤ Z.max (pages_scraped ls) N.
Proof.
  induction fuel as [|fuel IH]; intros ls st ls' trace H; simpl in H.
  - destruct (loop_test (Some N) ls); simplify_eq; simpl; lia.
  - destruct (loop_test (Some N) ls) eqn:Ht; [|simplify_eq; simpl; lia].
    apply loop_test_budget in Ht.
    destruct (to_visit ls) as [|cur rest]; [simplify_eq; simpl; lia|].
    destruct (loop_body' w cur _) as [r ls1] eqn:Hb.
    apply loop_body_counter in Hb as [[-> Hp]|[-> Hp]]; simpl in Hp.
    + destruct (crawl_loop' fuel (Some N) w ls1) as [[st2 ls2] tr2] eqn:Hl.
      apply IH in Hl. simplify_eq. simpl length. lia.
    + simplify_eq. simpl length. lia.
Qed.

(** With a budget of [N] the loop has ended after [N] iterations. *)
Lemma crawl_loop_terminates N fuel : ∀ ls,
  N - pages_scraped ls ≤ Z.of_nat fuel →
  (crawl_loop' fuel (Some N) w ls).1.1 ≠ Running.
Proof.
  induction fuel as [|fuel IH]; intros ls Hf; simpl.
  - destruct (loop_test (Some N) ls) eqn:Ht; [|done].
    apply loop_test_budget in Ht. lia.
  - destruct (loop_test (Some N) ls) eqn:Ht; [|done].
    destruct (to_visit ls) as [|cur rest]; [done|].
    destruct (loop_body' w cur _) as [r ls1] eqn:Hb.
    apply loop_body_counter in Hb as [[-> Hp]|[-> Hp]]; simpl in Hp; [|done].
    specialize (IH ls1).
    destruct (crawl_loop' fuel (Some N) w ls1) as [[st2 ls2] tr2]. simpl in *.
    apply IH. lia.
Qed.

(** Without a budget the loop ends only on an empty frontier. *)
Lemma crawl_loop_unbounded fuel : ∀ ls st ls' trace,
  crawl_loop' fuel None w ls = (st, ls', trace) →
  (st = Finished → to_visit ls' = []) ∧ (st = Running → to_visit ls' ≠ []).
Proof.
  induction fuel as [|fuel IH]; intros ls st ls' trace H; simpl in H.
  - unfold loop_test in H.
    destruct (to_visit ls) eqn:E; simpl in H; simplify_eq;
      split; intros; try done; congruence.
  - unfold loop_test in H. destruct (to_visit ls) as [|cur rest] eqn:E;
      simpl in H; [simplify_eq; done|].
    destruct (loop_body' w cur _) as [[[]|] ls1] eqn:Hb.
    + destruct (crawl_loop' fuel None w ls1) as [[st2 ls2] tr2] eqn:Hl.
      apply IH in Hl. by simplify_eq.
    + by simplify_eq.
Qed.

(** C2. Budget respect: with [max_pages = N], [N] not negative (zero
    included), every run of [scrape_website], however far it has come, has
    taken at most [N] URLs from the frontier, its counter [pages_scraped]
    is at most [N], and the loop has ended once [N] iterations are allowed;
    with no budget the loop ends only when the frontier is empty. *)
Theorem budget_respected self fuel N :
  0 ≤ N →
  let run := scrape_website netloc_check urljoin fuel (Some N) w self in
  let free := scrape_website netloc_check urljoin fuel None w self in
  Z.of_nat (length (dequeued run)) ≤ N
  ∧ 0 ≤ pages_scraped (final_state run) ≤ N
  ∧ (N ≤ Z.of_nat fuel → final_status run ≠ Running)
  ∧ (final_status free = Finished → to_visit (final_state free) = [])
  ∧ (final_status free = Running → to_visit (final_state free) ≠ []).
Proof.
  intros HN run free. subst run free. unfold scrape_website.
  pose proof (crawl_loop_terminates N fuel (mkLoop [base_url self] 0 self))
    as Hterm.
  destruct (crawl_loop' fuel (Some N) w _) as [[st ls] trace] eqn:Hrun.
  destruct (crawl_loop' fuel None w _) as [[st0 ls0] trace0] eqn:Hfree.
  pose proof (crawl_loop_budget _ _ _ _ _ _ Hrun) as (H1 & H2 & H3).
  pose proof (crawl_loop_unbounded _ _ _ _ _ Hfree) as (H4 & H5).
  simpl in *. repeat split; try lia; try done.
  intros Hf. apply Hterm. lia.
Qed.

(** A budget of zero, or below, takes nothing from the frontier. *)
Lemma empty_budget_runs_nothing self fuel N :
  N ≤ 0 →
  let run := scrape_website netloc_check urljoin fuel (Some N) w self in
  dequeued run = [] ∧ final_status run = Finished
  ∧ self_ (final_state run) = self.
Proof.
  intros HN. unfold scrape_website.
  assert (Ht : loop_test (Some N) (mkLoop [base_url self] 0 self) = false).
  { unfold loop_test. simpl. apply Z.ltb_ge. lia. }
  destruct fuel; simpl; by rewrite Ht.
Qed.

End Crawl_loop.

(** ** The claims that fail as worded, at a concrete URL *)

Section Claims_on_the_small_web.

Local Existing Instance ascii_text.

(** C3 as worded fails: normalising twice differs from normalising
    once. *)
Lemma clean_url_not_idempotent :
  clean_url plain_netloc "http://a.com/b;/" = Some "http://a.com/b;"
  ∧ clean_url plain_netloc "http://a.com/b;" = Some "http://a.com/b".
Proof. split; vm_compute; reflexivity. Qed.

(** Without a network location normalisation may fail to be idempotent
    too: the hypothesis of the amended C3 is needed. *)
Lemma clean_url_not_idempotent_without_netloc :
  clean_url plain_netloc "/////a" = Some "///a"
  ∧ clean_url plain_netloc "///a" = Some "/a".
Proof. split; vm_compute; reflexivity. Qed.

(** C6 as worded fails: the code strips both trailing slashes, the
    specification's wording one. *)
Lemma clean_url_strips_two_slashes :
  clean_url plain_netloc "http://a.com/b//" = Some "http://a.com/b"
  ∧ normalize_spec plain_netloc "http://a.com/b//" = Some "http://a.com/b/".
Proof. split; vm_compute; reflexivity. Qed.


(** An escape that is not UTF-8 is decoded to U+FFFD, not to the character
    with its code: the amended C7 speaks of escapes that decode to ASCII
    characters. *)
Lemma unquote_replaces_undecodable_escape :
  unquote "caf%E9" = "caf" +:+ REPLACEMENT ""
  ∧ percent_decode "caf%E9" = "caf" +:+ String (ascii_of_N 233) "".
Proof. split; vm_compute; reflexivity. Qed.

(** C8 as worded fails: the path as it is written holds a category
    indicator and no product indicator, and the page is a product, since
    the lower-cased path is searched. *)
Lemma classification_searches_lower_cased_path :
  let soup := mkSoup None [] in
  urllib.urlparse plain_netloc "http://ex.com/PRODUCT/shop"
  = Some (urllib.mkParse "http" "ex.com" "/PRODUCT/shop" "" "" "")
  ∧ category_indicator "/PRODUCT/shop" soup
  ∧ ¬ product_indicator "/PRODUCT/shop" soup
  ∧ get_page_type plain_netloc "http://ex.com/PRODUCT/shop" soup
    = Some "product".
Proof.
  intros soup. split; [vm_compute; reflexivity|]. split.
  { right. left. by exists "/PRODUCT/", "". }
  split; [|vm_compute; reflexivity].
  intros H. apply (product_test plain_netloc) in H. vm_compute in H.
    discriminate H.
Qed.

(** C10 as worded fails: the network location of the URL is empty, not the
    one of the seed, and the call adds its normal form, which is on the
    domain of the seed, to the visited set. *)
Lemma empty_netloc_url_is_visited :
  let s := __init__ "http://ex.com" in
  let url := "http:////ex.com/x" in
  let s' := (scrape_page plain_netloc absolute_href (ex_world url) url s).2 in
  urllib.urlparse plain_netloc (base_url s)
  = Some (urllib.mkParse "http" "ex.com" "" "" "" "")
  ∧ urllib.urlparse plain_netloc url
    = Some (urllib.mkParse "http" "" "//ex.com/x" "" "" "")
  ∧ clean_url plain_netloc url = Some "http://ex.com/x"
  ∧ visited_urls s = ∅
  ∧ "http://ex.com/x" ∈ visited_urls s'.
Proof.
  intros s url s'. repeat split; vm_compute; reflexivity.
Qed.

(** ** The properties at work on the small web *)

Lemma ex_final_reachable :
  reachable plain_netloc absolute_href ex_base ex_final.
Proof.
  apply scrape_website_reachable.
Qed.

Lemma ex_s2_reachable : reachable plain_netloc absolute_href ex_base ex_s2.
Proof.
  eapply reach_scrape; [eapply reach_scrape; [apply reach_init|]|];
    apply surjective_pairing.
Qed.

Lemma type_sets_partition_witness :
  reachable plain_netloc absolute_href ex_base ex_final
  ∧ saved (ex_crawl 10 None) = Some (save_site_hierarchy ex_final)
  ∧ type_partition ex_final
  ∧ buckets (save_site_hierarchy ex_final).2 "http://ex.com/shop" = ["categories"].
Proof.
  split; [exact ex_final_reachable|]. split; [vm_compute; reflexivity|]. split.
  - exact (proj1 (type_sets_partition_hierarchy _ _ _ _ ex_final_reachable)).
  - vm_compute. reflexivity.
Defined.

Lemma hierarchy_keys_witness :
  reachable plain_netloc absolute_href ex_base ex_final
  ∧ hierarchy_visited ex_final.
Proof.
  split; [exact ex_final_reachable|].
  exact (hierarchy_keys_are_visited _ _ _ _ ex_final_reachable).
Defined.

Lemma edge_target_witness :
  let link := mkLink "http://ex.com" "link" "" in
  let s' := (record_child plain_netloc "http://ex.com/shop" link ex_s2).2 in
  reachable plain_netloc absolute_href ex_base ex_s2
  ∧ record_child plain_netloc "http://ex.com/shop" link ex_s2 = (Ok tt, s')
  ∧ page_hierarchy s' !! "http://ex.com/shop"
    = Some (mkNode "shop" (Some "Shop") "category" ["http://ex.com"])
  ∧ "http://ex.com" ∈ visited_urls ex_s2.
Proof.
  intros link s'.
  assert (H : record_child plain_netloc "http://ex.com/shop" link ex_s2
              = (Ok tt, s')) by (vm_compute; reflexivity).
  assert (Hk : page_hierarchy s' !! "http://ex.com/shop"
    = Some (mkNode "shop" (Some "Shop") "category" ["http://ex.com"]))
    by (vm_compute; reflexivity).
  split; [exact ex_s2_reachable|]. split; [exact H|]. split; [exact Hk|].
  eapply (proj2 (edge_target_already_visited _ _ _ _ _ _ _ _
                   ex_s2_reachable H)); [exact Hk|].
  simpl. apply list_elem_of_here.
Defined.

Lemma rejected_call_witness :
  let a := ex_world "http://ex.com/?again" in
  let b := urllib.mkParse "http" "ex.com" "" "" "" "" in
  let p := urllib.mkParse "http" "other.org" "/x/" "" "" "" in
  clean_url plain_netloc "http://ex.com/?again" = Some "http://ex.com"
  ∧ "http://ex.com" ∈ visited_urls ex_s1
  ∧ scrape_page plain_netloc absolute_href a "http://ex.com/?again" ex_s1
    = (Ok ([], None), ex_s1)
  ∧ clean_url plain_netloc "http://other.org/x/" = Some "http://other.org/x"
  ∧ urllib.urlparse plain_netloc (base_url ex_s1) = Some b
  ∧ urllib.urlparse plain_netloc "http://other.org/x/" = Some p
  ∧ scrape_page plain_netloc absolute_href a "http://other.org/x/" ex_s1
    = (Ok ([], None), ex_s1).
Proof.
  intros a b p.
  assert (Hc : clean_url plain_netloc "http://ex.com/?again" = Some "http://ex.com")
    by (vm_compute; reflexivity).
  assert (Hv : "http://ex.com" ∈ visited_urls ex_s1) by (vm_compute; reflexivity).
  assert (Hc' : clean_url plain_netloc "http://other.org/x/"
                = Some "http://other.org/x") by (vm_compute; reflexivity).
  assert (Hb : urllib.urlparse plain_netloc (base_url ex_s1) = Some b)
    by (vm_compute; reflexivity).
  assert (Hp : urllib.urlparse plain_netloc "http://other.org/x/" = Some p)
    by (vm_compute; reflexivity).
  split; [exact Hc|]. split; [exact Hv|]. split.
  { exact (rejected_call_changes_nothing _ _ a _ _ _ Hc (or_introl Hv)). }
  split; [exact Hc'|]. split; [exact Hb|]. split; [exact Hp|].
  apply (rejected_call_changes_nothing _ _ a _ _ _ Hc').
  right. right. exists b, p. split; [exact Hb|]. split; [exact Hp|].
  split; discriminate.
Defined.

Lemma failed_page_witness :
  let url := "http://ex.com/about" in
  let a := ex_world url in
  let s' := set_visited ex_s1 ({[url]} ∪ visited_urls ex_s1) in
  response a = Some (404%Z, mkSoup None [])
  ∧ scrape_page plain_netloc absolute_href a url ex_s1 = (Ok ([], None), s')
  ∧ url ∈ visited_urls s'
  ∧ scrape_page plain_netloc absolute_href (ex_world "http://ex.com") url s'
    = (Ok ([], None), s').
Proof.
  intros url a s'.
  assert (Hfail : page_fails plain_netloc absolute_href s' a url).
  { right. left. exists 404%Z, (mkSoup None []). split; [reflexivity|lia]. }
  assert (Hv : url ∉ visited_urls ex_s1).
  { intros H. vm_compute in H. discriminate H. }
  destruct (failed_page_is_marked_visited plain_netloc absolute_href a url
              ex_s1 url ltac:(vm_compute; reflexivity) Hv
              ltac:(vm_compute; reflexivity) ltac:(reflexivity) Hfail)
    as (H1 & H2 & H3).
  split; [reflexivity|]. split; [exact H1|]. split; [exact H2|].
  by apply H3.
Defined.

Lemma budget_witness :
  let run := ex_crawl 10 (Some 2%Z) in
  let free := ex_crawl 10 None in
  (0 ≤ 2)%Z
  ∧ dequeued run = ["http://ex.com"; "http://ex.com/shop"]
  ∧ (Z.of_nat (length (dequeued run)) ≤ 2)%Z
  ∧ (0 ≤ pages_scraped (final_state run) ≤ 2)%Z
  ∧ final_status run ≠ Running
  ∧ (final_status free = Finished → to_visit (final_state free) = []).
Proof.
  intros run free.
  destruct (budget_respected plain_netloc absolute_href ex_world
              (__init__ ex_base) 10 2 ltac:(lia)) as (H1 & H2 & H3 & H4 & _).
  split; [lia|]. split; [vm_compute; reflexivity|]. split; [exact H1|].
  split; [exact H2|]. split; [apply H3; lia|exact H4].
Defined.

Lemma clean_url_idempotent_witness :
  let url := "http://ex.com/shop/?page=1" in
  urllib.urlparse plain_netloc url
    = Some (urllib.mkParse "http" "ex.com" "/shop/" "" "page=1" "")
  ∧ clean_url plain_netloc url = Some "http://ex.com/shop"
  ∧ clean_url plain_netloc "http://ex.com/shop" = Some "http://ex.com/shop".
Proof.
  intros url.
  assert (Hp : urllib.urlparse plain_netloc url
    = Some (urllib.mkParse "http" "ex.com" "/shop/" "" "page=1" ""))
    by (vm_compute; reflexivity).
  assert (Hc : clean_url plain_netloc url = Some "http://ex.com/shop")
    by (vm_compute; reflexivity).
  split; [exact Hp|]. split; [exact Hc|].
  apply (clean_url_idempotent_with_netloc plain_netloc url _ _ Hp);
    [discriminate|exact Hc|reflexivity].
Defined.

Lemma clean_url_strips_witness :
  let url := "http://a.com/b//?q#f" in
  let parsed := urllib.mkParse "http" "a.com" "/b//" "" "q" "f" in
  urllib.urlparse plain_netloc url = Some parsed
  ∧ urllib.geturl (urllib._replace parsed "" "") = "http://a.com/b//"
  ∧ ∃ c, clean_url plain_netloc url = Some c
      ∧ c = strip_trailing_slashes (urllib.geturl (urllib._replace parsed "" ""))
      ∧ Str.endswith "/"%char c = false
      ∧ Str.has "?"%char c = false ∧ Str.has "#"%char c = false.
Proof.
  intros url parsed.
  assert (Hp : urllib.urlparse plain_netloc url = Some parsed)
    by (vm_compute; reflexivity).
  split; [exact Hp|]. split; [vm_compute; reflexivity|].
  exact (clean_url_strips_every_trailing_slash plain_netloc url parsed Hp).
Defined.


Lemma classification_witness :
  let url := "http://ex.com/shop/product-7" in
  let parsed := urllib.mkParse "http" "ex.com" "/shop/product-7" "" "" "" in
  let url2 := "http://ex.com/SHOP" in
  let parsed2 := urllib.mkParse "http" "ex.com" "/SHOP" "" "" "" in
  urllib.urlparse plain_netloc url = Some parsed
  ∧ product_indicator (urllib.path parsed) ex_shop
  ∧ category_indicator (urllib.path parsed) ex_shop
  ∧ get_page_type plain_netloc url ex_shop = Some "product"
  ∧ urllib.urlparse plain_netloc url2 = Some parsed2
  ∧ ¬ product_indicator (Str.lower (urllib.path parsed2)) ex_shop
  ∧ category_indicator (Str.lower (urllib.path parsed2)) ex_shop
  ∧ get_page_type plain_netloc url2 ex_shop = Some "category".
Proof.
  intros url parsed url2 parsed2.
  assert (Hp : urllib.urlparse plain_netloc url = Some parsed)
    by (vm_compute; reflexivity).
  assert (Hprod : product_indicator (urllib.path parsed) ex_shop).
  { left. by exists "/shop/", "-7". }
  assert (Hcat : category_indicator (urllib.path parsed) ex_shop).
  { right. left. by exists "/", "/product-7". }
  assert (Hp2 : urllib.urlparse plain_netloc url2 = Some parsed2)
    by (vm_compute; reflexivity).
  assert (Hno : ¬ product_indicator (Str.lower (urllib.path parsed2)) ex_shop).
  { intros H. apply (product_test plain_netloc) in H. vm_compute in H.
    discriminate H. }
  assert (Hcat2 : category_indicator (Str.lower (urllib.path parsed2)) ex_shop).
  { right. left. by exists "/", "". }
  split; [exact Hp|]. split; [exact Hprod|]. split; [exact Hcat|]. split.
  { destruct (classification_priority plain_netloc url ex_shop parsed Hp)
      as (t & Ht & _ & _ & _ & _ & _ & _ & Hboth).
    rewrite Ht. f_equal. by apply Hboth. }
  split; [exact Hp2|]. split; [exact Hno|]. split; [exact Hcat2|].
  destruct (classification_priority plain_netloc url2 ex_shop parsed2 Hp2)
    as (t & Ht & _ & _ & Hcategory & _).
  rewrite Ht. f_equal. by apply Hcategory.
Defined.

End Claims_on_the_small_web.

(** * Further properties of the code *)

(** ** Normal forms *)

Section Normal_forms.
Import StrFacts CharFacts UrlFacts.
Local Arguments Ascii.eqb : simpl never.

Variable netloc_check : string -> bool.

(** X1. The normal form of a URL with a network location can be parsed
    again, and has the scheme and the network location of the URL, no
    query and no fragment. *)
Theorem clean_url_keeps_scheme_and_netloc url p :
  urllib.urlparse netloc_check url = Some p → urllib.netloc p ≠ "" →
  ∃ c p', clean_url netloc_check url = Some c
    ∧ urllib.urlparse netloc_check c = Some p'
    ∧ urllib.scheme p' = urllib.scheme p
    ∧ urllib.netloc p' = urllib.netloc p
    ∧ urllib.query p' = "" ∧ urllib.fragment p' = "".
Proof.
  intros Hp Hn.
  destruct (clean_url_reparse netloc_check _ _ Hp Hn) as (c & p' & H1 & _ & H2).
  by exists c, p'.
Qed.

(** *** Query string and fragment do not matter *)

Lemma lstrip_front p s : ∃ front, s = front +:+ Str.lstrip p s.
Proof.
  induction s as [|c s [front IH]]; [by exists ""|]. simpl.
  destruct (p c); [|by exists ""].
  exists (String c front). by rewrite app_cons, <- IH.
Qed.

Lemma lstrip_app_stop p (u : string) d q :
  p d = false →
  Str.lstrip p (u +:+ String d q) = Str.lstrip p u +:+ String d q.
Proof.
  intros Hd. induction u as [|c u IH].
  - rewrite !app_nil_l. simpl. by rewrite Hd.
  - rewrite app_cons. simpl. destruct (p c); [done|]. by rewrite app_cons.
Qed.

Lemma remove_app p (a b : string) :
  Str.remove p (a +:+ b) = Str.remove p a +:+ Str.remove p b.
Proof.
  induction a as [|c a IH]; [done|]. rewrite app_cons. simpl.
  destruct (p c); [done|]. by rewrite app_cons, IH.
Qed.

Lemma remove_has p c s : Str.has c s = false → Str.has c (Str.remove p s) = false.
Proof.
  induction s as [|d s IH]; [done|]. simpl.
  intros [Hd Hs]%orb_false_iff. destruct (p d); [by apply IH|].
  simpl. by rewrite Hd, IH.
Qed.

Lemma partition_app_l c (u t a b : string) :
  Str.partition c u = Some (a, b) → Str.partition c (u +:+ t) = Some (a, b +:+ t).
Proof.
  revert a. induction u as [|d u IH]; intros a H; simpl in H; [done|].
  rewrite app_cons. simpl. destruct (Ascii.eqb d c); [by simplify_eq|].
  destruct (Str.partition c u) as [[a' b']|]; [|done]. simplify_eq.
  by rewrite (IH a' eq_refl).
Qed.

Lemma partition_app_none c (u t : string) :
  Str.partition c u = None →
  Str.partition c (u +:+ t)
  = match Str.partition c t with
    | Some (a, b) => Some (u +:+ a, b)
    | None => None
    end.
Proof.
  induction u as [|d u IH]; intros H; simpl in H.
  - rewrite app_nil_l. by destruct (Str.partition c t) as [[a b]|].
  - rewrite app_cons. simpl. destruct (Ascii.eqb d c); [done|].
    destruct (Str.partition c u) as [[a' b']|]; [done|].
    rewrite (IH eq_refl). by destruct (Str.partition c t) as [[a b]|].
Qed.

Lemma span_app_stop p (s : string) d q :
  p d = false →
  Str.span p (s +:+ String d q)
  = ((Str.span p s).1, (Str.span p s).2 +:+ String d q).
Proof.
  intros Hd. induction s as [|c s IH].
  - rewrite app_nil_l. simpl. by rewrite Hd.
  - rewrite app_cons. simpl. destruct (p c); [|done].
    rewrite IH. by destruct (Str.span p s).
Qed.

(** A tail that starts with a question mark or a hash leaves the scheme
    as it is. *)
Lemma split_scheme_tail (u : string) d q :
  urllib.scheme_char d = false → d ≠ ":"%char →
  urllib.split_scheme (u +:+ String d q)
  = ((urllib.split_scheme u).1, (urllib.split_scheme u).2 +:+ String d q).
Proof.
  intros Hd Hcolon. unfold urllib.split_scheme.
  destruct (Str.partition ":"%char u) as [[front rest]|] eqn:E.
  - rewrite (partition_app_l _ _ _ _ _ E). destruct front as [|c0 r0]; [done|].
    by destruct (Str.is_alpha c0 && Str.all urllib.scheme_char (String c0 r0)).
  - rewrite (partition_app_none _ _ _ E). cbn [fst snd].
    destruct (Str.partition ":"%char (String d q)) as [[a b]|] eqn:Et; [|done].
    apply partition_spec in Et as [Et _].
    destruct a as [|x a]; [rewrite app_nil_l in Et; by simplify_eq|].
    rewrite app_cons in Et. injection Et as <- _.
    assert (Hall : ∀ v : string, Str.all urllib.scheme_char (v +:+ String d a) = false).
    { intros v. by rewrite all_app; simpl; rewrite Hd, andb_false_r. }
    destruct u as [|c0 u].
    + rewrite app_nil_l. simpl. by rewrite Hd, !andb_false_r.
    + rewrite app_cons.
      change (String c0 (u +:+ String d a)) with (String c0 u +:+ String d a).
      by rewrite Hall, andb_false_r.
Qed.

Lemma startswith_slashes_tail (rest : string) d q :
  Ascii.eqb "/"%char d = false →
  Str.startswith "//" (rest +:+ String d q) = Str.startswith "//" rest.
Proof.
  intros Hd. destruct rest as [|a [|b r]]; simpl.
  - by rewrite Hd.
  - destruct (Ascii.eqb "/"%char a); simpl; [by rewrite Hd|done].
  - done.
Qed.

(** The scheme, the network location and the path of a URL with a query
    string or a fragment appended. *)
Lemma urlsplit_tail (u : string) d q :
  d = "?"%char ∨ d = "#"%char →
  Str.has "?"%char u = false → Str.has "#"%char u = false →
  match urllib.urlsplit netloc_check u,
        urllib.urlsplit netloc_check (u +:+ String d q) with
  | Some r, Some r' =>
      urllib.s_scheme r' = urllib.s_scheme r
      ∧ urllib.s_netloc r' = urllib.s_netloc r
      ∧ urllib.s_path r' = urllib.s_path r
  | None, None => True
  | _, _ => False
  end.
Proof.
  intros Hd Hq Hf.
  assert (Hd' : urllib.C0_CONTROL_OR_SPACE d = false
                ∧ urllib.UNSAFE_URL_BYTE d = false
                ∧ urllib.scheme_char d = false
                ∧ Ascii.eqb "/"%char d = false
                ∧ nondelim d = false ∧ d ≠ ":"%char)
    by (destruct Hd as [-> | ->]; repeat split; done).
  destruct Hd' as (H1 & H2 & H3 & H4 & H5 & H6).
  unfold urllib.urlsplit.
  rewrite (lstrip_app_stop _ _ _ _ H1), remove_app.
  assert (Htail : ∃ q', Str.remove urllib.UNSAFE_URL_BYTE (String d q) = String d q').
  { simpl. rewrite H2. eauto. }
  destruct Htail as [q' ->].
  destruct (lstrip_front urllib.C0_CONTROL_OR_SPACE u) as [front Hfront].
  assert (Hq1 : Str.has "?"%char (Str.remove urllib.UNSAFE_URL_BYTE
                  (Str.lstrip urllib.C0_CONTROL_OR_SPACE u)) = false).
  { apply remove_has. rewrite Hfront, has_app in Hq.
    by apply orb_false_iff in Hq as [_ ?]. }
  assert (Hf1 : Str.has "#"%char (Str.remove urllib.UNSAFE_URL_BYTE
                  (Str.lstrip urllib.C0_CONTROL_OR_SPACE u)) = false).
  { apply remove_has. rewrite Hfront, has_app in Hf.
    by apply orb_false_iff in Hf as [_ ?]. }
  revert Hq1 Hf1. generalize (Str.remove urllib.UNSAFE_URL_BYTE
                  (Str.lstrip urllib.C0_CONTROL_OR_SPACE u)).
  clear front Hfront Hq Hf q. intros u1 Hq Hf.
  rewrite (split_scheme_tail _ _ _ H3 H6).
  destruct (urllib.split_scheme u1) as [scheme u2] eqn:Es. cbn [fst snd].
  apply split_scheme_spec in Es as [_ [front ->]].
  rewrite has_app in Hq, Hf.
  apply orb_false_iff in Hq as [_ Hq]. apply orb_false_iff in Hf as [_ Hf].
  rewrite (startswith_slashes_tail _ _ _ H4).
  assert (Hcut : ∀ netloc u3, Str.has "?"%char u3 = false →
    Str.has "#"%char u3 = false →
    match
      (if urllib.netloc_valid netloc_check netloc
       then let '(url, fragment) := urllib.cut "#"%char u3 in
            let '(url0, query) := urllib.cut "?"%char url in
            Some (urllib.mkSplit scheme netloc url0 query fragment)
       else None),
      (if urllib.netloc_valid netloc_check netloc
       then let '(url, fragment) := urllib.cut "#"%char (u3 +:+ String d q') in
            let '(url0, query) := urllib.cut "?"%char url in
            Some (urllib.mkSplit scheme netloc url0 query fragment)
       else None)
    with
    | Some r, Some r' =>
        urllib.s_scheme r' = urllib.s_scheme r
        ∧ urllib.s_netloc r' = urllib.s_netloc r
        ∧ urllib.s_path r' = urllib.s_path r
    | None, None => True
    | _, _ => False
    end).
  { intros netloc u3 Hq3 Hf3.
    destruct (urllib.netloc_valid netloc_check netloc); [|done].
    rewrite (cut_absent _ _ Hf3), (cut_absent _ _ Hq3).
    destruct Hd as [-> | ->].
    - destruct (urllib.cut "#"%char (u3 +:+ String "?"%char q')) as [u4 f] eqn:Ec.
      assert (∃ q1, u4 = u3 +:+ String "?"%char q1) as [q1 ->].
      { unfold urllib.cut in Ec.
        destruct (Str.partition "#"%char (u3 +:+ String "?"%char q'))
          as [[a b]|] eqn:Ep; simplify_eq; [|eauto].
        apply partition_none in Hf3.
        rewrite (partition_app_none _ _ _ Hf3) in Ep.
        destruct (Str.partition "#"%char (String "?"%char q')) as [[a' b']|] eqn:Et;
          [|done].
        simplify_eq. simpl in Et.
        change (Ascii.eqb "?"%char "#"%char) with false in Et.
        destruct (Str.partition "#"%char q') as [[a'' b'']|]; simplify_eq. eauto. }
      unfold urllib.cut at 1. by rewrite (partition_app _ _ _ Hq3).
    - unfold urllib.cut at 1. rewrite (partition_app _ _ _ Hf3).
      by rewrite (cut_absent _ _ Hq3). }
  destruct (Str.startswith "//" u2) eqn:Est; [|by apply Hcut].
  destruct u2 as [|a [|b r2]];
    [done|simpl in Est; by rewrite andb_false_r in Est|].
  rewrite !app_cons. unfold urllib._splitnetloc.
  change (fun c => negb (urllib.netloc_delim c)) with nondelim.
  rewrite (span_app_stop _ _ _ _ H5).
  destruct (Str.span nondelim r2) as [netloc u3] eqn:Esp. cbn [fst snd].
  apply span_spec in Esp as (-> & _ & _). simpl in Hq, Hf.
  apply orb_false_iff in Hq as [_ Hq]. apply orb_false_iff in Hq as [_ Hq].
  apply orb_false_iff in Hf as [_ Hf]. apply orb_false_iff in Hf as [_ Hf].
  rewrite has_app in Hq, Hf.
  apply orb_false_iff in Hq as [_ Hq]. apply orb_false_iff in Hf as [_ Hf].
  by apply Hcut.
Qed.

(** [clean_url] looks at the scheme, the network location and the path
    only. *)
Lemma clean_url_split_ext u u' :
  match urllib.urlsplit netloc_check u, urllib.urlsplit netloc_check u' with
  | Some r, Some r' =>
      urllib.s_scheme r' = urllib.s_scheme r
      ∧ urllib.s_netloc r' = urllib.s_netloc r
      ∧ urllib.s_path r' = urllib.s_path r
  | None, None => True
  | _, _ => False
  end →
  clean_url netloc_check u' = clean_url netloc_check u.
Proof.
  unfold clean_url, urllib.urlparse.
  destruct (urllib.urlsplit netloc_check u) as [[s1 n1 p1 q1 f1]|],
           (urllib.urlsplit netloc_check u') as [[s2 n2 p2 q2 f2]|];
    try done.
  cbn [urllib.s_scheme urllib.s_netloc urllib.s_path]. intros (-> & -> & ->).
  destruct (urllib.mem s1 urllib.uses_params && Str.has ";"%char p1);
    [destruct (urllib._splitparams p1)|]; reflexivity.
Qed.

(** X2. URLs that differ by a query string or a fragment only have the
    same normal form: appending a question mark and a query, or a hash and
    a fragment, to a URL that has neither changes nothing, also when
    parsing raises. *)
Theorem clean_url_ignores_query_and_fragment u q f :
  Str.has "?"%char u = false → Str.has "#"%char u = false →
  clean_url netloc_check (u +:+ "?" +:+ q) = clean_url netloc_check u
  ∧ clean_url netloc_check (u +:+ "#" +:+ f) = clean_url netloc_check u.
Proof.
  intros Hq Hf. split; apply clean_url_split_ext.
  - apply (urlsplit_tail u "?"%char q); auto.
  - apply (urlsplit_tail u "#"%char f); auto.
Qed.

End Normal_forms.

(** ** The seed the command line accepts, and the directory of a page *)

Section Seed_and_key.
Import StrFacts CharFacts UrlFacts.
Local Arguments Ascii.eqb : simpl never.

Context {unicode : Unicode}.

Variable netloc_check : string -> bool.

(** The scheme [urlsplit] returns is the one [split_scheme] finds. *)
Lemma urlsplit_scheme url r :
  urllib.urlsplit netloc_check url = Some r →
  urllib.s_scheme r
  = (urllib.split_scheme
       (Str.remove urllib.UNSAFE_URL_BYTE
          (Str.lstrip urllib.C0_CONTROL_OR_SPACE url))).1.
Proof.
  unfold urllib.urlsplit.
  destruct (urllib.split_scheme _) as [scheme u2].
  destruct (if Str.startswith "//" u2 then _ else _) as [netloc u3].
  destruct (urllib.netloc_valid netloc_check netloc); [|done].
  destruct (urllib.cut "#"%char u3) as [u4 f].
  destruct (urllib.cut "?"%char u4) as [u5 q].
  by intros ?; simplify_eq.
Qed.

Lemma split_scheme_prefixed (scheme rest : string) :
  scheme_ok scheme → scheme ≠ "" →
  (urllib.split_scheme
     (Str.remove urllib.UNSAFE_URL_BYTE
        (Str.lstrip urllib.C0_CONTROL_OR_SPACE (scheme +:+ ":" +:+ rest)))).1
  = scheme.
Proof.
  intros Hok Hne. destruct scheme as [|c s]; [done|].
  destruct Hok as (Ha & Hs & Hl).
  assert (Hhead : stops urllib.C0_CONTROL_OR_SPACE (String c s +:+ ":" +:+ rest)).
  { rewrite app_cons. simpl. apply alpha_scheme_char in Ha.
    by apply scheme_char_plain in Ha as (_ & _ & ? & _). }
  rewrite (lstrip_stops _ _ Hhead), remove_app.
  rewrite (remove_none _ (String c s)).
  2:{ revert Hs. apply all_impl. intros d Hd.
      by apply scheme_char_plain in Hd as (_ & ? & _). }
  change (Str.remove urllib.UNSAFE_URL_BYTE (":" +:+ rest))
    with (":" +:+ Str.remove urllib.UNSAFE_URL_BYTE rest).
  by rewrite split_scheme_rebuild.
Qed.

(** X3. A seed that [validate_url] accepts has the scheme [http] or
    [https] when [urlparse] reads it. *)
Theorem validated_seed_is_http url parsed :
  validate_url url = true →
  urllib.urlparse netloc_check url = Some parsed →
  urllib.scheme parsed = "http" ∨ urllib.scheme parsed = "https".
Proof.
  unfold validate_url. intros Hv Hp.
  apply urlparse_spec in Hp as (r & Hr & -> & _).
  rewrite (urlsplit_scheme _ _ Hr).
  apply orb_true_iff in Hv as [Hv|Hv]; apply startswith_spec in Hv as [rest ->].
  - left. apply (split_scheme_prefixed "http" ("//" +:+ rest)); [|done].
    by repeat split.
  - right. apply (split_scheme_prefixed "https" ("//" +:+ rest)); [|done].
    by repeat split.
Qed.




End Seed_and_key.

(** ** What a crawl keeps *)

Lemma register_fields s page :
  base_url (register s page) = base_url s
  ∧ visited_urls (register s page) = visited_urls s
  ∧ page_hierarchy (register s page)
    = <[pd_url page := mkNode (pd_path page) (pd_title page) (pd_type page) []]>
        (page_hierarchy s)
  ∧ product_pages s ⊆ product_pages (register s page)
  ∧ category_pages s ⊆ category_pages (register s page)
  ∧ content_pages s ⊆ content_pages (register s page).
Proof.
  unfold register, add_to_page_set.
  destruct (String.eqb (pd_type page) "product");
    [|destruct (String.eqb (pd_type page) "category")];
    simpl; repeat split; set_solver.
Qed.

Section Crawl_keeps.

Context {unicode : Unicode}.

Variable netloc_check : string -> bool.
Variable urljoin : string -> string -> option string.

(** The ways a call of [scrape_page] ends, with what it returns. *)
Lemma scrape_page_cases a url s r s' :
  scrape_page netloc_check urljoin a url s = (r, s') →
  (s' = s ∧ (r = Raise ∨ r = Ok ([], None)))
  ∨ ∃ clean,
      clean_url netloc_check url = Some clean ∧ clean ∉ visited_urls s
      ∧ is_valid_url netloc_check s clean = Some true
      ∧ ((s' = set_visited s ({[clean]} ∪ visited_urls s)
          ∧ (r = Raise ∨ r = Ok ([], None)))
         ∨ ∃ links page,
             fetch_page netloc_check urljoin
               (set_visited s ({[clean]} ∪ visited_urls s)) a url clean
             = Some (links, page)
             ∧ r = Ok (links, Some page)
             ∧ s' = register (set_visited s ({[clean]} ∪ visited_urls s)) page).
Proof.
  unfold scrape_page. intros H.
  destruct (clean_url netloc_check url) as [clean|] eqn:Hc;
    [|simplify_eq; auto].
  case_bool_decide as Hv; [simplify_eq; auto|].
  destruct (is_valid_url _ s clean) as [[]|] eqn:Hval;
    [|simplify_eq; auto..].
  right. exists clean. repeat split; try done.
  destruct (create_page_directory _ _ _); [|simplify_eq; auto].
  destruct (fetch_page _ _ _ _ _ _) as [[links page]|] eqn:Hf; simplify_eq;
    [right|left]; eauto.
Qed.

Lemma get_page_type_values url soup t :
  get_page_type netloc_check url soup = Some t →
  t = "product" ∨ t = "category" ∨ t = "content".
Proof.
  unfold get_page_type.
  destruct (urllib.urlparse netloc_check url); [|done]. simpl.
  repeat match goal with
         | |- context [if ?b then _ else _] => destruct b
         end; intros ?; simplify_eq; auto.
Qed.

(** What a successful request returns. *)
Lemma fetch_page_spec s a url clean links page :
  fetch_page netloc_check urljoin s a url clean = Some (links, page) →
  pd_url page = clean ∧ pd_original_url page = url
  ∧ links = l_url <$> pd_links page
  ∧ (pd_type page = "product" ∨ pd_type page = "category"
     ∨ pd_type page = "content")
  ∧ ∃ soup, response a = Some (200%Z, soup)
      ∧ get_page_type netloc_check clean soup = Some (pd_type page)
      ∧ find_links netloc_check urljoin s url (find_all soup "a")
        = Some (pd_links page).
Proof.
  unfold fetch_page. intros H.
  destruct (response a) as [[code soup]|]; simpl in H; [|done].
  destruct (negb (code =? 200)%Z) eqn:Ecode; [done|].
  apply negb_false_iff, Z.eqb_eq in Ecode as ->.
  destruct (get_page_type netloc_check clean soup) as [t|] eqn:Et;
    simpl in H; [|done].
  destruct (negb (write_ok a)); [done|].
  destruct (find_links _ _ _ _ _) as [ld|] eqn:El; simpl in H; [|done].
  destruct (get_page_path netloc_check clean); simpl in H; [|done].
  simplify_eq. simpl. repeat split; try done.
  - by eapply get_page_type_values.
  - by exists soup.
Qed.

Lemma is_valid_url_base s1 s2 url :
  base_url s1 = base_url s2 →
  is_valid_url netloc_check s1 url = is_valid_url netloc_check s2 url.
Proof. unfold is_valid_url. by intros ->. Qed.

(** X5. The crawl stays on the domain of its seed: in every state of a
    crawl, every visited URL passes [is_valid_url], that is, it has the
    network location of the seed. *)
Theorem visited_urls_are_on_the_seed_domain base s c :
  reachable netloc_check urljoin base s → c ∈ visited_urls s →
  is_valid_url netloc_check s c = Some true.
Proof.
  intros Hr. revert c.
  induction Hr as [|s a url r s' _ IH H|s cur link r s' _ IH H]; intros c Hc.
  - by apply not_elem_of_empty in Hc.
  - apply scrape_page_cases in H
      as [[-> _]|(cl & _ & _ & Hval & [[-> _]|(l & p & _ & _ & ->)])].
    + by apply IH.
    + simpl in Hc. apply elem_of_union in Hc as [->%elem_of_singleton|Hc];
        [done|by apply IH].
    + destruct (register_fields
                  (set_visited s ({[cl]} ∪ visited_urls s)) p) as (Hb & Hv & _).
      rewrite Hv in Hc. simpl in Hc.
      rewrite (is_valid_url_base _ s) by (by rewrite Hb).
      apply elem_of_union in Hc as [->%elem_of_singleton|Hc];
        [done|by apply IH].
  - apply record_child_frame in H as (Hv & Hb & _).
    rewrite Hv in Hc. rewrite (is_valid_url_base _ s) by done. by apply IH.
Qed.

Lemma listed_by_type_register s page :
  listed_by_type s → pd_url page ∉ dom (page_hierarchy s) →
  pd_type page = "product" ∨ pd_type page = "category"
  ∨ pd_type page = "content" →
  listed_by_type (register s page).
Proof.
  intros Hl Hfresh Hty k n Hk.
  destruct (register_fields s page) as (_ & _ & Hh & Hp & Hc & Hn).
  rewrite Hh in Hk. destruct (decide (pd_url page = k)) as [<-|Hne].
  - rewrite lookup_insert_eq in Hk. simplify_eq. simpl.
    unfold register, add_to_page_set.
    destruct Hty as [E|[E|E]]; rewrite E; simpl; set_solver.
  - rewrite lookup_insert_ne in Hk by done.
    destruct (Hl _ _ Hk) as [[? ?]|[[? ?]|[? ?]]]; set_solver.
Qed.

(** X6. The listings agree with the hierarchy: in every state of a crawl
    the type of each node is one of [product], [category] and [content],
    and the page is a member of the set of that type. *)
Theorem pages_are_listed_by_type base s :
  reachable netloc_check urljoin base s → listed_by_type s.
Proof.
  intros Hr.
  induction Hr as [|s a url r s' Hr IH H|s cur link r s' Hr IH H].
  - intros k n Hk. done.
  - apply reachable_inv in Hr as (Hh & _).
    apply scrape_page_cases in H
      as [[-> _]|(cl & _ & Hfresh & _ & [[-> _]|(l & p & Hf & _ & ->)])];
      [done|done|].
    apply fetch_page_spec in Hf as (Hu & _ & _ & Hty & _).
    apply listed_by_type_register; [done| |done].
    simpl. rewrite Hu. intros Hin. apply Hfresh. by apply Hh.
  - intros k n Hk. unfold record_child in H.
    destruct (clean_url netloc_check (l_url link)) as [t|]; [|by simplify_eq; apply IH].
    case_bool_decide; [|by simplify_eq; apply IH].
    destruct (page_hierarchy s !! cur) as [node|] eqn:Hcur;
      [|by simplify_eq; apply IH].
    simplify_eq. simpl in *. destruct (decide (cur = k)) as [->|Hne].
    + rewrite lookup_insert_eq in Hk. simplify_eq. simpl. by apply IH.
    + rewrite lookup_insert_ne in Hk by done. by apply IH.
Qed.

(** X7. The hierarchy has no dangling edge: in every state of a crawl,
    every child recorded in a node is itself a key of the hierarchy. *)
Theorem hierarchy_children_are_nodes base s k node t :
  reachable netloc_check urljoin base s →
  page_hierarchy s !! k = Some node → t ∈ children node →
  is_Some (page_hierarchy s !! t).
Proof.
  intros Hr Hk Ht. apply reachable_inv in Hr as (_ & _ & Hc).
  apply elem_of_dom. by eapply Hc.
Qed.

End Crawl_keeps.

(** ** Nothing is taken back *)

Section Crawl_growth.

Context {unicode : Unicode}.

Variable netloc_check : string -> bool.
Variable urljoin : string -> string -> option string.

Ltac grows_split := split; [|split; [|split; [|split; [|split]]]].

Lemma node_grows_refl n : node_grows n n.
Proof.
  split; [done|]. split; [done|]. split; [done|].
  exists []. by rewrite (right_id_L [] (++)).
Qed.

Lemma node_grows_trans n1 n2 n3 :
  node_grows n1 n2 → node_grows n2 n3 → node_grows n1 n3.
Proof.
  intros (a1 & a2 & a3 & m1 & H1) (b1 & b2 & b3 & m2 & H2).
  split; [congruence|]. split; [congruence|]. split; [congruence|].
  exists (m1 ++ m2). by rewrite H2, H1, (assoc_L (++)).
Qed.

Lemma scraper_grows_refl s : scraper_grows s s.
Proof.
  grows_split; try done. intros k n Hk. exists n. split; [done|].
  apply node_grows_refl.
Qed.

Lemma scraper_grows_trans s1 s2 s3 :
  scraper_grows s1 s2 → scraper_grows s2 s3 → scraper_grows s1 s3.
Proof.
  intros (a1 & a2 & a3 & a4 & a5 & a6) (b1 & b2 & b3 & b4 & b5 & b6).
  grows_split; [congruence|by etrans..|].
  intros k n Hk. destruct (a6 _ _ Hk) as (n2 & Hk2 & Hg2).
  destruct (b6 _ _ Hk2) as (n3 & Hk3 & Hg3). exists n3. split; [done|].
  by eapply node_grows_trans.
Qed.

Lemma scrape_page_grows a url s r s' :
  crawl_inv s → scrape_page netloc_check urljoin a url s = (r, s') →
  scraper_grows s s'.
Proof.
  intros (Hh & _) H.
  apply scrape_page_cases in H
    as [[-> _]|(cl & _ & Hfresh & _ & [[-> _]|(l & p & Hf & _ & ->)])].
  - apply scraper_grows_refl.
  - grows_split; simpl; try done.
    + apply union_subseteq_r.
    + intros k n Hk. exists n. split; [done|apply node_grows_refl].
  - apply fetch_page_spec in Hf as (Hu & _).
    destruct (register_fields (set_visited s ({[cl]} ∪ visited_urls s)) p)
      as (Hb & Hv & Hhier & Hp & Hc & Hn).
    grows_split; try done.
    + rewrite Hv. simpl. apply union_subseteq_r.
    + intros k n Hk. exists n. split; [|apply node_grows_refl].
      rewrite Hhier. simpl. rewrite lookup_insert_ne; [done|].
      intros <-. apply Hfresh, Hh, elem_of_dom. rewrite <- Hu. eauto.
Qed.

Lemma record_child_grows cur link s r s' :
  record_child netloc_check cur link s = (r, s') → scraper_grows s s'.
Proof.
  unfold record_child. intros H.
  destruct (clean_url netloc_check (l_url link)) as [t|];
    [|simplify_eq; apply scraper_grows_refl].
  case_bool_decide; [|simplify_eq; apply scraper_grows_refl].
  destruct (page_hierarchy s !! cur) as [node|] eqn:Hcur;
    [|simplify_eq; apply scraper_grows_refl].
  simplify_eq. grows_split; try done. simpl. intros k n Hk.
  destruct (decide (cur = k)) as [->|Hne].
  - rewrite lookup_insert_eq. eexists. split; [done|].
    simplify_eq. split; [done|]. split; [done|]. split; [done|].
    by exists [t].
  - rewrite lookup_insert_ne by done. exists n. split; [done|].
    apply node_grows_refl.
Qed.

Lemma record_children_grows cur links : ∀ s r s',
  record_children netloc_check cur links s = (r, s') → scraper_grows s s'.
Proof.
  induction links as [|link rest IH]; intros s r s' H; simpl in H.
  - simplify_eq. apply scraper_grows_refl.
  - destruct (record_child netloc_check cur link s) as [[[]|] s1] eqn:H1.
    + eapply scraper_grows_trans; [by eapply record_child_grows|by eapply IH].
    + simplify_eq. by eapply record_child_grows.
Qed.

(** The ways an iteration of the loop ends. *)
Lemma loop_body_cases w cur ls r ls' :
  loop_body netloc_check urljoin w cur ls = (r, ls') →
  let s := self_ ls in
  ∃ out s1,
    scrape_page netloc_check urljoin (w cur) cur s = (out, s1)
    ∧ ((((out = Raise ∧ r = Raise
          ∧ ls' = mkLoop (to_visit ls) (pages_scraped ls) s1)
         ∨ (out = Ok ([], None) ∧ r = Ok tt
            ∧ ls' = mkLoop (to_visit ls) (pages_scraped ls + 1)%Z s1))
        ∧ (s1 = s
           ∨ ∃ c, clean_url netloc_check cur = Some c ∧ c ∉ visited_urls s
               ∧ is_valid_url netloc_check s c = Some true
               ∧ s1 = set_visited s ({[c]} ∪ visited_urls s)))
       ∨ ∃ links page c r2 s2,
           out = Ok (links, Some page)
           ∧ clean_url netloc_check cur = Some c ∧ c ∉ visited_urls s
           ∧ is_valid_url netloc_check s c = Some true
           ∧ fetch_page netloc_check urljoin
               (set_visited s ({[c]} ∪ visited_urls s)) (w cur) cur c
             = Some (links, page)
           ∧ s1 = register (set_visited s ({[c]} ∪ visited_urls s)) page
           ∧ record_children netloc_check c (pd_links page) s1 = (r2, s2)
           ∧ ((r = Raise ∧ ls' = mkLoop (to_visit ls) (pages_scraped ls) s2
               ∧ (r2 = Raise
                  ∨ enqueue netloc_check s2 links (to_visit ls) = None))
              ∨ ∃ tv, r2 = Ok tt
                  ∧ enqueue netloc_check s2 links (to_visit ls) = Some tv
                  ∧ r = Ok tt
                  ∧ ls' = mkLoop tv (pages_scraped ls + 1)%Z s2)).
Proof.
  intros H. cbv zeta. unfold loop_body in H.
  destruct (scrape_page _ _ _ _ _) as [out s1] eqn:H1.
  exists out, s1. split; [done|].
  pose proof (scrape_page_cases _ _ _ _ _ _ _ H1) as Hcases.
  destruct Hcases
    as [[Hs1 [->| ->]]
       |(c & Hc & Hfresh & Hval
         & [[Hs1 [->| ->]]|(links & page & Hf & -> & Hs1)])].
  - left. split; [left; by simplify_eq|by left].
  - left. split; [right; simpl in H; by simplify_eq|by left].
  - left. split; [left; by simplify_eq|right; by exists c].
  - left. split; [right; simpl in H; by simplify_eq|right; by exists c].
  - right. rewrite Hc in H.
    destruct (record_children netloc_check c (pd_links page) s1)
      as [r2 s2] eqn:H2.
    exists links, page, c, r2, s2. do 6 (split; [done|]). split; [done|].
    destruct r2 as [[]|].
    + destruct (enqueue netloc_check s2 links (to_visit ls)) as [tv|] eqn:He;
        simplify_eq; [right; by exists tv|left; auto].
    + left. simplify_eq. auto.
Qed.

Lemma loop_body_grows base w cur ls r ls' :
  reachable netloc_check urljoin base (self_ ls) →
  loop_body netloc_check urljoin w cur ls = (r, ls') →
  scraper_grows (self_ ls) (self_ ls').
Proof.
  intros Hr H. apply reachable_inv in Hr.
  apply loop_body_cases in H as (out & s1 & H1 & Hcase).
  apply scrape_page_grows in H1; [|done].
  destruct Hcase
    as [[[(_ & _ & ->)|(_ & _ & ->)] _]
       |(links & page & c & r2 & s2 & _ & _ & _ & _ & _ & _ & H2 & Hend)];
    [done|done|].
  apply record_children_grows in H2.
  assert (self_ ls' = s2) as ->
    by (destruct Hend as [(_ & -> & _)|(tv & _ & _ & _ & ->)]; done).
  by eapply scraper_grows_trans.
Qed.

Lemma crawl_loop_grows base max_pages w fuel : ∀ ls st ls' trace,
  reachable netloc_check urljoin base (self_ ls) →
  crawl_loop netloc_check urljoin fuel max_pages w ls = (st, ls', trace) →
  scraper_grows (self_ ls) (self_ ls').
Proof.
  induction fuel as [|fuel IH]; intros ls st ls' trace Hs H; simpl in H.
  - destruct (loop_test max_pages ls); simplify_eq; apply scraper_grows_refl.
  - destruct (loop_test max_pages ls);
      [|simplify_eq; apply scraper_grows_refl].
    destruct (to_visit ls) as [|cur rest];
      [simplify_eq; apply scraper_grows_refl|].
    destruct (loop_body netloc_check urljoin w cur _) as [[[]|] ls1] eqn:Hb.
    + destruct (crawl_loop _ _ fuel max_pages w ls1) as [[st2 ls2] tr2] eqn:Hl.
      assert (Hs1 : reachable netloc_check urljoin base (self_ ls1))
        by (eapply loop_body_reachable; [|exact Hb]; exact Hs).
      apply (loop_body_grows base) in Hb; [|done].
      apply IH in Hl; [|done]. simplify_eq.
      by eapply scraper_grows_trans.
    + apply (loop_body_grows base) in Hb; [|done]. by simplify_eq.
Qed.

(** X8. Nothing is taken back: from a state of a crawl, a call of
    [scrape_page], the recording of a link and any run of the loop keep the
    seed, only add to the visited set and to the three page sets, and keep
    every node of the hierarchy with its path, title and type, its list of
    children only growing at the end. *)
Theorem nothing_is_taken_back base s :
  reachable netloc_check urljoin base s →
  (∀ a url r s',
     scrape_page netloc_check urljoin a url s = (r, s') → scraper_grows s s')
  ∧ (∀ cur link r s',
       record_child netloc_check cur link s = (r, s') → scraper_grows s s')
  ∧ (∀ fuel max_pages w frontier count st ls' trace,
       crawl_loop netloc_check urljoin fuel max_pages w
         (mkLoop frontier count s) = (st, ls', trace) →
       scraper_grows s (self_ ls')).
Proof.
  intros Hr. split; [|split].
  - intros a url r s' H. eapply scrape_page_grows; [|done].
    by eapply reachable_inv.
  - intros cur link r s' H. by eapply record_child_grows.
  - intros fuel max_pages w frontier count st ls' trace H.
    by apply (crawl_loop_grows base) in H.
Qed.

End Crawl_growth.

(** ** The links of a page, and the bookkeeping of the loop *)

Section Page_links.

Context {unicode : Unicode}.

Variable netloc_check : string -> bool.
Variable urljoin : string -> string -> option string.

Lemma is_valid_url_true_iff s url :
  is_valid_url netloc_check s url = Some true
  ↔ Str.nonempty url = true
    ∧ ∃ b u, urllib.urlparse netloc_check (base_url s) = Some b
        ∧ urllib.urlparse netloc_check url = Some u
        ∧ urllib.netloc b = urllib.netloc u.
Proof.
  unfold is_valid_url. destruct (Str.nonempty url); simpl.
  2:{ split; [done|]. by intros [? _]. }
  destruct (urllib.urlparse netloc_check (base_url s)) as [b|]; simpl.
  2:{ split; [done|]. by intros (_ & b & u & ? & _). }
  destruct (urllib.urlparse netloc_check url) as [u|]; simpl.
  2:{ split; [done|]. by intros (_ & b' & u & _ & ? & _). }
  split.
  - intros [= H%String.eqb_eq]. split; [done|]. by exists b, u.
  - intros (_ & b' & u' & [= <-] & [= <-] & ->). by rewrite String.eqb_refl.
Qed.

Lemma clean_url_is_Some url p :
  urllib.urlparse netloc_check url = Some p →
  is_Some (clean_url netloc_check url).
Proof. unfold clean_url. intros ->. simpl. eauto. Qed.

(** The normal form of a URL on the domain of the seed is on the domain of
    the seed, when the seed has a network location. *)
Lemma clean_url_stays_valid s b url :
  urllib.urlparse netloc_check (base_url s) = Some b → urllib.netloc b ≠ "" →
  is_valid_url netloc_check s url = Some true →
  ∃ c p, clean_url netloc_check url = Some c
    ∧ is_valid_url netloc_check s c = Some true
    ∧ urllib.urlparse netloc_check c = Some p
    ∧ urllib.netloc p = urllib.netloc b
    ∧ urllib.query p = "" ∧ urllib.fragment p = "".
Proof.
  intros Hb Hn (_ & b' & u & Hb' & Hu & Hnet)%is_valid_url_true_iff.
  rewrite Hb in Hb'. injection Hb' as <-.
  destruct (clean_url_reparse netloc_check url u Hu)
    as (c & p & Hc & Hne & Hp & _ & Hnet' & Hq & Hf); [congruence|].
  exists c, p. split; [done|]. split.
  { apply is_valid_url_true_iff. split; [done|]. exists b, p.
    split; [done|]. split; [done|]. congruence. }
  split; [done|]. split; [congruence|]. done.
Qed.

(** Every link [find_links] returns is the normal form of the absolute
    URL of an anchor that [is_valid_url] accepts. *)
Lemma find_links_spec s url anchors : ∀ ld,
  find_links netloc_check urljoin s url anchors = Some ld →
  ∀ l, l ∈ ld →
    ∃ tag href abs, tag ∈ anchors ∧ get "href" (tag_attrs tag) = Some href
      ∧ urljoin url href = Some abs
      ∧ is_valid_url netloc_check s abs = Some true
      ∧ clean_url netloc_check abs = Some (l_url l)
      ∧ l_text l = tag_text tag.
Proof.
  induction anchors as [|link rest IH]; intros ld H l Hl; simpl in H.
  - simplify_eq. by apply elem_of_nil in Hl.
  - assert (Hrest : ∀ ld', find_links netloc_check urljoin s url rest = Some ld' →
              l ∈ ld' →
              ∃ tag href abs, tag ∈ link :: rest
                ∧ get "href" (tag_attrs tag) = Some href
                ∧ urljoin url href = Some abs
                ∧ is_valid_url netloc_check s abs = Some true
                ∧ clean_url netloc_check abs = Some (l_url l)
                ∧ l_text l = tag_text tag).
    { intros ld' H' Hl'.
      destruct (IH _ H' _ Hl') as (tag & href & abs & Hin & Hrem).
      exists tag, href, abs. split; [by right|done]. }
    destruct (get "href" (tag_attrs link)) as [href|] eqn:Hh; [|eauto].
    destruct (Str.nonempty href); [|eauto].
    destruct (urljoin url href) as [abs|] eqn:Hj; simpl in H; [|done].
    destruct (is_valid_url netloc_check s abs) as [[]|] eqn:Hv; simpl in H;
      [|eauto|done].
    destruct (clean_url netloc_check abs) as [c|] eqn:Hc; simpl in H; [|done].
    destruct (find_links netloc_check urljoin s url rest) as [more|] eqn:Hm;
      simpl in H; [|done].
    simplify_eq. apply elem_of_cons in Hl as [->|Hl]; [|eauto].
    exists link, href, abs. simpl. split; [by left|done].
Qed.

Lemma find_links_length s url anchors : ∀ ld,
  find_links netloc_check urljoin s url anchors = Some ld →
  length ld ≤ length anchors.
Proof.
  induction anchors as [|link rest IH]; intros ld H; simpl in H.
  - by simplify_eq.
  - assert (Hrest : find_links netloc_check urljoin s url rest = Some ld →
              length ld ≤ length (link :: rest)).
    { intros H'. apply IH in H'. simpl. lia. }
    destruct (get "href" (tag_attrs link)) as [href|]; [|auto].
    destruct (Str.nonempty href); [|auto].
    destruct (urljoin url href) as [abs|]; simpl in H; [|done].
    destruct (is_valid_url netloc_check s abs) as [[]|]; simpl in H;
      [|auto|done].
    destruct (clean_url netloc_check abs) as [c|]; simpl in H; [|done].
    destruct (find_links netloc_check urljoin s url rest) as [more|] eqn:Hm;
      simpl in H; [|done].
    simplify_eq. simpl. specialize (IH _ eq_refl). lia.
Qed.

Lemma find_links_base s1 s2 url anchors :
  base_url s1 = base_url s2 →
  find_links netloc_check urljoin s1 url anchors
  = find_links netloc_check urljoin s2 url anchors.
Proof.
  intros Hb. induction anchors as [|link rest IH]; [done|]. simpl.
  rewrite IH. destruct (get "href" (tag_attrs link)) as [href|]; [|done].
  destruct (Str.nonempty href); [|done].
  destruct (urljoin url href) as [abs|]; simpl; [|done].
  by rewrite (is_valid_url_base netloc_check s1 s2 abs Hb).
Qed.

(** X9. With a seed that has a network location, every link a call of
    [scrape_page] returns is on the domain of the seed: it parses, its
    network location is the one of the seed, it has no query and no
    fragment, and [is_valid_url] accepts it. *)
Theorem returned_links_are_on_the_seed_domain a url s b links page s' l :
  urllib.urlparse netloc_check (base_url s) = Some b → urllib.netloc b ≠ "" →
  scrape_page netloc_check urljoin a url s = (Ok (links, Some page), s') →
  l ∈ links →
  is_valid_url netloc_check s' l = Some true
  ∧ ∃ p, urllib.urlparse netloc_check l = Some p
      ∧ urllib.netloc p = urllib.netloc b
      ∧ urllib.query p = "" ∧ urllib.fragment p = "".
Proof.
  intros Hb Hn H Hl.
  apply scrape_page_cases in H
    as [[_ [?|?]]|(c & _ & _ & _ & [[_ [?|?]]|(l0 & p0 & Hf & ? & ->)])];
    try done.
  simplify_eq.
  apply fetch_page_spec in Hf as (_ & _ & -> & _ & soup & _ & _ & Hfl).
  apply list_elem_of_fmap in Hl as (lr & -> & Hlr).
  destruct (find_links_spec _ _ _ _ Hfl _ Hlr)
    as (tag & href & abs & _ & _ & _ & Hv & Hc & _).
  destruct (clean_url_stays_valid _ b abs Hb Hn Hv)
    as (c' & p & Hc' & Hv' & Hp & Hrest).
  rewrite Hc in Hc'. injection Hc' as <-. split; [|by exists p].
  rewrite <- Hv'. apply is_valid_url_base.
  by destruct (register_fields
                 (set_visited s ({[c]} ∪ visited_urls s)) p0) as (-> & _).
Qed.

End Page_links.

(** ** The children of a page *)

Section Children.

Context {unicode : Unicode}.

Variable netloc_check : string -> bool.
Variable urljoin : string -> string -> option string.

Lemma set_hierarchy_same s : set_hierarchy s (page_hierarchy s) = s.
Proof. by destruct s. Qed.

Lemma set_hierarchy_twice s h1 h2 :
  set_hierarchy (set_hierarchy s h1) h2 = set_hierarchy s h2.
Proof. done. Qed.

Lemma node_eta node :
  mkNode (n_path node) (n_title node) (n_type node) (children node) = node.
Proof. by destruct node. Qed.

Lemma record_children_closed_form cur links :
  ∀ s node targets,
  page_hierarchy s !! cur = Some node →
  mapM (clean_url netloc_check) (l_url <$> links) = Some targets →
  record_children netloc_check cur links s
  = (Ok tt,
     set_hierarchy s
       (<[cur := mkNode (n_path node) (n_title node) (n_type node)
                   (children node
                    ++ filter (λ t, t ∈ dom (page_hierarchy s)) targets)]>
          (page_hierarchy s))).
Proof.
  induction links as [|link rest IH]; intros s node targets Hcur Hm.
  - simpl in Hm. injection Hm as <-. simpl. rewrite filter_nil.
    rewrite (right_id_L [] (++)), node_eta, insert_id by done.
    by rewrite set_hierarchy_same.
  - rewrite fmap_cons in Hm. simpl in Hm.
    destruct (clean_url netloc_check (l_url link)) as [t|] eqn:Ht;
      simpl in Hm; [|done].
    destruct (mapM (clean_url netloc_check) (l_url <$> rest)) as [ts|] eqn:Hts;
      simpl in Hm; [|done].
    injection Hm as <-. simpl. unfold record_child. rewrite Ht.
    case_bool_decide as Hin.
    + rewrite Hcur. rewrite filter_cons_True by done.
      erewrite IH; [|by simpl; rewrite lookup_insert_eq|done].
      simpl. rewrite set_hierarchy_twice, insert_insert_eq.
      rewrite dom_insert_lookup_L by eauto.
      by rewrite <- (assoc_L (++)).
    + rewrite filter_cons_False by done. by apply IH.
Qed.

(** X10. The children of a page, in closed form: when the page has a node
    and every link of the page normalises, the loop over the links appends
    to the children of the node, in the order of the links and with their
    repetitions, the normal forms of the links that are keys of the
    hierarchy, and nothing else changes. *)
Theorem record_children_appends_the_known_targets cur links s node targets :
  page_hierarchy s !! cur = Some node →
  mapM (clean_url netloc_check) (l_url <$> links) = Some targets →
  record_children netloc_check cur links s
  = (Ok tt,
     set_hierarchy s
       (<[cur := mkNode (n_path node) (n_title node) (n_type node)
                   (children node
                    ++ filter (λ t, t ∈ dom (page_hierarchy s)) targets)]>
          (page_hierarchy s))).
Proof. apply record_children_closed_form. Qed.

Lemma enqueue_is_Some s links : ∀ frontier,
  Forall (λ l, is_Some (clean_url netloc_check l)) links →
  is_Some (enqueue netloc_check s links frontier).
Proof.
  induction links as [|l rest IH]; intros frontier H; simpl; [eauto|].
  inversion H as [|? ? [c Hc] H']; subst. rewrite Hc. simpl.
  case_bool_decide; by apply IH.
Qed.

(** With a seed that has a network location, the links of a scraped page
    normalise. *)
Lemma scraped_links_normalise a url s b links page s' :
  urllib.urlparse netloc_check (base_url s) = Some b → urllib.netloc b ≠ "" →
  scrape_page netloc_check urljoin a url s = (Ok (links, Some page), s') →
  Forall (λ l, is_Some (clean_url netloc_check l)) links.
Proof.
  intros Hb Hn H. apply Forall_forall. intros l Hl%list_elem_of_In.
  pose proof (scrape_page_cases _ _ _ _ _ _ _ H) as Hcases.
  destruct Hcases
    as [[_ [?|?]]|(c & _ & _ & _ & [[_ [?|?]]|(l0 & p0 & Hf & ? & ->)])];
    try done.
  simplify_eq.
  apply fetch_page_spec in Hf as (_ & _ & -> & _ & soup & _ & _ & Hfl).
  apply list_elem_of_fmap in Hl as (lr & -> & Hlr).
  destruct (find_links_spec _ _ _ _ _ _ Hfl _ Hlr)
    as (tag & href & abs & _ & _ & _ & Hv & Hcl & _).
  destruct (clean_url_stays_valid netloc_check _ b abs Hb Hn Hv)
    as (c' & p & Hc' & _ & Hp & _).
  rewrite Hcl in Hc'. injection Hc' as <-.
  by eapply clean_url_is_Some.
Qed.

(** X11. With a seed that has a network location, the bookkeeping of the
    loop never raises: an iteration whose call of [scrape_page] returns
    ends normally and counts one page.  No [KeyError] is raised for the
    node of the current page, and no link of a scraped page fails to
    normalise. *)
Theorem iteration_raises_only_in_scrape_page w cur ls b out s1 :
  urllib.urlparse netloc_check (base_url (self_ ls)) = Some b →
  urllib.netloc b ≠ "" →
  scrape_page netloc_check urljoin (w cur) cur (self_ ls) = (Ok out, s1) →
  ∃ ls', loop_body netloc_check urljoin w cur ls = (Ok tt, ls')
    ∧ pages_scraped ls' = (pages_scraped ls + 1)%Z.
Proof.
  intros Hb Hn H. unfold loop_body. rewrite H.
  pose proof (scrape_page_cases _ _ _ _ _ _ _ H) as Hcases.
  destruct Hcases
    as [[_ [?|?]]|(c & Hc & _ & _ & [[_ [?|?]]|(l0 & p0 & Hf & ? & ->)])];
    simplify_eq; simpl; eauto.
  rewrite Hc.
  pose proof (scraped_links_normalise _ _ _ _ _ _ _ Hb Hn H) as Hall.
  set (sv := set_visited (self_ ls) ({[c]} ∪ visited_urls (self_ ls))) in *.
  apply fetch_page_spec in Hf as (Hu & _ & -> & _).
  assert (is_Some (mapM (clean_url netloc_check) (l_url <$> pd_links p0)))
    as [targets Ht] by (by apply mapM_is_Some).
  destruct (register_fields sv p0) as (_ & _ & Hh & _).
  erewrite record_children_closed_form; [|by rewrite Hh, Hu, lookup_insert_eq|exact Ht].
  destruct (enqueue_is_Some
              (set_hierarchy (register sv p0)
                 (<[c := mkNode (pd_path p0) (pd_title p0) (pd_type p0)
                     ([] ++ filter (λ t, t ∈ dom (page_hierarchy (register sv p0)))
                                   targets)]>
                    (page_hierarchy (register sv p0))))
              _ (to_visit ls) Hall) as [tv He].
  simpl in *. rewrite He. eauto.
Qed.

End Children.

(** ** The nodes of the hierarchy over the iterations of the loop *)

Section Nodes.

Context {unicode : Unicode}.

Variable netloc_check : string -> bool.
Variable urljoin : string -> string -> option string.

Lemma record_node_same cur s :
  visited_urls s = visited_urls s
  ∧ dom (page_hierarchy s) = dom (page_hierarchy s)
  ∧ (∀ k, k ≠ cur → page_hierarchy s !! k = page_hierarchy s !! k)
  ∧ ∀ n', page_hierarchy s !! cur = Some n' →
      ∃ n, page_hierarchy s !! cur = Some n
        ∧ ∀ t, t ∈ children n' → t ∈ children n ∨ t ∈ dom (page_hierarchy s).
Proof.
  do 3 (split; [done|]). intros n' Hn'. exists n'. split; [done|]. auto.
Qed.

(** Recording a link touches the node of the current page only, and what
    it appends is a key of the hierarchy. *)
Lemma record_child_node cur link s r s' :
  record_child netloc_check cur link s = (r, s') →
  visited_urls s' = visited_urls s
  ∧ dom (page_hierarchy s') = dom (page_hierarchy s)
  ∧ (∀ k, k ≠ cur → page_hierarchy s' !! k = page_hierarchy s !! k)
  ∧ ∀ n', page_hierarchy s' !! cur = Some n' →
      ∃ n, page_hierarchy s !! cur = Some n
        ∧ ∀ t, t ∈ children n' → t ∈ children n ∨ t ∈ dom (page_hierarchy s).
Proof.
  unfold record_child. intros H.
  destruct (clean_url netloc_check (l_url link)) as [t|];
    [|simplify_eq; apply record_node_same].
  case_bool_decide as Hin; [|simplify_eq; apply record_node_same].
  destruct (page_hierarchy s !! cur) as [node|] eqn:Hcur;
    [|simplify_eq; do 3 (split; [done|]); intros; congruence].
  simplify_eq. simpl. split; [done|]. split.
  { apply dom_insert_lookup_L. eauto. }
  split.
  { intros k Hk. by rewrite lookup_insert_ne. }
  intros n'. rewrite lookup_insert_eq. intros [= <-]. exists node.
  split; [done|]. simpl. intros t' [Ht'| ->%list_elem_of_singleton]%elem_of_app;
    auto.
Qed.

Lemma record_children_node cur links : ∀ s r s',
  record_children netloc_check cur links s = (r, s') →
  visited_urls s' = visited_urls s
  ∧ dom (page_hierarchy s') = dom (page_hierarchy s)
  ∧ (∀ k, k ≠ cur → page_hierarchy s' !! k = page_hierarchy s !! k)
  ∧ ∀ n', page_hierarchy s' !! cur = Some n' →
      ∃ n, page_hierarchy s !! cur = Some n
        ∧ ∀ t, t ∈ children n' → t ∈ children n ∨ t ∈ dom (page_hierarchy s).
Proof.
  induction links as [|link rest IH]; intros s r s' H; simpl in H.
  - simplify_eq. apply record_node_same.
  - destruct (record_child netloc_check cur link s) as [r1 s1] eqn:H1.
    apply record_child_node in H1 as (Hv1 & Hd1 & Ho1 & Hc1).
    destruct r1 as [[]|].
    + apply IH in H as (Hv & Hd & Ho & Hc).
      split; [congruence|]. split; [congruence|]. split.
      { intros k Hk. rewrite Ho, Ho1; done. }
      intros n' Hn'. destruct (Hc _ Hn') as (n1 & Hn1 & Hch1).
      destruct (Hc1 _ Hn1) as (n & Hn & Hch). exists n. split; [done|].
      intros t Ht. destruct (Hch1 _ Ht) as [Ht1|Ht1]; [auto|].
      right. by rewrite <- Hd1.
    + by simplify_eq.
Qed.

(** What one iteration does to the hierarchy. *)
Lemma loop_body_nodes w cur ls r ls' :
  crawl_inv (self_ ls) →
  loop_body netloc_check urljoin w cur ls = (r, ls') →
  (∀ k n, page_hierarchy (self_ ls) !! k = Some n →
          page_hierarchy (self_ ls') !! k = Some n)
  ∧ (∀ k n, page_hierarchy (self_ ls) !! k = None →
            page_hierarchy (self_ ls') !! k = Some n →
            clean_url netloc_check cur = Some k
            ∧ k ∉ visited_urls (self_ ls)
            ∧ is_valid_url netloc_check (self_ ls) k = Some true
            ∧ ∀ t, t ∈ children n →
                t = k ∨ is_Some (page_hierarchy (self_ ls) !! t)).
Proof.
  intros (Hh & _) H.
  apply loop_body_cases in H as (out & s1 & H1 & Hcase). cbv zeta in Hcase.
  destruct Hcase
    as [[Hend Hs1]
       |(links & page & c & r2 & s2 & _ & Hc & Hfresh & Hval & Hf & Hs1
         & H2 & Hend)].
  - assert (self_ ls' = s1) as ->
      by (destruct Hend as [(_ & _ & ->)|(_ & _ & ->)]; done).
    assert (page_hierarchy s1 = page_hierarchy (self_ ls)) as ->
      by (destruct Hs1 as [->|(c & _ & _ & _ & ->)]; done).
    split; [done|]. intros k n Hk Hk'. congruence.
  - assert (self_ ls' = s2) as ->
      by (destruct Hend as [(_ & -> & _)|(tv & _ & _ & _ & ->)]; done).
    apply fetch_page_spec in Hf as (Hu & _).
    apply record_children_node in H2 as (_ & Hd & Ho & Hch).
    assert (Hh1 : page_hierarchy s1
              = <[c := mkNode (pd_path page) (pd_title page) (pd_type page) []]>
                  (page_hierarchy (self_ ls))).
    { rewrite Hs1.
      destruct (register_fields
                  (set_visited (self_ ls) ({[c]} ∪ visited_urls (self_ ls)))
                  page) as (_ & _ & -> & _).
      by rewrite Hu. }
    assert (Hnone : page_hierarchy (self_ ls) !! c = None).
    { apply not_elem_of_dom. intros Hin. by apply Hfresh, Hh. }
    split.
    + intros k n Hk. assert (k ≠ c) by congruence.
      rewrite Ho, Hh1, lookup_insert_ne; done.
    + intros k n Hk Hk'. destruct (decide (k = c)) as [->|Hne].
      2:{ rewrite Ho, Hh1, lookup_insert_ne in Hk' by done. congruence. }
      do 3 (split; [done|]). intros t Ht.
      destruct (Hch _ Hk') as (n0 & Hn0 & Hsub).
      rewrite Hh1, lookup_insert_eq in Hn0. injection Hn0 as <-.
      destruct (Hsub _ Ht) as [Ht0|Ht0]; [by apply elem_of_nil in Ht0|].
      rewrite Hh1, dom_insert_L in Ht0.
      apply elem_of_union in Ht0 as [->%elem_of_singleton|Ht0]; [by left|].
      right. by apply elem_of_dom.
Qed.

Lemma crawl_loop_nodes base max_pages w fuel : ∀ ls st ls' trace,
  reachable netloc_check urljoin base (self_ ls) →
  crawl_loop netloc_check urljoin fuel max_pages w ls = (st, ls', trace) →
  ∀ k n, page_hierarchy (self_ ls) !! k = Some n →
         page_hierarchy (self_ ls') !! k = Some n.
Proof.
  induction fuel as [|fuel IH]; intros ls st ls' trace Hs H; simpl in H.
  - destruct (loop_test max_pages ls); by simplify_eq.
  - destruct (loop_test max_pages ls); [|by simplify_eq].
    destruct (to_visit ls) as [|cur rest]; [by simplify_eq|].
    destruct (loop_body netloc_check urljoin w cur _) as [r1 ls1] eqn:Hb.
    assert (Hs1 : reachable netloc_check urljoin base (self_ ls1))
      by (eapply loop_body_reachable; [|exact Hb]; exact Hs).
    apply loop_body_nodes in Hb as [Hkeep _]; [|by eapply reachable_inv].
    simpl in Hkeep. destruct r1 as [[]|].
    + destruct (crawl_loop _ _ fuel max_pages w ls1) as [[st2 ls2] tr2] eqn:Hl.
      intros k n Hk. simplify_eq. eapply IH; eauto.
    + simplify_eq. done.
Qed.

(** X12. A node is final once the iteration that scraped its page has
    ended: whatever run of the loop follows, from a state of a crawl, every
    node of the hierarchy is found again as it was, its list of children
    included. *)
Theorem nodes_are_final_after_their_iteration
    base fuel max_pages w ls st ls' trace k n :
  reachable netloc_check urljoin base (self_ ls) →
  crawl_loop netloc_check urljoin fuel max_pages w ls = (st, ls', trace) →
  page_hierarchy (self_ ls) !! k = Some n →
  page_hierarchy (self_ ls') !! k = Some n.
Proof. intros Hs H. by eapply crawl_loop_nodes. Qed.

(** X13. The edges of the hierarchy point backwards: the node an iteration
    of the loop adds is the one of the normal form of the URL taken from
    the frontier, which was not visited, and each of its children is this
    page itself or a page that had its node before the iteration.  A link
    to a page scraped later is never recorded. *)
Theorem children_are_earlier_pages base w cur ls r ls' k n :
  reachable netloc_check urljoin base (self_ ls) →
  loop_body netloc_check urljoin w cur ls = (r, ls') →
  page_hierarchy (self_ ls) !! k = None →
  page_hierarchy (self_ ls') !! k = Some n →
  clean_url netloc_check cur = Some k
  ∧ k ∉ visited_urls (self_ ls)
  ∧ ∀ t, t ∈ children n → t = k ∨ is_Some (page_hierarchy (self_ ls) !! t).
Proof.
  intros Hs H Hk Hk'. apply reachable_inv in Hs.
  destruct (loop_body_nodes _ _ _ _ _ Hs H) as [_ Hnew].
  destruct (Hnew _ _ Hk Hk') as (H1 & H2 & _ & H3). done.
Qed.

End Nodes.

(** ** A whole crawl *)

Section Whole_crawl.

Context {unicode : Unicode}.

Variable netloc_check : string -> bool.
Variable urljoin : string -> string -> option string.
Variable w : world.

(** A call that leaves the normal form of its URL unvisited has rejected
    it, or never came to the guard. *)
Lemma scrape_page_rejects a url s r s' c :
  scrape_page netloc_check urljoin a url s = (r, s') →
  clean_url netloc_check url = Some c → c ∉ visited_urls s' →
  s' = s ∧ is_valid_url netloc_check s c ≠ Some true.
Proof.
  unfold scrape_page. intros H Hc Hv. rewrite Hc in H.
  case_bool_decide as Hin; [simplify_eq; done|].
  destruct (is_valid_url netloc_check s c) as [[]|] eqn:Hval;
    [|by simplify_eq..].
  exfalso. apply Hv.
  destruct (create_page_directory _ _ _); [|simplify_eq; set_solver].
  destruct (fetch_page _ _ _ _ _ _) as [[links page]|]; simplify_eq;
    [|set_solver].
  destruct (register_fields (set_visited s ({[c]} ∪ visited_urls s)) page)
    as (_ & -> & _). set_solver.
Qed.

(** What one iteration does to the visited set. *)
Lemma loop_body_visited cur ls r ls' :
  loop_body netloc_check urljoin w cur ls = (r, ls') →
  base_url (self_ ls') = base_url (self_ ls)
  ∧ ((self_ ls' = self_ ls
      ∧ ∀ c, clean_url netloc_check cur = Some c →
             c ∈ visited_urls (self_ ls)
             ∨ is_valid_url netloc_check (self_ ls) c ≠ Some true)
     ∨ ∃ c, clean_url netloc_check cur = Some c
         ∧ c ∉ visited_urls (self_ ls)
         ∧ is_valid_url netloc_check (self_ ls) c = Some true
         ∧ visited_urls (self_ ls') = {[c]} ∪ visited_urls (self_ ls)).
Proof.
  intros H.
  apply loop_body_cases in H as (out & s1 & H1 & Hcase). cbv zeta in Hcase.
  destruct Hcase
    as [[Hend Hs1]
       |(links & page & c & r2 & s2 & _ & Hc & Hfresh & Hval & Hf & Hs1
         & H2 & Hend)].
  - assert (self_ ls' = s1) as ->
      by (destruct Hend as [(_ & _ & ->)|(_ & _ & ->)]; done).
    destruct Hs1 as [->|(c & Hc & Hfresh & Hval & ->)].
    + split; [done|]. left. split; [done|]. intros c Hc.
      destruct (decide (c ∈ visited_urls (self_ ls))) as [|Hn]; [by left|].
      right. by eapply (scrape_page_rejects _ _ _ _ _ _ H1).
    + split; [done|]. right. by exists c.
  - assert (self_ ls' = s2) as ->
      by (destruct Hend as [(_ & -> & _)|(tv & _ & _ & _ & ->)]; done).
    pose proof (record_children_grows _ _ _ _ _ _ H2) as (Hb & _).
    apply record_children_node in H2 as (Hv & _).
    destruct (register_fields
                (set_visited (self_ ls) ({[c]} ∪ visited_urls (self_ ls)))
                page) as (Hb1 & Hv1 & _).
    rewrite <- Hs1 in Hb1, Hv1. split; [by rewrite Hb, Hb1|].
    right. exists c. do 3 (split; [done|]). by rewrite Hv, Hv1.
Qed.

(** *** The node of the seed *)

Lemma is_valid_url_not_true s s' c :
  base_url s' = base_url s →
  is_valid_url netloc_check s c ≠ Some true →
  is_valid_url netloc_check s' c ≠ Some true.
Proof. intros Hb. by rewrite (is_valid_url_base netloc_check s' s c Hb). Qed.

Lemma seed_settled_first cur ls r ls' c :
  crawl_inv (self_ ls) → page_hierarchy (self_ ls) = ∅ →
  clean_url netloc_check cur = Some c →
  loop_body netloc_check urljoin w cur ls = (r, ls') →
  seed_settled netloc_check c (self_ ls').
Proof.
  intros Hinv Hempty Hc H.
  destruct (loop_body_nodes _ _ _ _ _ _ _ Hinv H) as [_ Hnew].
  destruct (loop_body_visited _ _ _ _ H) as [Hb Hv].
  split.
  - intros n t Hn Ht.
    destruct (Hnew c n) as (_ & _ & _ & Hch); [by rewrite Hempty|done|].
    destruct (Hch _ Ht) as [|[? Hl]]; [done|]. by rewrite Hempty in Hl.
  - intros _. destruct Hv as [[-> Hrej]|(c' & Hc' & _ & _ & ->)].
    + by apply Hrej.
    + left. rewrite Hc in Hc'. injection Hc' as <-. set_solver.
Qed.

Lemma seed_settled_step cur ls r ls' c :
  crawl_inv (self_ ls) → seed_settled netloc_check c (self_ ls) →
  loop_body netloc_check urljoin w cur ls = (r, ls') →
  seed_settled netloc_check c (self_ ls').
Proof.
  intros Hinv [HP HQ] H.
  destruct (loop_body_nodes _ _ _ _ _ _ _ Hinv H) as [Hkeep Hnew].
  destruct (loop_body_visited _ _ _ _ H) as [Hb Hv].
  assert (Hmono : visited_urls (self_ ls) ⊆ visited_urls (self_ ls')).
  { destruct Hv as [[-> _]|(c' & _ & _ & _ & ->)]; set_solver. }
  destruct (page_hierarchy (self_ ls) !! c) as [n0|] eqn:Hc0.
  - pose proof (Hkeep _ _ Hc0) as Hc1. split.
    + intros n t Hn Ht. rewrite Hc1 in Hn. injection Hn as <-. by eapply HP.
    + intros Hnone. congruence.
  - assert (Hnone : page_hierarchy (self_ ls') !! c = None).
    { destruct (page_hierarchy (self_ ls') !! c) as [n|] eqn:Hc1; [|done].
      destruct (Hnew _ _ Hc0 Hc1) as (_ & Hfresh & Hval & _).
      destruct (HQ eq_refl) as [?|?]; done. }
    split; [intros n t Hn; congruence|]. intros _.
    destruct (HQ eq_refl) as [Hin|Hrej]; [left; by apply Hmono|right].
    by apply (is_valid_url_not_true (self_ ls)).
Qed.

Lemma seed_settled_loop base max_pages c fuel : ∀ ls st ls' trace,
  reachable netloc_check urljoin base (self_ ls) →
  seed_settled netloc_check c (self_ ls) →
  crawl_loop netloc_check urljoin fuel max_pages w ls = (st, ls', trace) →
  seed_settled netloc_check c (self_ ls').
Proof.
  induction fuel as [|fuel IH]; intros ls st ls' trace Hs Hset H; simpl in H.
  - destruct (loop_test max_pages ls); by simplify_eq.
  - destruct (loop_test max_pages ls); [|by simplify_eq].
    destruct (to_visit ls) as [|cur rest]; [by simplify_eq|].
    destruct (loop_body netloc_check urljoin w cur _) as [r1 ls1] eqn:Hb.
    assert (Hs1 : reachable netloc_check urljoin base (self_ ls1))
      by (eapply loop_body_reachable; [|exact Hb]; exact Hs).
    apply (seed_settled_step _ _ _ _ c) in Hb;
      [|by eapply reachable_inv|done].
    destruct r1 as [[]|].
    + destruct (crawl_loop _ _ fuel max_pages w ls1) as [[st2 ls2] tr2] eqn:Hl.
      simplify_eq. eapply IH; eauto.
    + by simplify_eq.
Qed.

(** X14. The node of the seed has no child but the seed itself: whatever
    the pages link to and however long the crawl runs, the only child the
    loop can record for the first page is this page, since the links of a
    page are compared with the hierarchy right after the page is scraped,
    and the node is final afterwards. *)
Theorem seed_node_has_no_other_child base fuel max_pages c n t :
  let self := __init__ base in
  let run := scrape_website netloc_check urljoin fuel max_pages w self in
  clean_url netloc_check (base_url self) = Some c →
  page_hierarchy (self_ (final_state run)) !! c = Some n →
  t ∈ children n → t = c.
Proof.
  intros self run Hc Hn Ht. subst run. unfold scrape_website in Hn.
  destruct (crawl_loop _ _ _ _ _ _) as [[st ls] trace] eqn:H. simpl in Hn.
  assert (Hset : seed_settled netloc_check c (self_ ls));
    [|by eapply (proj1 Hset)].
  destruct fuel as [|fuel]; simpl in H.
  { destruct (loop_test _ _); by simplify_eq. }
  destruct (loop_test _ _); [|by simplify_eq].
  simpl in H.
  destruct (loop_body netloc_check urljoin w _ _) as [r1 ls1] eqn:Hb.
  assert (Hs1 : reachable netloc_check urljoin base (self_ ls1)).
  { eapply loop_body_reachable; [|exact Hb]. apply reach_init. }
  apply (seed_settled_first _ _ _ _ c) in Hb;
    [|apply crawl_inv_init|done|exact Hc].
  destruct r1 as [[]|]; [|by simplify_eq].
  destruct (crawl_loop _ _ fuel max_pages w ls1) as [[st2 ls2] tr2] eqn:Hl.
  simplify_eq. by eapply seed_settled_loop.
Qed.

End Whole_crawl.

(** ** The counter and the frontier *)

Section Frontier.

Context {unicode : Unicode}.

Variable netloc_check : string -> bool.
Variable urljoin : string -> string -> option string.
Variable w : world.

Local Open Scope Z_scope.

Lemma crawl_loop_count max_pages fuel : ∀ ls st ls' trace,
  crawl_loop netloc_check urljoin fuel max_pages w ls = (st, ls', trace) →
  pages_scraped ls'
  = pages_scraped ls + Z.of_nat (length trace)
    - match st with Raised => 1 | _ => 0 end.
Proof.
  induction fuel as [|fuel IH]; intros ls st ls' trace H; simpl in H.
  - destruct (loop_test max_pages ls); simplify_eq; simpl; lia.
  - destruct (loop_test max_pages ls); [|simplify_eq; simpl; lia].
    destruct (to_visit ls) as [|cur rest]; [simplify_eq; simpl; lia|].
    destruct (loop_body netloc_check urljoin w cur _) as [r ls1] eqn:Hb.
    apply loop_body_counter in Hb as [[-> Hp]|[-> Hp]]; simpl in Hp.
    + destruct (crawl_loop _ _ fuel max_pages w ls1) as [[st2 ls2] tr2] eqn:Hl.
      apply IH in Hl. simplify_eq. simpl length. destruct st; lia.
    + simplify_eq. simpl length. lia.
Qed.

(** X15. The counter counts the URLs taken from the frontier, not the
    pages scraped: at every point of a run, [pages_scraped] is the number
    of URLs dequeued, less the one whose iteration raised when the run was
    left by an exception. *)
Theorem counter_counts_dequeued_urls self fuel max_pages :
  let run := scrape_website netloc_check urljoin fuel max_pages w self in
  pages_scraped (final_state run)
  = Z.of_nat (length (dequeued run))
    - match final_status run with Raised => 1 | _ => 0 end.
Proof.
  intros run. subst run. unfold scrape_website.
  destruct (crawl_loop _ _ _ _ _ _) as [[st ls] trace] eqn:H.
  apply crawl_loop_count in H. simpl in *. lia.
Qed.

(** X16. A URL the guard of [scrape_page] rejects uses up budget all the
    same: when the normal form of the URL taken from the frontier is
    visited already, or off the domain of the seed, the iteration leaves
    the scraper and the frontier as they are, and counts one page. *)
Theorem rejected_url_still_counts cur ls c :
  clean_url netloc_check cur = Some c →
  c ∈ visited_urls (self_ ls)
  ∨ is_valid_url netloc_check (self_ ls) c = Some false →
  loop_body netloc_check urljoin w cur ls
  = (Ok tt, mkLoop (to_visit ls) (pages_scraped ls + 1) (self_ ls)).
Proof.
  intros Hc Hrej. unfold loop_body, scrape_page. rewrite Hc.
  case_bool_decide as Hin; [done|].
  destruct Hrej as [?| ->]; done.
Qed.

(** What [enqueue] appends: links of the page, in their order, whose
    normal form is not visited. *)
Lemma enqueue_spec s links : ∀ frontier frontier',
  enqueue netloc_check s links frontier = Some frontier' →
  ∃ added, frontier' = frontier ++ added
    ∧ (length added ≤ length links)%nat
    ∧ ∀ x, x ∈ added →
        x ∈ links ∧ ∃ c, clean_url netloc_check x = Some c
                      ∧ c ∉ visited_urls s.
Proof.
  induction links as [|l rest IH]; intros frontier frontier' H; simpl in H.
  - simplify_eq. exists []. rewrite (right_id_L [] (++)).
    split; [done|]. split; [done|]. intros x Hx. by apply elem_of_nil in Hx.
  - destruct (clean_url netloc_check l) as [c|] eqn:Hc; simpl in H; [|done].
    case_bool_decide as Hin.
    + destruct (IH _ _ H) as (added & -> & Hlen & Hall).
      exists added. split; [done|]. split; [simpl; lia|].
      intros x Hx. destruct (Hall _ Hx) as [? ?]. split; [by right|done].
    + destruct (IH _ _ H) as (added & -> & Hlen & Hall).
      exists (l :: added). split; [by rewrite <- (assoc_L (++))|].
      split; [simpl; lia|].
      intros x [->|Hx]%elem_of_cons.
      * split; [by left|]. by exists c.
      * destruct (Hall _ Hx) as [? ?]. split; [by right|done].
Qed.

Lemma loop_body_frontier cur ls ls' :
  loop_body netloc_check urljoin w cur ls = (Ok tt, ls') →
  ∃ added, to_visit ls' = to_visit ls ++ added.
Proof.
  intros H.
  apply loop_body_cases in H as (out & s1 & H1 & Hcase). cbv zeta in Hcase.
  destruct Hcase
    as [[[(_ & ? & _)|(_ & _ & ->)] _]
       |(links & page & c & r2 & s2 & _ & _ & _ & _ & _ & _ & _
         & [(? & _)|(tv & _ & He & _ & ->)])]; try done.
  - exists []. by rewrite (right_id_L [] (++)).
  - apply enqueue_spec in He as (added & -> & _). by exists added.
Qed.

Lemma crawl_loop_frontier max_pages fuel : ∀ ls st ls' trace,
  crawl_loop netloc_check urljoin fuel max_pages w ls = (st, ls', trace) →
  st ≠ Raised →
  ∃ added, trace ++ to_visit ls' = to_visit ls ++ added.
Proof.
  induction fuel as [|fuel IH]; intros ls st ls' trace H Hst; simpl in H.
  - exists []. rewrite (right_id_L [] (++)).
    destruct (loop_test max_pages ls); by simplify_eq.
  - destruct (loop_test max_pages ls);
      [|exists []; rewrite (right_id_L [] (++)); by simplify_eq].
    destruct (to_visit ls) as [|cur rest] eqn:Htv;
      [exists []; simplify_eq; by rewrite Htv|].
    destruct (loop_body netloc_check urljoin w cur _) as [[[]|] ls1] eqn:Hb;
      [|by simplify_eq].
    destruct (crawl_loop _ _ fuel max_pages w ls1) as [[st2 ls2] tr2] eqn:Hl.
    apply loop_body_frontier in Hb as [added1 Hb]. simpl in Hb.
    simplify_eq. destruct (IH _ _ _ _ Hl Hst) as [added2 Hl2].
    exists (added1 ++ added2). simpl. rewrite Hl2, Hb.
    by rewrite <- (assoc_L (++)).
Qed.

(** X17. The frontier is a queue: in a run of the loop that is not left
    by an exception, the URLs taken from the frontier, followed by the
    frontier that remains, are the frontier the run started with, followed
    by the URLs added since.  What is in the frontier first is taken first:
    the crawl is breadth-first. *)
Theorem frontier_is_first_in_first_out fuel max_pages ls st ls' trace :
  crawl_loop netloc_check urljoin fuel max_pages w ls = (st, ls', trace) →
  st ≠ Raised →
  ∃ added, trace ++ to_visit ls' = to_visit ls ++ added.
Proof. apply crawl_loop_frontier. Qed.

Local Close Scope Z_scope.

Lemma loop_body_visited_size cur ls r ls' :
  loop_body netloc_check urljoin w cur ls = (r, ls') →
  size (visited_urls (self_ ls')) ≤ S (size (visited_urls (self_ ls))).
Proof.
  intros H. destruct (loop_body_visited _ _ _ _ _ _ _ H)
    as [_ [[-> _]|(c & _ & Hfresh & _ & ->)]]; [lia|].
  rewrite size_union by set_solver. rewrite size_singleton. lia.
Qed.

Lemma crawl_loop_visited_size max_pages fuel : ∀ ls st ls' trace,
  crawl_loop netloc_check urljoin fuel max_pages w ls = (st, ls', trace) →
  size (visited_urls (self_ ls'))
  ≤ size (visited_urls (self_ ls)) + length trace.
Proof.
  induction fuel as [|fuel IH]; intros ls st ls' trace H; simpl in H.
  - destruct (loop_test max_pages ls); simplify_eq; lia.
  - destruct (loop_test max_pages ls); [|simplify_eq; lia].
    destruct (to_visit ls) as [|cur rest]; [simplify_eq; lia|].
    destruct (loop_body netloc_check urljoin w cur _) as [r ls1] eqn:Hb.
    apply loop_body_visited_size in Hb. simpl in Hb.
    destruct r as [[]|].
    + destruct (crawl_loop _ _ fuel max_pages w ls1) as [[st2 ls2] tr2] eqn:Hl.
      apply IH in Hl. simplify_eq. simpl length. lia.
    + simplify_eq. simpl length. lia.
Qed.

(** X18. At most one page for each URL taken from the frontier: in a
    crawl from a new scraper, the hierarchy has no more nodes than there
    are visited URLs, and no more visited URLs than URLs dequeued; with a
    budget of [N] pages the hierarchy, hence [site_hierarchy.json], has at
    most [N] nodes. *)
Theorem at_most_one_page_per_dequeued_url base fuel max_pages :
  let run :=
    scrape_website netloc_check urljoin fuel max_pages w (__init__ base) in
  let s := self_ (final_state run) in
  size (dom (page_hierarchy s)) ≤ size (visited_urls s)
  ∧ size (visited_urls s) ≤ length (dequeued run)
  ∧ ∀ N, max_pages = Some N →
         (Z.of_nat (size (dom (page_hierarchy s))) ≤ Z.max 0 N)%Z.
Proof.
  intros run s.
  assert (Hh : size (dom (page_hierarchy s)) ≤ size (visited_urls s)).
  { apply subseteq_size.
    apply (reachable_inv netloc_check urljoin base), scrape_website_reachable. }
  subst s run. unfold scrape_website in *.
  destruct (crawl_loop _ _ _ _ _ _) as [[st ls] trace] eqn:H. simpl in *.
  pose proof (crawl_loop_visited_size _ _ _ _ _ _ H) as Hv.
  change (size (visited_urls (self_ ls)) ≤ size (∅ : gset string) + length trace)
    in Hv.
  rewrite size_empty in Hv.
  split; [done|]. split; [lia|]. intros N ->.
  apply crawl_loop_budget in H as (Hb & _). simpl in Hb. lia.
Qed.

End Frontier.

(** ** The crawl of a finite site ends *)

Lemma max_anchors_ge (w : world) (site : list string) url :
  url ∈ site → anchors_at w url ≤ max_anchors w site.
Proof.
  unfold max_anchors.
  induction site as [|u rest IH]; intros Hin; [by apply elem_of_nil in Hin|].
  rewrite fmap_cons. simpl.
  apply elem_of_cons in Hin as [->|Hin]; [lia|]. apply IH in Hin. lia.
Qed.

Lemma normal_form_in netloc_check (site : list string) url c :
  url ∈ site → clean_url netloc_check url = Some c →
  c ∈ normal_forms netloc_check site.
Proof.
  intros Hin Hc. unfold normal_forms. apply elem_of_list_to_set.
  apply list_elem_of_omap. by exists url.
Qed.

Lemma size_list_to_set_le (l : list string) :
  size (list_to_set l : gset string) ≤ length l.
Proof.
  induction l as [|x l IH]; [by rewrite list_to_set_nil, size_empty|].
  rewrite list_to_set_cons, size_union_alt, size_singleton. simpl length.
  assert (size (list_to_set l ∖ {[x]} : gset string)
          ≤ size (list_to_set l : gset string))
    by (apply subseteq_size; set_solver).
  lia.
Qed.

Lemma omap_length_le {A B} (f : A → option B) (l : list A) :
  length (omap f l) ≤ length l.
Proof.
  induction l as [|x l IH]; [done|].
  change (omap f (x :: l))
    with (match f x with Some y => y :: omap f l | None => omap f l end).
  destruct (f x); simpl length; lia.
Qed.

Lemma size_normal_forms netloc_check (site : list string) :
  size (normal_forms netloc_check site) ≤ length site.
Proof.
  unfold normal_forms.
  etrans; [apply size_list_to_set_le|]. apply omap_length_le.
Qed.

Lemma size_difference_visit (nf v : gset string) c :
  c ∈ nf → c ∉ v → size (nf ∖ v) = S (size (nf ∖ ({[c]} ∪ v))).
Proof.
  intros Hin Hv.
  assert (nf ∖ v = {[c]} ∪ nf ∖ ({[c]} ∪ v)) as ->.
  { apply set_eq. intros x. destruct (decide (x = c)); set_solver. }
  rewrite size_union by set_solver. by rewrite size_singleton.
Qed.

Section Termination.

Context {unicode : Unicode}.

Variable netloc_check : string -> bool.
Variable urljoin : string -> string -> option string.
Variable w : world.
Variable self : WebsiteScraper.
Variable site : list string.

Hypothesis site_closed : links_within netloc_check urljoin w self site.

(** An iteration that ends does not raise what is left to do, and keeps
    the frontier inside the site. *)
Lemma loop_body_potential cur ls ls' :
  cur ∈ site → Forall (λ u, u ∈ site) (to_visit ls) →
  base_url (self_ ls) = base_url self →
  loop_body netloc_check urljoin w cur ls = (Ok tt, ls') →
  Forall (λ u, u ∈ site) (to_visit ls')
  ∧ base_url (self_ ls') = base_url self
  ∧ potential netloc_check w site ls' ≤ potential netloc_check w site ls.
Proof.
  intros Hcur Hall Hbase H. unfold potential.
  apply loop_body_cases in H as (out & s1 & H1 & Hcase). cbv zeta in Hcase.
  destruct Hcase
    as [[[(_ & ? & _)|(_ & _ & ->)] Hs1]
       |(links & page & c & r2 & s2 & _ & Hc & Hfresh & Hval & Hf & Hs1
         & H2 & [(? & _)|(tv & _ & He & _ & ->)])]; try done.
  - simpl. split; [done|].
    destruct Hs1 as [->|(c & _ & _ & _ & ->)]; [split; [done|lia]|].
    split; [done|]. simpl.
    assert (size (normal_forms netloc_check site
                  ∖ ({[c]} ∪ visited_urls (self_ ls)))
            ≤ size (normal_forms netloc_check site ∖ visited_urls (self_ ls)))
      by (apply subseteq_size; set_solver).
    nia.
  - simpl.
    set (sv := set_visited (self_ ls) ({[c]} ∪ visited_urls (self_ ls))) in *.
    apply fetch_page_spec in Hf as (Hu & _ & -> & _ & soup & Hresp & _ & Hfl).
    pose proof (find_links_length _ _ _ _ _ _ Hfl) as Hlen.
    rewrite (find_links_base netloc_check urljoin sv self) in Hfl by done.
    pose proof (site_closed _ _ _ _ Hcur Hresp Hfl) as Hin.
    pose proof (max_anchors_ge w _ _ Hcur) as Hmax.
    unfold anchors_at in Hmax. rewrite Hresp in Hmax.
    pose proof (record_children_grows _ _ _ _ _ _ H2) as (Hb2 & _).
    apply record_children_node in H2 as (Hv2 & _).
    destruct (register_fields sv page) as (Hb1 & Hv1 & _).
    rewrite <- Hs1 in Hb1, Hv1.
    apply enqueue_spec in He as (added & -> & Hadd & Hfrom).
    split; [|split].
    + apply Forall_app. split; [done|]. apply Forall_forall.
      intros x Hx%list_elem_of_In.
      destruct (Hfrom _ Hx) as [(l & -> & Hl)%list_elem_of_fmap _]. by apply Hin.
    + by rewrite Hb2, Hb1.
    + rewrite Hv2, Hv1. simpl.
      rewrite (size_difference_visit _ (visited_urls (self_ ls)) c);
        [|by eapply normal_form_in|done].
      rewrite length_app, length_fmap in *. nia.
Qed.

Lemma crawl_loop_ends max_pages fuel : ∀ ls,
  Forall (λ u, u ∈ site) (to_visit ls) →
  base_url (self_ ls) = base_url self →
  potential netloc_check w site ls ≤ fuel →
  (crawl_loop netloc_check urljoin fuel max_pages w ls).1.1 ≠ Running.
Proof.
  induction fuel as [|fuel IH]; intros ls Hall Hbase Hpot; simpl.
  - unfold potential in Hpot. unfold loop_test.
    destruct (to_visit ls); [done|]. simpl in Hpot. lia.
  - destruct (loop_test max_pages ls); [|done].
    destruct (to_visit ls) as [|cur rest] eqn:Htv; [done|].
    apply Forall_cons_1 in Hall as [Hcur Hrest].
    destruct (loop_body netloc_check urljoin w cur _) as [[[]|] ls1] eqn:Hb;
      [|done].
    apply loop_body_potential in Hb as (Hall1 & Hbase1 & Hpot1);
      [|done..].
    specialize (IH ls1 Hall1 Hbase1).
    destruct (crawl_loop _ _ fuel max_pages w ls1) as [[st2 ls2] tr2].
    simpl in *. apply IH.
    unfold potential in *. rewrite Htv in Hpot. simpl in *. lia.
Qed.

End Termination.

Section Finite_site.

Context {unicode : Unicode}.

(** X19. The crawl of a finite site ends: when the seed and all the links
    of the pages are URLs of a finite list, the loop is left, with or
    without a budget, after at most one iteration for the seed and, for
    each URL of the list, one iteration and one more for each anchor a page
    can have. *)
Theorem crawl_of_a_finite_site_ends
    netloc_check urljoin w self site fuel max_pages :
  links_within netloc_check urljoin w self site →
  base_url self ∈ site →
  1 + (max_anchors w site + 1) * length site ≤ fuel →
  final_status (scrape_website netloc_check urljoin fuel max_pages w self)
  ≠ Running.
Proof.
  intros Hclosed Hseed Hfuel. unfold scrape_website.
  pose proof (crawl_loop_ends netloc_check urljoin w self site Hclosed
                max_pages fuel (mkLoop [base_url self] 0 self)) as Hends.
  destruct (crawl_loop _ _ _ _ _ _) as [[st ls] trace]. simpl in *.
  apply Hends; [by apply Forall_singleton|done|].
  unfold potential. simpl.
  assert (size (normal_forms netloc_check site ∖ visited_urls self)
          ≤ length site).
  { etrans; [|apply (size_normal_forms netloc_check)].
    apply subseteq_size. set_solver. }
  nia.
Qed.

End Finite_site.

(** ** The record of a scraped page, and the first request *)

Section Scraped_page.

Context {unicode : Unicode}.

Variable netloc_check : string -> bool.
Variable urljoin : string -> string -> option string.

Lemma fetch_page_record s a url clean links page :
  fetch_page netloc_check urljoin s a url clean = Some (links, page) →
  get_page_path netloc_check clean = Some (pd_path page)
  ∧ ∃ soup, response a = Some (200%Z, soup)
      ∧ pd_title page = soup_title soup.
Proof.
  unfold fetch_page. intros H.
  destruct (response a) as [[code soup]|]; simpl in H; [|done].
  destruct (negb (code =? 200)%Z) eqn:Ecode; [done|].
  apply negb_false_iff, Z.eqb_eq in Ecode as ->.
  destruct (get_page_type netloc_check clean soup) as [t|]; simpl in H; [|done].
  destruct (negb (write_ok a)); [done|].
  destruct (find_links _ _ _ _ _) as [ld|]; simpl in H; [|done].
  destruct (get_page_path netloc_check clean) as [path|]; simpl in H; [|done].
  simplify_eq. simpl. split; [done|]. by exists soup.
Qed.

(** X20. The record of a scraped page and its node agree: when
    [scrape_page] returns a record, the record is the one of the normal
    form of the URL, which is visited now; the links returned are the URLs
    of the links of the record; and the node entered in the hierarchy has
    the path, the title and the type of the record, and no child yet. *)
Theorem page_record_agrees_with_its_node a url s links page s' :
  scrape_page netloc_check urljoin a url s = (Ok (links, Some page), s') →
  clean_url netloc_check url = Some (pd_url page)
  ∧ pd_original_url page = url
  ∧ get_page_path netloc_check (pd_url page) = Some (pd_path page)
  ∧ links = l_url <$> pd_links page
  ∧ pd_url page ∈ visited_urls s'
  ∧ page_hierarchy s' !! pd_url page
    = Some (mkNode (pd_path page) (pd_title page) (pd_type page) [])
  ∧ ∃ soup, response a = Some (200%Z, soup)
      ∧ pd_title page = soup_title soup
      ∧ get_page_type netloc_check (pd_url page) soup = Some (pd_type page).
Proof.
  intros H.
  apply scrape_page_cases in H
    as [[_ [?|?]]
       |(c & Hc & _ & _ & [[_ [?|?]]|(l0 & p0 & Hf & [= <- <-] & ->)])];
    try done.
  destruct (fetch_page_record _ _ _ _ _ _ Hf) as (Hpath & soup & Hresp & Ht).
  apply fetch_page_spec in Hf
    as (Hu & Ho & Hl & _ & soup' & Hresp' & Hty & _).
  rewrite Hresp in Hresp'. injection Hresp' as <-.
  destruct (register_fields (set_visited s ({[c]} ∪ visited_urls s)) page)
    as (_ & Hv & Hh & _).
  rewrite Hu. do 4 (split; [done|]). split.
  { rewrite Hv. simpl. set_solver. }
  split.
  { by rewrite Hh, Hu, lookup_insert_eq. }
  by exists soup.
Qed.

Lemma urlparse_netloc_nonempty url p :
  urllib.urlparse netloc_check url = Some p → urllib.netloc p ≠ "" →
  Str.nonempty url = true.
Proof.
  intros Hp Hn. destruct url; [|done]. exfalso. apply Hn.
  unfold urllib.urlparse, urllib.urlsplit in Hp. simpl in Hp.
  by simplify_eq.
Qed.

(** X21. A seed with a network location is requested: the first call of
    [scrape_page], on the seed of a new scraper, passes the guard, so that
    the normal form of the seed is the one visited URL afterwards. *)
Theorem seed_passes_the_guard base b a r s' :
  let self := __init__ base in
  urllib.urlparse netloc_check (base_url self) = Some b →
  urllib.netloc b ≠ "" →
  scrape_page netloc_check urljoin a (base_url self) self = (r, s') →
  ∃ c, clean_url netloc_check (base_url self) = Some c
    ∧ is_valid_url netloc_check self c = Some true
    ∧ visited_urls s' = {[c]}.
Proof.
  intros self Hb Hn H.
  assert (Hv : is_valid_url netloc_check self (base_url self) = Some true).
  { apply is_valid_url_true_iff. split; [by eapply urlparse_netloc_nonempty|].
    by exists b, b. }
  destruct (clean_url_stays_valid netloc_check self b _ Hb Hn Hv)
    as (c & p & Hc & Hvc & _).
  exists c. split; [done|]. split; [done|].
  unfold scrape_page in H. rewrite Hc in H.
  rewrite bool_decide_false in H by set_solver. rewrite Hvc in H.
  destruct (create_page_directory _ _ _); [|simplify_eq; simpl; set_solver].
  destruct (fetch_page _ _ _ _ _ _) as [[links page]|]; simplify_eq;
    [|simpl; set_solver].
  destruct (register_fields
              (set_visited self ({[c]} ∪ visited_urls self)) page)
    as (_ & -> & _).
  simpl. set_solver.
Qed.

End Scraped_page.

(** ** Calls and runs at the edges *)

Section Edges.

Context {unicode : Unicode}.

Variable netloc_check : string -> bool.
Variable urljoin : string -> string -> option string.

(** X22. A URL is scraped at most once: after a call of [scrape_page] on
    a URL, however it ended, a second call on the same URL, whatever the
    environment answers, leaves the scraper as it is and returns no record
    and no link. *)
Theorem second_call_changes_nothing a a' url s :
  let s' := (scrape_page netloc_check urljoin a url s).2 in
  (scrape_page netloc_check urljoin a' url s').2 = s'
  ∧ ∀ out, (scrape_page netloc_check urljoin a' url s').1 = Ok out →
           out = ([], None).
Proof.
  intros s'. subst s'.
  destruct (scrape_page netloc_check urljoin a url s) as [r s1] eqn:H.
  cbn [snd].
  destruct (clean_url netloc_check url) as [c|] eqn:Hc.
  2:{ unfold scrape_page. rewrite Hc. split; [done|]. intros out Hout.
      discriminate Hout. }
  destruct (decide (c ∈ visited_urls s1)) as [Hin|Hout].
  - unfold scrape_page. rewrite Hc, bool_decide_true by done.
    split; [done|]. by intros out [= <-].
  - destruct (scrape_page_rejects _ _ _ _ _ _ _ _ H Hc Hout) as [-> Hrej].
    unfold scrape_page. rewrite Hc, bool_decide_false by done.
    destruct (is_valid_url netloc_check s c) as [[]|]; [done|..].
    + split; [done|]. by intros out [= <-].
    + split; [done|]. intros out Hout'. discriminate Hout'.
Qed.

(** X23. A budget of zero, or below, scrapes nothing and saves an empty
    site: the loop of [scrape_website] is not entered, no URL is taken from
    the frontier, and the hierarchy and the three listings written for a
    new scraper are empty. *)
Theorem zero_budget_saves_an_empty_site base fuel N w :
  (N ≤ 0)%Z →
  let run :=
    scrape_website netloc_check urljoin fuel (Some N) w (__init__ base) in
  dequeued run = [] ∧ final_status run = Finished
  ∧ self_ (final_state run) = __init__ base
  ∧ saved run = Some (∅, ([], [], [])).
Proof.
  intros HN. unfold scrape_website.
  assert (Hloop : ∀ self,
            crawl_loop netloc_check urljoin fuel (Some N) w
              (mkLoop [base_url self] 0 self)
            = (Finished, mkLoop [base_url self] 0 self, [])).
  { intros self.
    assert (Ht : loop_test (Some N) (mkLoop [base_url self] 0 self) = false).
    { unfold loop_test. cbn [to_visit pages_scraped]. apply Z.ltb_ge. lia. }
    destruct fuel; simpl; by rewrite Ht. }
  rewrite Hloop. cbn [dequeued final_status final_state self_ saved].
  do 3 (split; [done|]).
  unfold save_site_hierarchy, __init__. cbn [page_hierarchy product_pages
    category_pages content_pages]. by rewrite elements_empty.
Qed.


End Edges.

(** ** The further properties at work on the small web *)

Section Further_on_the_small_web.

Local Existing Instance ascii_text.

Lemma ex_s1_reachable : reachable plain_netloc absolute_href ex_base ex_s1.
Proof. eapply reach_scrape; [apply reach_init|]. apply surjective_pairing. Qed.

Lemma triple_eta {A B C} (p : A * B * C) : p = (p.1.1, p.1.2, p.2).
Proof. by destruct p as [[? ?] ?]. Qed.

Lemma ex_home_scraped :
  scrape_page plain_netloc absolute_href (ex_world "http://ex.com")
    "http://ex.com" (__init__ ex_base)
  = (Ok (ex_home_links, Some ex_home_record), ex_s1).
Proof. vm_compute. reflexivity. Qed.

Lemma ex_base_parsed :
  urllib.urlparse plain_netloc (base_url (__init__ ex_base))
  = Some (urllib.mkParse "http" "ex.com" "" "" "" "").
Proof. vm_compute. reflexivity. Qed.

Lemma ex_site_closed :
  links_within plain_netloc absolute_href ex_world (__init__ ex_base) ex_site.
Proof.
  intros url code soup ld Hurl Hresp Hfl l Hl. unfold ex_site in Hurl.
  repeat (apply elem_of_cons in Hurl as [->|Hurl]);
    [..|by apply elem_of_nil in Hurl];
    vm_compute in Hresp; injection Hresp as <- <-;
    vm_compute in Hfl; injection Hfl as <-;
    repeat (apply elem_of_cons in Hl as [->|Hl]);
    try (by apply elem_of_nil in Hl);
    unfold ex_site; simpl; set_solver.
Qed.

Lemma clean_url_keeps_witness :
  let url := "http://ex.com/shop/?page=1" in
  let p := urllib.mkParse "http" "ex.com" "/shop/" "" "page=1" "" in
  urllib.urlparse plain_netloc url = Some p
  ∧ ∃ c p', clean_url plain_netloc url = Some c
      ∧ urllib.urlparse plain_netloc c = Some p'
      ∧ urllib.scheme p' = urllib.scheme p
      ∧ urllib.netloc p' = urllib.netloc p
      ∧ urllib.query p' = "" ∧ urllib.fragment p' = "".
Proof.
  intros url p.
  assert (Hp : urllib.urlparse plain_netloc url = Some p)
    by (vm_compute; reflexivity).
  split; [exact Hp|].
  exact (clean_url_keeps_scheme_and_netloc plain_netloc url p Hp
           ltac:(discriminate)).
Defined.

Lemma clean_url_ignores_witness :
  let u := "http://ex.com/shop" in
  Str.has "?"%char u = false ∧ Str.has "#"%char u = false
  ∧ clean_url plain_netloc "http://ex.com/shop?page=1" = Some u
  ∧ clean_url plain_netloc (u +:+ "?" +:+ "page=1") = clean_url plain_netloc u
  ∧ clean_url plain_netloc (u +:+ "#" +:+ "top") = clean_url plain_netloc u.
Proof.
  intros u. split; [reflexivity|]. split; [reflexivity|].
  split; [vm_compute; reflexivity|].
  exact (clean_url_ignores_query_and_fragment plain_netloc u "page=1" "top"
           eq_refl eq_refl).
Defined.

Lemma validated_seed_witness :
  let url := "https://ex.com/" in
  let parsed := urllib.mkParse "https" "ex.com" "/" "" "" "" in
  validate_url url = true
  ∧ urllib.urlparse plain_netloc url = Some parsed
  ∧ (urllib.scheme parsed = "http" ∨ urllib.scheme parsed = "https").
Proof.
  intros url parsed.
  assert (Hv : validate_url url = true) by reflexivity.
  assert (Hp : urllib.urlparse plain_netloc url = Some parsed)
    by (vm_compute; reflexivity).
  split; [exact Hv|]. split; [exact Hp|].
  exact (validated_seed_is_http plain_netloc url parsed Hv Hp).
Defined.


Lemma visited_on_domain_witness :
  reachable plain_netloc absolute_href ex_base ex_final
  ∧ "http://ex.com/about" ∈ visited_urls ex_final
  ∧ is_valid_url plain_netloc ex_final "http://ex.com/about" = Some true.
Proof.
  assert (Hv : "http://ex.com/about" ∈ visited_urls ex_final)
    by (vm_compute; reflexivity).
  split; [exact ex_final_reachable|]. split; [exact Hv|].
  exact (visited_urls_are_on_the_seed_domain _ _ _ _ _ ex_final_reachable Hv).
Defined.

Lemma listed_by_type_witness :
  reachable plain_netloc absolute_href ex_base ex_final
  ∧ listed_by_type ex_final
  ∧ page_hierarchy ex_final !! "http://ex.com/shop"
    = Some (mkNode "shop" (Some "Shop") "category" ["http://ex.com"])
  ∧ "http://ex.com/shop" ∈ category_pages ex_final.
Proof.
  split; [exact ex_final_reachable|]. split.
  - exact (pages_are_listed_by_type _ _ _ _ ex_final_reachable).
  - split; vm_compute; reflexivity.
Defined.

Lemma hierarchy_children_witness :
  let node := mkNode "product-1" (Some "Item") "product" ["http://ex.com/shop"] in
  reachable plain_netloc absolute_href ex_base ex_final
  ∧ page_hierarchy ex_final !! "http://ex.com/product/1" = Some node
  ∧ "http://ex.com/shop" ∈ children node
  ∧ is_Some (page_hierarchy ex_final !! "http://ex.com/shop").
Proof.
  intros node.
  assert (Hk : page_hierarchy ex_final !! "http://ex.com/product/1" = Some node)
    by (vm_compute; reflexivity).
  assert (Ht : "http://ex.com/shop" ∈ children node)
    by (simpl; apply list_elem_of_here).
  split; [exact ex_final_reachable|]. split; [exact Hk|]. split; [exact Ht|].
  exact (hierarchy_children_are_nodes _ _ _ _ _ _ _ ex_final_reachable Hk Ht).
Defined.

Lemma nothing_is_taken_back_witness :
  reachable plain_netloc absolute_href ex_base ex_s1
  ∧ scraper_grows ex_s1 ex_s2.
Proof.
  split; [exact ex_s1_reachable|].
  exact (proj1 (nothing_is_taken_back _ _ _ _ ex_s1_reachable)
           (ex_world "http://ex.com/shop") "http://ex.com/shop" _ _
           (surjective_pairing _)).
Defined.

Lemma returned_links_witness :
  let b := urllib.mkParse "http" "ex.com" "" "" "" "" in
  urllib.urlparse plain_netloc (base_url (__init__ ex_base)) = Some b
  ∧ scrape_page plain_netloc absolute_href (ex_world "http://ex.com")
      "http://ex.com" (__init__ ex_base)
    = (Ok (ex_home_links, Some ex_home_record), ex_s1)
  ∧ "http://ex.com/shop" ∈ ex_home_links
  ∧ is_valid_url plain_netloc ex_s1 "http://ex.com/shop" = Some true
  ∧ ∃ p, urllib.urlparse plain_netloc "http://ex.com/shop" = Some p
      ∧ urllib.netloc p = urllib.netloc b
      ∧ urllib.query p = "" ∧ urllib.fragment p = "".
Proof.
  intros b.
  assert (Hl : "http://ex.com/shop" ∈ ex_home_links) by apply list_elem_of_here.
  split; [exact ex_base_parsed|]. split; [exact ex_home_scraped|].
  split; [exact Hl|].
  exact (returned_links_are_on_the_seed_domain plain_netloc absolute_href
           _ _ _ b _ _ _ _ ex_base_parsed ltac:(discriminate)
           ex_home_scraped Hl).
Defined.

Lemma record_children_witness :
  let cur := "http://ex.com/shop" in
  let node := mkNode "shop" (Some "Shop") "category" [] in
  let links := [mkLink "http://ex.com" "link" "";
                mkLink "http://ex.com/product/1" "link" ""] in
  let targets := ["http://ex.com"; "http://ex.com/product/1"] in
  page_hierarchy ex_s2 !! cur = Some node
  ∧ mapM (clean_url plain_netloc) (l_url <$> links) = Some targets
  ∧ filter (λ t, t ∈ dom (page_hierarchy ex_s2)) targets = ["http://ex.com"]
  ∧ record_children plain_netloc cur links ex_s2
    = (Ok tt,
       set_hierarchy ex_s2
         (<[cur := mkNode "shop" (Some "Shop") "category"
                     (children node
                      ++ filter (λ t, t ∈ dom (page_hierarchy ex_s2)) targets)]>
            (page_hierarchy ex_s2))).
Proof.
  intros cur node links targets.
  assert (Hk : page_hierarchy ex_s2 !! cur = Some node)
    by (vm_compute; reflexivity).
  assert (Hm : mapM (clean_url plain_netloc) (l_url <$> links) = Some targets)
    by (vm_compute; reflexivity).
  split; [exact Hk|]. split; [exact Hm|]. split; [vm_compute; reflexivity|].
  exact (record_children_appends_the_known_targets plain_netloc
           cur links ex_s2 node targets Hk Hm).
Defined.

Lemma iteration_witness :
  let ls := mkLoop [] 0 (__init__ ex_base) in
  let b := urllib.mkParse "http" "ex.com" "" "" "" "" in
  urllib.urlparse plain_netloc (base_url (self_ ls)) = Some b
  ∧ scrape_page plain_netloc absolute_href (ex_world "http://ex.com")
      "http://ex.com" (self_ ls)
    = (Ok (ex_home_links, Some ex_home_record), ex_s1)
  ∧ ∃ ls', loop_body plain_netloc absolute_href ex_world "http://ex.com" ls
           = (Ok tt, ls')
      ∧ pages_scraped ls' = (pages_scraped ls + 1)%Z.
Proof.
  intros ls b. split; [exact ex_base_parsed|]. split; [exact ex_home_scraped|].
  exact (iteration_raises_only_in_scrape_page plain_netloc absolute_href
           ex_world "http://ex.com" ls b _ _ ex_base_parsed
           ltac:(discriminate) ex_home_scraped).
Defined.

Lemma nodes_are_final_witness :
  let ls := mkLoop ["http://ex.com/shop"] 1 ex_s1 in
  let run := crawl_loop plain_netloc absolute_href 10 None ex_world ls in
  let n := mkNode "home" (Some "Home") "content" [] in
  reachable plain_netloc absolute_href ex_base (self_ ls)
  ∧ dequeued (mkResult run.1.1 run.1.2 run.2 None)
    = ["http://ex.com/shop"; "http://ex.com/product/1"]
  ∧ page_hierarchy (self_ ls) !! "http://ex.com" = Some n
  ∧ page_hierarchy (self_ run.1.2) !! "http://ex.com" = Some n.
Proof.
  intros ls run n.
  assert (Hk : page_hierarchy (self_ ls) !! "http://ex.com" = Some n)
    by (vm_compute; reflexivity).
  split; [exact ex_s1_reachable|]. split; [vm_compute; reflexivity|].
  split; [exact Hk|].
  exact (nodes_are_final_after_their_iteration plain_netloc absolute_href
           ex_base 10 None ex_world ls run.1.1 run.1.2 run.2 _ _
           ex_s1_reachable (triple_eta run) Hk).
Defined.

Lemma children_are_earlier_witness :
  let ls := mkLoop [] 1 ex_s1 in
  let cur := "http://ex.com/shop" in
  let out := loop_body plain_netloc absolute_href ex_world cur ls in
  let n := mkNode "shop" (Some "Shop") "category" ["http://ex.com"] in
  reachable plain_netloc absolute_href ex_base (self_ ls)
  ∧ page_hierarchy (self_ ls) !! cur = None
  ∧ page_hierarchy (self_ out.2) !! cur = Some n
  ∧ clean_url plain_netloc cur = Some cur
  ∧ cur ∉ visited_urls (self_ ls)
  ∧ ∀ t, t ∈ children n →
         t = cur ∨ is_Some (page_hierarchy (self_ ls) !! t).
Proof.
  intros ls cur out n.
  assert (Hk : page_hierarchy (self_ ls) !! cur = None)
    by (vm_compute; reflexivity).
  assert (Hk' : page_hierarchy (self_ out.2) !! cur = Some n)
    by (vm_compute; reflexivity).
  split; [exact ex_s1_reachable|]. split; [exact Hk|]. split; [exact Hk'|].
  exact (children_are_earlier_pages plain_netloc absolute_href ex_base
           ex_world cur ls out.1 out.2 cur n ex_s1_reachable
           (surjective_pairing out) Hk Hk').
Defined.

Lemma seed_node_witness :
  let run := scrape_website plain_netloc absolute_href 10 None ex_world_self
               (__init__ ex_base) in
  let c := "http://ex.com" in
  let n := mkNode "home" (Some "Home") "content" [c] in
  clean_url plain_netloc (base_url (__init__ ex_base)) = Some c
  ∧ page_hierarchy (self_ (final_state run)) !! c = Some n
  ∧ dequeued run = [c; "http://ex.com/shop"; "http://ex.com/product/1"]
  ∧ c ∈ children n
  ∧ c = c.
Proof.
  intros run c n.
  assert (Hc : clean_url plain_netloc (base_url (__init__ ex_base)) = Some c)
    by (vm_compute; reflexivity).
  assert (Hn : page_hierarchy (self_ (final_state run)) !! c = Some n)
    by (vm_compute; reflexivity).
  assert (Ht : c ∈ children n) by (simpl; apply list_elem_of_here).
  split; [exact Hc|]. split; [exact Hn|]. split; [vm_compute; reflexivity|].
  split; [exact Ht|].
  exact (seed_node_has_no_other_child plain_netloc absolute_href ex_world_self
           ex_base 10 None c n c Hc Hn Ht).
Defined.

Lemma counter_witness :
  let run := ex_crawl 10 None in
  dequeued run
  = ["http://ex.com"; "http://ex.com/shop"; "http://ex.com/product/1";
     "http://ex.com/about"; "http://ex.com/product/1"]
  ∧ size (dom (page_hierarchy (self_ (final_state run)))) = 3
  ∧ pages_scraped (final_state run)
    = (Z.of_nat (length (dequeued run))
       - match final_status run with Raised => 1 | _ => 0 end)%Z.
Proof.
  intros run. split; [vm_compute; reflexivity|].
  split; [vm_compute; reflexivity|].
  exact (counter_counts_dequeued_urls plain_netloc absolute_href ex_world
           (__init__ "http://ex.com/") 10 None).
Defined.

Lemma rejected_url_witness :
  let ls := mkLoop ["http://ex.com/shop"] 1 ex_s1 in
  clean_url plain_netloc "http://ex.com/?again" = Some "http://ex.com"
  ∧ "http://ex.com" ∈ visited_urls (self_ ls)
  ∧ loop_body plain_netloc absolute_href ex_world "http://ex.com/?again" ls
    = (Ok tt, mkLoop ["http://ex.com/shop"] 2 ex_s1).
Proof.
  intros ls.
  assert (Hc : clean_url plain_netloc "http://ex.com/?again"
               = Some "http://ex.com") by (vm_compute; reflexivity).
  assert (Hv : "http://ex.com" ∈ visited_urls (self_ ls))
    by (vm_compute; reflexivity).
  split; [exact Hc|]. split; [exact Hv|].
  exact (rejected_url_still_counts plain_netloc absolute_href ex_world
           "http://ex.com/?again" ls "http://ex.com" Hc (or_introl Hv)).
Defined.

Lemma frontier_witness :
  let ls := mkLoop ["http://ex.com/shop"; "http://ex.com/product/1";
                    "http://ex.com/about"] 1 ex_s1 in
  let run := crawl_loop plain_netloc absolute_href 2 None ex_world ls in
  run.1.1 = Running
  ∧ run.2 = ["http://ex.com/shop"; "http://ex.com/product/1"]
  ∧ to_visit run.1.2 = ["http://ex.com/about"; "http://ex.com/product/1"]
  ∧ ∃ added, run.2 ++ to_visit run.1.2 = to_visit ls ++ added.
Proof.
  intros ls run.
  assert (Hst : run.1.1 = Running) by (vm_compute; reflexivity).
  split; [exact Hst|]. split; [vm_compute; reflexivity|].
  split; [vm_compute; reflexivity|].
  apply (frontier_is_first_in_first_out plain_netloc absolute_href ex_world
           2 None ls run.1.1 run.1.2 run.2 (triple_eta run)).
  rewrite Hst. discriminate.
Defined.

Lemma at_most_one_page_witness :
  let run := ex_crawl 10 (Some 2%Z) in
  let s := self_ (final_state run) in
  size (dom (page_hierarchy s)) = 2
  ∧ length (dequeued run) = 2
  ∧ size (dom (page_hierarchy s)) ≤ size (visited_urls s)
  ∧ size (visited_urls s) ≤ length (dequeued run)
  ∧ ∀ N, Some 2%Z = Some N →
         (Z.of_nat (size (dom (page_hierarchy s))) ≤ Z.max 0 N)%Z.
Proof.
  intros run s. split; [vm_compute; reflexivity|].
  split; [vm_compute; reflexivity|].
  exact (at_most_one_page_per_dequeued_url plain_netloc absolute_href ex_world
           "http://ex.com/" 10 (Some 2%Z)).
Defined.

Lemma finite_site_witness :
  links_within plain_netloc absolute_href ex_world (__init__ ex_base) ex_site
  ∧ base_url (__init__ ex_base) ∈ ex_site
  ∧ 1 + (max_anchors ex_world ex_site + 1) * length ex_site ≤ 21
  ∧ final_status (ex_crawl 21 None) ≠ Running.
Proof.
  assert (Hb : base_url (__init__ ex_base) ∈ ex_site)
    by apply list_elem_of_here.
  assert (Hf : 1 + (max_anchors ex_world ex_site + 1) * length ex_site ≤ 21)
    by (vm_compute; lia).
  split; [exact ex_site_closed|]. split; [exact Hb|]. split; [exact Hf|].
  exact (crawl_of_a_finite_site_ends plain_netloc absolute_href ex_world
           (__init__ ex_base) ex_site 21 None ex_site_closed Hb Hf).
Defined.

Lemma page_record_witness :
  scrape_page plain_netloc absolute_href (ex_world "http://ex.com")
    "http://ex.com" (__init__ ex_base)
  = (Ok (ex_home_links, Some ex_home_record), ex_s1)
  ∧ clean_url plain_netloc "http://ex.com" = Some (pd_url ex_home_record)
  ∧ pd_original_url ex_home_record = "http://ex.com"
  ∧ get_page_path plain_netloc (pd_url ex_home_record)
    = Some (pd_path ex_home_record)
  ∧ ex_home_links = l_url <$> pd_links ex_home_record
  ∧ pd_url ex_home_record ∈ visited_urls ex_s1
  ∧ page_hierarchy ex_s1 !! pd_url ex_home_record
    = Some (mkNode (pd_path ex_home_record) (pd_title ex_home_record)
              (pd_type ex_home_record) [])
  ∧ ∃ soup, response (ex_world "http://ex.com") = Some (200%Z, soup)
      ∧ pd_title ex_home_record = soup_title soup
      ∧ get_page_type plain_netloc (pd_url ex_home_record) soup
        = Some (pd_type ex_home_record).
Proof.
  split; [exact ex_home_scraped|].
  exact (page_record_agrees_with_its_node plain_netloc absolute_href
           _ _ _ _ _ _ ex_home_scraped).
Defined.

Lemma seed_passes_witness :
  let self := __init__ ex_base in
  let b := urllib.mkParse "http" "ex.com" "" "" "" "" in
  urllib.urlparse plain_netloc (base_url self) = Some b
  ∧ ∃ c, clean_url plain_netloc (base_url self) = Some c
      ∧ is_valid_url plain_netloc self c = Some true
      ∧ visited_urls ex_s1 = {[c]}.
Proof.
  intros self b. split; [exact ex_base_parsed|].
  exact (seed_passes_the_guard plain_netloc absolute_href ex_base b
           (ex_world "http://ex.com") _ _ ex_base_parsed ltac:(discriminate)
           ex_home_scraped).
Defined.

Lemma second_call_witness :
  let a := ex_world "http://ex.com" in
  let s' := (scrape_page plain_netloc absolute_href a "http://ex.com"
               (__init__ ex_base)).2 in
  s' = ex_s1
  ∧ (scrape_page plain_netloc absolute_href a "http://ex.com" s').2 = s'
  ∧ ∀ out, (scrape_page plain_netloc absolute_href a "http://ex.com" s').1
           = Ok out → out = ([], None).
Proof.
  intros a s'. split; [reflexivity|].
  exact (second_call_changes_nothing plain_netloc absolute_href a a
           "http://ex.com" (__init__ ex_base)).
Defined.

Lemma zero_budget_witness :
  let run := ex_crawl 10 (Some 0%Z) in
  (0 ≤ 0)%Z
  ∧ dequeued run = [] ∧ final_status run = Finished
  ∧ self_ (final_state run) = __init__ "http://ex.com/"
  ∧ saved run = Some (∅, ([], [], [])).
Proof.
  intros run. split; [lia|].
  exact (zero_budget_saves_an_empty_site plain_netloc absolute_href
           "http://ex.com/" 10 0 ex_world ltac:(lia)).
Defined.


End Further_on_the_small_web.
